(** * VARTA acoustic drone detector: a shallow embedding of the firmware

    The development follows the firmware's own layout:
    - [Machine]: the 32-bit integers and the millisecond clock of the target;
    - [AlertManager] (alert_manager.h): the buzzer / vibration pattern player;
    - [AudioProcessor] (audio_processor.h): Hann window, mel filterbank and
      mel spectrogram;
    - [DirectionEstimator] (direction_estimator.h): cross-correlation, TDOA to
      azimuth and circular smoothing;
    - [Main] (main.cpp): globals, rolling spectrogram buffer, inference glue
      and the orchestrator [loop].

    Definitions come first; the lemmas and theorems follow. *)

From Stdlib Require Import ZArith List Bool Lia QArith Qreals Reals Lra Sorted.
From Stdlib Require Import Floats.SpecFloat.
Import ListNotations.
Local Open Scope Z_scope.

(* ===================================================================== *)
(** * Machine model *)
(* ===================================================================== *)

Module Machine.

(** [unsigned long] is 32 bits wide on the ESP32-S3. *)
Definition ULONG_MOD : Z := 2 ^ 32.

(** Conversion of an [int] to [unsigned long]: reduction modulo 2^32. *)
Definition to_ulong (z : Z) : Z := z mod ULONG_MOD.

(** Subtraction of two [unsigned long] values, with its wrap-around. *)
Definition usub (a b : Z) : Z := (a - b) mod ULONG_MOD.

(** [millis()] read at true time [T] (milliseconds since boot, unbounded):
    the counter wraps every 2^32 ms. *)
Definition millis (T : Z) : Z := T mod ULONG_MOD.

(** A 32-bit two's complement [int] holding the mathematical value [z]. *)
Definition to_int (z : Z) : Z := (z + 2 ^ 31) mod 2 ^ 32 - 2 ^ 31.

(** The digital output lines: the level last written to each pin. *)
Definition GPIO : Type := Z -> bool.

Definition HIGH : bool := true.
Definition LOW : bool := false.

Definition digitalWrite (pin : Z) (level : bool) (g : GPIO) : GPIO :=
  fun p => if p =? pin then level else g p.

End Machine.

(* ===================================================================== *)
(** * Arithmetic on [float] *)
(* ===================================================================== *)

(** The firmware computes on [float] (and briefly on [double]).  Its
    functions are written once, over the interface below, and read at two
    instances: [binary32], IEEE 754 single precision with round to nearest
    even, which evaluates them bit for bit, and [real], exact arithmetic on
    the real numbers, in which the numerical properties are stated. *)
Class FloatOps (F : Type) : Type := {
  lit : Q -> F;                (* a decimal literal such as [0.3f] *)
  of_int : Z -> F;             (* conversion of an [int] *)
  fadd : F -> F -> F;
  fsub : F -> F -> F;
  fmul : F -> F -> F;
  fdiv : F -> F -> F;
  fneg : F -> F;               (* unary minus *)
  fsqrt : F -> F;
  fltb : F -> F -> bool;       (* [<]  *)
  fleb : F -> F -> bool;       (* [<=] *)
  feqb : F -> F -> bool;       (* [==] *)
  trunc_int : F -> Z;          (* the cast [(int)x] *)
  ceil_int : F -> Z            (* [(int)ceil(x)] *)
}.

(** The functions of the C math library the firmware calls, and Arduino's
    constant [PI]. *)
Class Libm (F : Type) : Type := {
  fcos : F -> F;
  flog10 : F -> F;
  fpow : F -> F -> F;
  fatan2 : F -> F -> F;
  PI_const : F
}.

Declare Scope fl_scope.
Delimit Scope fl_scope with fl.
Infix "+" := fadd : fl_scope.
Infix "-" := fsub : fl_scope.
Infix "*" := fmul : fl_scope.
Infix "/" := fdiv : fl_scope.
Notation "- x" := (fneg x) : fl_scope.
Infix "<?" := fltb : fl_scope.
Infix "<=?" := fleb : fl_scope.
Infix "==?" := feqb (at level 70) : fl_scope.

Section FloatHelpers.
Context {F : Type} {FO : FloatOps F}.
Local Open Scope fl_scope.

(** [a > b], [a >= b] and [a != b], as C++ evaluates them. *)
Definition fgtb (a b : F) : bool := b <? a.
Definition fgeb (a b : F) : bool := b <=? a.
Definition fneb (a b : F) : bool := negb (a ==? b).

(** [std::max] on [float] (Arduino.h of the ESP32 core brings [std::max] and
    [std::min] into scope): [(a < b) ? b : a]. *)
Definition fmax (a b : F) : F := if a <? b then b else a.

(** Arduino's macro [constrain(amt, low, high)] on [float]. *)
Definition fconstrain (amt low high : F) : F :=
  if amt <? low then low else if fgtb amt high then high else amt.

(** A C array of [float]: reading [a[i]] and writing [a[i] = v].  An index
    outside the array, which C leaves undefined, reads as 0 and writes
    nothing. *)
Definition aget (a : list F) (i : Z) : F :=
  if (i <? 0)%Z then of_int 0 else nth (Z.to_nat i) a (of_int 0).

Fixpoint list_set (n : nat) (v : F) (a : list F) : list F :=
  match a, n with
  | [], _ => []
  | _ :: a', O => v :: a'
  | x :: a', S n' => x :: list_set n' v a'
  end.

Definition aset (a : list F) (i : Z) (v : F) : list F :=
  if (i <? 0)%Z then a else list_set (Z.to_nat i) v a.

End FloatHelpers.

(** Arduino's macro [constrain] and [std::min] on [int]. *)
Definition zconstrain (amt low high : Z) : Z :=
  if amt <? low then low else if high <? amt then high else amt.

Definition zmin (a b : Z) : Z := if b <? a then b else a.

(** The integers [lo, lo+1, ..., hi-1]: the values the counter of
    [for (int k = lo; k < hi; k++)] takes. *)
Definition zrange (lo hi : Z) : list Z :=
  map (fun i => lo + Z.of_nat i) (seq 0 (Z.to_nat (hi - lo))).

(** [for (int k = lo; k < hi; k++) body], on a state [S]. *)
Definition for_loop {S : Type} (lo hi : Z) (body : Z -> S -> S) (s : S) : S :=
  fold_left (fun s k => body k s) (zrange lo hi) s.

(** The arduinoFFT library is not part of the firmware's sources.  The three
    calls [windowing(Rectangle, Forward)], [compute(Forward)] and
    [complexToMagnitude()] are taken together as one function from the real
    input buffer [_vReal] (of [_fftSize] samples, [_vImag] being zero) to the
    buffer of magnitudes they leave in [_vReal], read back as [float]. *)
Class ArduinoFFT (F : Type) : Type := {
  fft_magnitude : list F -> list F
}.

(** ** IEEE 754 single precision *)

Module Binary32.

Definition prec : Z := 24.
Definition emax : Z := 128.

Definition binary32 : Type := spec_float.

Definition b32_of_Z (z : Z) : binary32 := binary_normalize prec emax z 0 false.

(** A decimal literal [n/d] with [n] and [d] representable is the correctly
    rounded quotient. *)
Definition b32_lit (q : Q) : binary32 :=
  SFdiv prec emax (b32_of_Z (Qnum q)) (b32_of_Z (Z.pos (Qden q))).

(** [(int)x]: truncation toward zero (0 where C leaves the cast undefined). *)
Definition b32_trunc (x : binary32) : Z :=
  match x with
  | S754_finite s m e =>
      let v := if 0 <=? e then Z.pos m * 2 ^ e else Z.pos m / 2 ^ (- e) in
      if s then - v else v
  | _ => 0
  end.

(** [(int)ceil(x)]. *)
Definition b32_ceil (x : binary32) : Z :=
  match x with
  | S754_finite s m e =>
      if 0 <=? e then (if s then - (Z.pos m * 2 ^ e) else Z.pos m * 2 ^ e)
      else if s then - (Z.pos m / 2 ^ (- e))
      else - ((- Z.pos m) / 2 ^ (- e))
  | _ => 0
  end.

#[export] Instance b32_ops : FloatOps binary32 := {
  lit := b32_lit;
  of_int := b32_of_Z;
  fadd := SFadd prec emax;
  fsub := SFsub prec emax;
  fmul := SFmul prec emax;
  fdiv := SFdiv prec emax;
  fneg := SFopp;
  fsqrt := SFsqrt prec emax;
  fltb := SFltb;
  fleb := SFleb;
  feqb := SFeqb;
  trunc_int := b32_trunc;
  ceil_int := b32_ceil
}.

End Binary32.

(** ** Exact real arithmetic *)

Module Real.

Definition Rltb (x y : R) : bool := if Rlt_dec x y then true else false.
Definition Rleb (x y : R) : bool := if Rle_dec x y then true else false.
Definition Reqb (x y : R) : bool := if Req_dec_T x y then true else false.

(** [(int)x] truncates toward zero; [Int_part] is the floor. *)
Definition Rtrunc (x : R) : Z :=
  if Rle_dec 0 x then Int_part x else (- Int_part (- x))%Z.

Definition Rceil (x : R) : Z := (- Int_part (- x))%Z.

#[export] Instance real_ops : FloatOps R := {
  lit := Q2R;
  of_int := IZR;
  fadd := Rplus;
  fsub := Rminus;
  fmul := Rmult;
  fdiv := Rdiv;
  fneg := Ropp;
  fsqrt := sqrt;
  fltb := Rltb;
  fleb := Rleb;
  feqb := Reqb;
  trunc_int := Rtrunc;
  ceil_int := Rceil
}.

(** [atan2(y, x)]: the angle of the point (x, y), in (-PI, PI]. *)
Definition Ratan2 (y x : R) : R :=
  if Rlt_dec 0 x then atan (y / x)
  else if Rlt_dec x 0 then
         (if Rle_dec 0 y then atan (y / x) + PI else atan (y / x) - PI)
  else if Rlt_dec 0 y then PI / 2
  else if Rlt_dec y 0 then - PI / 2
  else 0.

#[export] Instance real_libm : Libm R := {
  fcos := cos;
  flog10 := fun x => (ln x / ln 10)%R;
  fpow := Rpower;
  fatan2 := Ratan2;
  PI_const := PI
}.

(** The magnitudes of the discrete Fourier transform of a real buffer:
    [|sum_n v[n] * exp(-2 PI i k n / N)|] at each bin [k] of [0..N-1]. *)
Fixpoint Rsum (f : nat -> R) (n : nat) : R :=
  match n with
  | O => 0%R
  | S n' => (Rsum f n' + f n')%R
  end.

Definition dft_magnitude (v : list R) : list R :=
  let N := length v in
  map (fun k =>
         let re := Rsum (fun n => nth n v 0 * cos (2 * PI * INR k * INR n / INR N))%R N in
         let im := Rsum (fun n => nth n v 0 * sin (2 * PI * INR k * INR n / INR N))%R N in
         sqrt (re * re + im * im))
      (seq 0 N).

#[export] Instance real_fft : ArduinoFFT R := {
  fft_magnitude := dft_magnitude
}.

End Real.

(* ===================================================================== *)
(** * alert_manager.h *)
(* ===================================================================== *)

Module AlertManager.
Import Machine.

(** The private members of [class AlertManager] that the pulse player uses
    (the members of the blocking tone player are left out with it). *)
Record t : Type := mk {
  _buzzerPin : Z;
  _vibrationPin : Z;
  _alertActive : bool;
  _hapticOnly : bool;
  _alertStartTime : Z;   (* unsigned long *)
  _alertDuration : Z;    (* int *)
  _pulseState : bool;
  _lastPulseTime : Z;    (* unsigned long *)
  _pulseOnTime : Z;      (* int *)
  _pulseOffTime : Z      (* int *)
}.

(** [AlertManager::AlertManager()] *)
Definition init : t :=
  mk (-1) (-1) false false 0 0 false 0 100 100.

(** [AlertManager::begin] *)
Definition begin (buzzerPin vibrationPin : Z) (a : t) (g : GPIO) : t * GPIO :=
  let a := mk buzzerPin vibrationPin (_alertActive a) (_hapticOnly a)
              (_alertStartTime a) (_alertDuration a) (_pulseState a)
              (_lastPulseTime a) (_pulseOnTime a) (_pulseOffTime a) in
  let g := digitalWrite (_buzzerPin a) LOW g in
  let g := digitalWrite (_vibrationPin a) LOW g in
  (a, g).

(** [AlertManager::stopAlert] *)
Definition stopAlert (a : t) (g : GPIO) : t * GPIO :=
  let a := mk (_buzzerPin a) (_vibrationPin a) false (_hapticOnly a)
              (_alertStartTime a) (_alertDuration a) (_pulseState a)
              (_lastPulseTime a) (_pulseOnTime a) (_pulseOffTime a) in
  let g := digitalWrite (_buzzerPin a) LOW g in
  let g := digitalWrite (_vibrationPin a) LOW g in
  (a, g).

(** [AlertManager::update]; [now] is the value [millis()] returns. *)
Definition update (now : Z) (a : t) (g : GPIO) : t * GPIO :=
  if negb (_alertActive a) then (a, g)
  else if (0 <? _alertDuration a)
          && (to_ulong (_alertDuration a) <=? usub now (_alertStartTime a))
  then stopAlert a g
  else if to_ulong (if _pulseState a then _pulseOnTime a else _pulseOffTime a)
          <=? usub now (_lastPulseTime a)
  then
    let a := mk (_buzzerPin a) (_vibrationPin a) (_alertActive a) (_hapticOnly a)
                (_alertStartTime a) (_alertDuration a) (negb (_pulseState a))
                now (_pulseOnTime a) (_pulseOffTime a) in
    if _pulseState a then
      let g := if negb (_hapticOnly a) then digitalWrite (_buzzerPin a) HIGH g else g in
      let g := digitalWrite (_vibrationPin a) HIGH g in
      (a, g)
    else
      let g := digitalWrite (_buzzerPin a) LOW g in
      let g := digitalWrite (_vibrationPin a) LOW g in
      (a, g)
  else (a, g).

(** [AlertManager::triggerAlert]; [now1] and [now2] are the values of its two
    [millis()] calls, in program order. *)
Definition triggerAlert (durationMs : Z) (now1 now2 : Z) (a : t) (g : GPIO) : t * GPIO :=
  let a := mk (_buzzerPin a) (_vibrationPin a) true false
              now1 durationMs true now2 100 50 in
  let g := digitalWrite (_buzzerPin a) HIGH g in
  let g := digitalWrite (_vibrationPin a) HIGH g in
  (a, g).

(** [AlertManager::triggerHapticOnly] *)
Definition triggerHapticOnly (durationMs : Z) (now1 now2 : Z) (a : t) (g : GPIO) : t * GPIO :=
  let a := mk (_buzzerPin a) (_vibrationPin a) true true
              now1 durationMs true now2 150 100 in
  let g := digitalWrite (_vibrationPin a) HIGH g in
  (a, g).

(** [AlertManager::isAlerting] *)
Definition isAlerting (a : t) : bool := _alertActive a.

(** A run of [update()] calls, one per clock reading of [nows]. *)
Definition updates (nows : list Z) (s : t * GPIO) : t * GPIO :=
  fold_left (fun s now => update now (fst s) (snd s)) nows s.

(** The pulse phase an [update()] at [now] leaves, stated from the cadence:
    the phase flips exactly when the current phase has lasted its configured
    time ([onMs] while on, [offMs] while off). *)
Definition cadence_phase (onMs offMs : Z) (now : Z) (a : t) : bool :=
  if (if _pulseState a then onMs else offMs) <=? usub now (_lastPulseTime a)
  then negb (_pulseState a) else _pulseState a.

(** ** The blocking tone player *)

(** What the tone player did, in order: a tone of [frequency] Hz held for
    [ms] milliseconds, or a pause of [ms] milliseconds.  [delay()] takes its
    argument as an unsigned 32-bit number. *)
Inductive Sound : Type :=
| Tone (frequency : Z) (ms : Z)
| Pause (ms : Z).

Definition sound_ms (s : Sound) : Z :=
  match s with Tone _ ms => ms | Pause ms => ms end.

(** [AlertManager::playTone]: the LEDC channel drives the buzzer at
    [frequency] during [delay(durationMs)]; the pin is then detached and
    written LOW. *)
Definition playTone (frequency durationMs : Z) (a : t) (s : list Sound * GPIO)
    : list Sound * GPIO :=
  (fst s ++ [Tone frequency (to_ulong durationMs)],
   digitalWrite (_buzzerPin a) LOW (snd s)).

(** [AlertManager::playPattern].  The counter [i] of
    [for (int i = 0; i < length; i += 2)] takes the values [2 * k] for [k]
    below [(length + 1) / 2].  [None] stands for a read outside the array
    [pattern], which C leaves undefined. *)
Definition playPattern (pattern : list Z) (length : Z) (a : t)
    (s : list Sound * GPIO) : option (list Sound * GPIO) :=
  for_loop 0 ((length + 1) / 2)
    (fun k o =>
       match o with
       | None => None
       | Some s =>
           let i := 2 * k in
           match nth_error pattern (Z.to_nat i),
                 nth_error pattern (Z.to_nat (i + 1)) with
           | Some freq, Some dur =>
               if 0 <? freq then Some (playTone freq dur a s)
               else Some (fst s ++ [Pause (to_ulong dur)], snd s)
           | _, _ => None
           end
       end)
    (Some s).

End AlertManager.

(** [namespace AlertPatterns] *)
Module AlertPatterns.

Definition DETECTION : list Z := [2000; 100; 0; 50; 2000; 100; 0; 50; 2000; 100].
Definition DETECTION_LEN : Z := 10.

Definition STARTUP : list Z := [800; 100; 1000; 100; 1200; 100; 1600; 200].
Definition STARTUP_LEN : Z := 8.

Definition LOW_BATTERY : list Z := [500; 500; 0; 500; 500; 500].
Definition LOW_BATTERY_LEN : Z := 6.

Definition CALIBRATION_DONE : list Z := [1000; 200; 1500; 200; 2000; 300].
Definition CALIBRATION_DONE_LEN : Z := 6.

End AlertPatterns.

(* ===================================================================== *)
(** * audio_processor.h *)
(* ===================================================================== *)

(** [memcpy(dst + off, src, n * sizeof(float))] on arrays of [float]. *)
Definition memcpy {F : Type} {FO : FloatOps F}
    (dst : list F) (off : Z) (src : list F) (n : Z) : list F :=
  for_loop 0 n (fun i d => aset d (off + i) (aget src i)) dst.

(** [for] over a state that a checked operation may fail to produce. *)
Definition for_loop_opt {S : Type} (lo hi : Z) (body : Z -> S -> option S)
    (s : S) : option S :=
  for_loop lo hi
    (fun k o => match o with Some s => body k s | None => None end) (Some s).

Module AudioProcessor.
Section WithFloat.
Context {F : Type} {FO : FloatOps F} {LM : Libm F} {FFT : ArduinoFFT F}.
Local Open Scope fl_scope.

(** The members of [class AudioProcessor] that outlive a call; [_vReal],
    [_vImag] and [_fft] are scratch space of [computeMelSpectrogram]. *)
Record t : Type := mk {
  _sampleRate : Z;
  _fftSize : Z;
  _melBins : Z;
  _melFilterbank : list F;   (* _melBins * (_fftSize / 2 + 1) weights *)
  _noiseFloor : list F;      (* _melBins values *)
  _window : list F           (* _fftSize values *)
}.

(** A freshly allocated array, read as zeros. *)
Definition zeros (n : Z) : list F := repeat (of_int 0) (Z.to_nat n).

(** [AudioProcessor::createHannWindow]: the value the loop stores at [i], and
    the loop. *)
Definition hann (fftSize i : Z) : F :=
  lit 0.5 * (lit 1 - fcos (lit 2 * PI_const * of_int i / of_int (fftSize - 1)%Z)).

Definition createHannWindow (fftSize : Z) (window : list F) : list F :=
  for_loop 0 fftSize (fun i w => aset w i (hann fftSize i)) window.

(** [AudioProcessor::hzToMel] and [AudioProcessor::melToHz] *)
Definition hzToMel (hz : F) : F := lit 2595 * flog10 (lit 1 + hz / lit 700).

Definition melToHz (mel : F) : F := lit 700 * (fpow (lit 10) (mel / lit 2595) - lit 1).

(** The division of the two slopes of [createMelFilterbank], instrumented:
    [None] stands for a division by an [int] that is zero. *)
Definition checked_div (x : F) (d : Z) : option F :=
  if (d =? 0)%Z then None else Some (x / of_int d).

(** [numFftBins = _fftSize / 2 + 1] *)
Definition numFftBins (fftSize : Z) : Z := (Z.quot fftSize 2 + 1)%Z.

(** The first loop of [createMelFilterbank]: the bin index it stores in
    [fftBinPoints[i]], and the array it fills. *)
Definition fftBinPoint (sampleRate fftSize melBins : Z) (i : Z) : Z :=
  let fMin := lit 0 in
  let fMax := of_int sampleRate / lit 2 in
  let melMin := hzToMel fMin in
  let melMax := hzToMel fMax in
  let mel := melMin + (melMax - melMin) * of_int i / of_int (melBins + 1)%Z in
  let melPoint := melToHz mel in
  let b := trunc_int ((melPoint / (of_int sampleRate / lit 2))
                      * of_int (numFftBins fftSize)) in
  zconstrain b 0 (numFftBins fftSize - 1)%Z.

Definition fftBinPoints (sampleRate fftSize melBins : Z) : list Z :=
  map (fftBinPoint sampleRate fftSize melBins) (zrange 0 (melBins + 2)).

(** The body of the loop over the mel bands, for band [m]. *)
Definition fill_filter (nBins : Z) (pts : list Z) (m : Z) (fb : list F)
    : option (list F) :=
  let fStart := nth (Z.to_nat m) pts 0%Z in
  let fCenter := nth (Z.to_nat (m + 1)) pts 0%Z in
  let fEnd := nth (Z.to_nat (m + 2)) pts 0%Z in
  (* Rising slope *)
  match
    for_loop_opt fStart fCenter
      (fun k fb =>
         if negb (fCenter =? fStart)%Z then
           match checked_div (of_int (k - fStart)%Z) (fCenter - fStart)%Z with
           | Some w => Some (aset fb (m * nBins + k)%Z w)
           | None => None
           end
         else Some fb) fb
  with
  | None => None
  | Some fb =>
      (* Falling slope *)
      for_loop_opt fCenter (fEnd + 1)%Z
        (fun k fb =>
           if negb (fEnd =? fCenter)%Z then
             match checked_div (of_int (fEnd - k)%Z) (fEnd - fCenter)%Z with
             | Some w => Some (aset fb (m * nBins + k)%Z w)
             | None => None
             end
           else Some fb) fb
  end.

(** [AudioProcessor::createMelFilterbank] *)
Definition createMelFilterbank (sampleRate fftSize melBins : Z)
    : option (list F) :=
  let nBins := numFftBins fftSize in
  let pts := fftBinPoints sampleRate fftSize melBins in
  (* memset(_melFilterbank, 0, ...) *)
  let fb := zeros (melBins * nBins)%Z in
  for_loop_opt 0 melBins (fill_filter nBins pts) fb.

(** [AudioProcessor::begin] *)
Definition begin (sampleRate fftSize melBins : Z) : option t :=
  match createMelFilterbank sampleRate fftSize melBins with
  | None => None
  | Some fb =>
      Some (mk sampleRate fftSize melBins fb
               (zeros melBins)
               (createHannWindow fftSize (zeros fftSize)))
  end.

(** [AudioProcessor::setNoiseFloor] *)
Definition setNoiseFloor (noiseFloor : list F) (a : t) : t :=
  mk (_sampleRate a) (_fftSize a) (_melBins a) (_melFilterbank a)
     (memcpy (_noiseFloor a) 0 noiseFloor (_melBins a))
     (_window a).

(** The first loop of [computeMelSpectrogram]: the windowed, zero-padded
    frame written to [_vReal]. *)
Definition fill_vReal (a : t) (audioSamples : list F) (numSamples : Z) : list F :=
  for_loop 0 (_fftSize a)
    (fun i v =>
       if (i <? numSamples)%Z
       then aset v i (aget audioSamples i * aget (_window a) i)
       else aset v i (lit 0))
    (zeros (_fftSize a)).

(** The inner loop over the FFT bins: [sum += _melFilterbank[...] * _vReal[k]]. *)
Definition filter_sum (a : t) (vReal : list F) (m : Z) : F :=
  let nBins := numFftBins (_fftSize a) in
  for_loop 0 nBins
    (fun k sum => sum + aget (_melFilterbank a) (m * nBins + k)%Z * aget vReal k)
    (lit 0).

(** [AudioProcessor::computeMelSpectrogram]; the result is [melOutput]. *)
Definition computeMelSpectrogram (a : t) (audioSamples : list F) (numSamples : Z)
    (melOutput : list F) : list F :=
  let vReal := fft_magnitude (fill_vReal a audioSamples numSamples) in
  for_loop 0 (_melBins a)
    (fun m out =>
       let sum := filter_sum a vReal m in
       let sum := fmax sum (lit 1e-10) in
       let out := aset out m (lit 20 * flog10 sum) in
       if fneb (aget (_noiseFloor a) m) (lit 0) then
         let out := aset out m (aget out m - aget (_noiseFloor a) m) in
         aset out m (fmax (aget out m) (lit 0))
       else out)
    melOutput.

(** [AudioProcessor::computeRMS] *)
Definition computeRMS (samples : list F) (numSamples : Z) : F :=
  let sum :=
    for_loop 0 numSamples
      (fun i sum => sum + aget samples i * aget samples i) (lit 0) in
  fsqrt (sum / of_int numSamples).

(** The peak search of [computePeakFrequency]: the pair of [maxMag] and
    [maxIndex] after the loop over the bins [1 .. _fftSize / 2 - 1]. *)
Definition peak_search (fftSize : Z) (vReal : list F) : F * Z :=
  for_loop 1 (Z.quot fftSize 2)
    (fun i '(maxMag, maxIndex) =>
       if fgtb (aget vReal i) maxMag then (aget vReal i, i)
       else (maxMag, maxIndex))
    (lit 0, 0%Z).

(** [AudioProcessor::computePeakFrequency].  The frame is windowed and padded
    as in [computeMelSpectrogram]; [compute] and [complexToMagnitude] leave
    the magnitudes in [_vReal] (the rectangle windowing that
    [computeMelSpectrogram] calls besides changes no sample).  The search
    compares the magnitudes as the interface gives them; in the source they
    and [maxMag] are [double]. *)
Definition computePeakFrequency (a : t) (samples : list F) (numSamples : Z) : F :=
  let vReal := fft_magnitude (fill_vReal a samples numSamples) in
  let maxIndex := snd (peak_search (_fftSize a) vReal) in
  of_int maxIndex * of_int (_sampleRate a) / of_int (_fftSize a).

End WithFloat.
Arguments t F : clear implicits.
End AudioProcessor.

(* ===================================================================== *)
(** * direction_estimator.h *)
(* ===================================================================== *)

Module DirectionEstimator.
Section WithFloat.
Context {F : Type} {FO : FloatOps F}.
Local Open Scope fl_scope.

Record t : Type := mk {
  _micSpacingM : F;
  _speedOfSound : F;
  _sampleRate : Z;
  _maxDelaySamples : F;
  _lastConfidence : F;
  _smoothedDirection : F
}.

(** [DirectionEstimator::DirectionEstimator()] *)
Definition init : t :=
  mk (lit 0.05) (lit 343) 44100 (of_int 0) (of_int 0) (of_int 0).

(** [DirectionEstimator::begin] *)
Definition begin (micSpacingMm speedOfSound : F) (sampleRate : Z) (d : t) : t :=
  let micSpacingM := micSpacingMm / lit 1000 in
  let maxDistanceM := fsqrt (lit 2) * micSpacingM in
  let maxDelayS := maxDistanceM / speedOfSound in
  mk micSpacingM speedOfSound sampleRate
     (maxDelayS * of_int sampleRate)
     (_lastConfidence d) (_smoothedDirection d).

(** [getConfidence] *)
Definition getConfidence (d : t) : F := _lastConfidence d.

(** The search bound of [crossCorrelate]:
    [min((int)ceil(_maxDelaySamples) + 5, numSamples / 4)]. *)
Definition maxLag_of (d : t) (numSamples : Z) : Z :=
  zmin (ceil_int (_maxDelaySamples d) + 5)%Z (Z.quot numSamples 4).

(** The accumulators of the inner loop of [crossCorrelate]. *)
Record acc : Type := mkacc { a_corr : F; a_norm1 : F; a_norm2 : F; a_count : Z }.

(** The body of the loop over [lag]: the normalised correlation at [lag]. *)
Definition correlation_at (sig1 sig2 : list F) (numSamples maxLag lag : Z) : F :=
  let s :=
    for_loop maxLag (numSamples - maxLag)%Z
      (fun i s =>
         let j := (i + lag)%Z in
         if (0 <=? j)%Z && (j <? numSamples)%Z then
           mkacc (a_corr s + aget sig1 i * aget sig2 j)
                 (a_norm1 s + aget sig1 i * aget sig1 i)
                 (a_norm2 s + aget sig2 j * aget sig2 j)
                 (a_count s + 1)%Z
         else s)
      (mkacc (lit 0) (lit 0) (lit 0) 0%Z) in
  let norm := fsqrt (a_norm1 s * a_norm2 s) in
  if fgtb norm (lit 1e-10) then a_corr s / norm else lit 0.

(** [DirectionEstimator::crossCorrelate]: the pair of the returned lag and of
    the value stored through [confidence]. *)
Definition crossCorrelate (d : t) (sig1 sig2 : list F) (numSamples : Z) : F * F :=
  let maxLag := maxLag_of d numSamples in
  let '(maxCorr, bestLag) :=
    for_loop (- maxLag)%Z (maxLag + 1)%Z
      (fun lag '(maxCorr, bestLag) =>
         let corr := correlation_at sig1 sig2 numSamples maxLag lag in
         if fgtb corr maxCorr then (corr, lag) else (maxCorr, bestLag))
      (lit (-1e10), 0%Z) in
  (* the parabolic refinement is left empty in the source *)
  let refinedLag := of_int bestLag in
  (refinedLag, maxCorr).

Context {LM : Libm F}.

(** [DirectionEstimator::tdoaToAzimuth] *)
Definition tdoaToAzimuth (d : t) (tdoa12 tdoa14 tdoa32 tdoa34 : F) : F :=
  let dt12 := tdoa12 / of_int (_sampleRate d) in
  let dt14 := tdoa14 / of_int (_sampleRate d) in
  let dt32 := tdoa32 / of_int (_sampleRate d) in
  let dt34 := tdoa34 / of_int (_sampleRate d) in
  let dtX := (dt12 + dt34) / lit 2 in
  let dtY := (dt14 + dt32) / lit 2 in
  let sinX := (_speedOfSound d * dtX) / _micSpacingM d in
  let sinY := (_speedOfSound d * dtY) / _micSpacingM d in
  let sinX := fconstrain sinX (lit (-1)) (lit 1) in
  let sinY := fconstrain sinY (lit (-1)) (lit 1) in
  let azimuth := fatan2 sinX (- sinY) * lit 180 / PI_const in
  if azimuth <? of_int 0 then azimuth + lit 360 else azimuth.

(** The smoothing step of [estimateDirection]: the new [_smoothedDirection]
    from the old one and the azimuth just measured. *)
Definition smooth (smoothed azimuth : F) : F :=
  let diff := azimuth - smoothed in
  let diff := if fgtb diff (lit 180) then diff - lit 360 else diff in
  let diff := if diff <? lit (-180) then diff + lit 360 else diff in
  let smoothed := smoothed + lit 0.3 * diff in
  let smoothed := if smoothed <? of_int 0 then smoothed + lit 360 else smoothed in
  if fgeb smoothed (lit 360) then smoothed - lit 360 else smoothed.

(** The mean of the four confidences, as [estimateDirection] stores it. *)
Definition mean_confidence (c12 c14 c32 c34 : F) : F :=
  (c12 + c14 + c32 + c34) / lit 4.

(** [DirectionEstimator::estimateDirection]: the returned bearing and the
    estimator after the call. *)
Definition estimateDirection (d : t) (mic1 mic2 mic3 mic4 : list F)
    (numSamples : Z) : F * t :=
  let '(tdoa12, conf12) := crossCorrelate d mic1 mic2 numSamples in
  let '(tdoa14, conf14) := crossCorrelate d mic1 mic4 numSamples in
  let '(tdoa32, conf32) := crossCorrelate d mic3 mic2 numSamples in
  let '(tdoa34, conf34) := crossCorrelate d mic3 mic4 numSamples in
  let d := mk (_micSpacingM d) (_speedOfSound d) (_sampleRate d)
              (_maxDelaySamples d)
              (mean_confidence conf12 conf14 conf32 conf34)
              (_smoothedDirection d) in
  if _lastConfidence d <? lit 0.5 then
    (_smoothedDirection d, d)
  else
    let azimuth := tdoaToAzimuth d tdoa12 tdoa14 tdoa32 tdoa34 in
    let d := mk (_micSpacingM d) (_speedOfSound d) (_sampleRate d)
                (_maxDelaySamples d) (_lastConfidence d)
                (smooth (_smoothedDirection d) azimuth) in
    (_smoothedDirection d, d).

End WithFloat.
Arguments t F : clear implicits.
End DirectionEstimator.

(* ===================================================================== *)
(** * config.h *)
(* ===================================================================== *)

Module Config.

Definition SAMPLE_RATE : Z := 44100.
Definition FFT_SIZE : Z := 2048.
Definition HOP_SIZE : Z := 512.
Definition MEL_BINS : Z := 128.
Definition SPEC_TIME_FRAMES : Z := 32.

Definition MIC_SPACING_MM : Q := 50.
Definition SPEED_OF_SOUND : Q := 343.

Definition CONFIDENCE_THRESHOLD : Q := 0.75.
Definition DRONE_CLASS_INDEX : Z := 1.

Definition ALERT_HOLDOFF_MS : Z := 2000.
Definition ALERT_DURATION_MS : Z := 500.
Definition DETECTION_WINDOW_MS : Z := 4000.
Definition MIN_DETECTIONS_FOR_ALERT : Z := 3.

Definition MIN_CORRELATION : Q := 0.5.

Definition BUZZER_PIN : Z := 38.
Definition VIBRATION_PIN : Z := 39.
Definition BATTERY_DIVIDER : Q := 2.
Definition BATTERY_CRITICAL_VOLTAGE : Q := 6.4.

Definition LED_COUNT : Z := 8.

End Config.

(* ===================================================================== *)
(** * main.cpp *)
(* ===================================================================== *)

Module Main.
Import Machine Config.

Inductive SystemState : Type :=
| STATE_INIT
| STATE_SCAN
| STATE_ALERT
| STATE_MONITOR
| STATE_CALIBRATE
| STATE_LOW_BATTERY
| STATE_ERROR.

Definition SystemState_eqb (a b : SystemState) : bool :=
  match a, b with
  | STATE_INIT, STATE_INIT | STATE_SCAN, STATE_SCAN | STATE_ALERT, STATE_ALERT
  | STATE_MONITOR, STATE_MONITOR | STATE_CALIBRATE, STATE_CALIBRATE
  | STATE_LOW_BATTERY, STATE_LOW_BATTERY | STATE_ERROR, STATE_ERROR => true
  | _, _ => false
  end.

(** What [handleButton()] can do to the globals in one call.  Its debouncing
    and press timing are outside the detection core; any of its effects may
    occur at any iteration. *)
Inductive ButtonAction : Type :=
| NoAction
| LongPress      (* released after 3 s or more: calibration *)
| DoublePress    (* two quick presses: toggle mute *)
| SinglePress.   (* one quick press, after its timeout: cycle the mode *)

(** Which alert the orchestrator started. *)
Inductive AlertKind : Type := Audible | HapticOnly.

(** What one iteration of [loop()] did, for the statements about runs. *)
Record Events : Type := mkEvents {
  ev_processed : bool;            (* the hop gate of SCAN / ALERT opened *)
  ev_qualifying : bool;           (* confidence >= CONFIDENCE_THRESHOLD *)
  ev_alert : option AlertKind;    (* an alert was triggered *)
  ev_decayed : bool               (* the detection count was reset *)
}.

Definition no_events : Events := mkEvents false false None false.

Section WithFloat.
Context {F : Type} {FO : FloatOps F} {LM : Libm F} {FFT : ArduinoFFT F}.
Local Open Scope fl_scope.

(** What the environment supplies to one iteration of [loop()].  The
    TensorFlow Lite interpreter is an external collaborator, a black box:
    [in_invoke] is what [interpreter->Invoke()] does at this iteration with
    the input tensor, failing ([None]) or leaving the class scores. *)
Record LoopInput : Type := mkInput {
  in_time : Z;            (* true time (ms since boot) of [currentTime = millis()] *)
  in_button : ButtonAction;
  in_adc : Z;             (* analogRead(BATTERY_ADC_PIN) *)
  in_i2s : option (Z * list Z);           (* i2s_read: bytesRead and rawSamples *)
  in_invoke : list F -> option (list F);
  in_calibration : list (option (Z * list Z)); (* the reads of a calibration run *)
  in_trigger_time1 : Z;   (* true times of the two millis() calls of a trigger *)
  in_trigger_time2 : Z;
  in_update_time : Z      (* true time of the millis() call of update() *)
}.

(** [float audioBuffer[4][FFT_SIZE]] *)
Record AudioBuffer : Type := mkAudio {
  mic0 : list F; mic1 : list F; mic2 : list F; mic3 : list F
}.

Record Globals : Type := mkGlobals {
  currentState : SystemState;
  currentConfidence : F;
  currentDirection : F;
  detectionCount : Z;   (* int *)
  lastDetectionTime : Z;   (* unsigned long *)
  lastAlertTime : Z;   (* unsigned long *)
  audioMuted : bool;
  audioBuffer : AudioBuffer;   (* float[4][FFT_SIZE] *)
  melSpectrogram : list F;   (* float[MEL_BINS * SPEC_TIME_FRAMES] *)
  spectrogramIndex : Z;   (* int *)
  lastProcessTime : Z;   (* the static local of loop() *)
  modelLoaded : bool;   (* interpreter, input and output are non-null *)
  audioProcessor : AudioProcessor.t F;
  directionEstimator : DirectionEstimator.t F;
  alertManager : AlertManager.t;
  gpio : GPIO   (* the levels of the output pins *)
}.

(** Assignments to the globals. *)
Definition set_currentState (v : SystemState) (g : Globals) : Globals :=
  mkGlobals v (currentConfidence g) (currentDirection g) (detectionCount g)
    (lastDetectionTime g) (lastAlertTime g) (audioMuted g)
    (audioBuffer g) (melSpectrogram g) (spectrogramIndex g)
    (lastProcessTime g) (modelLoaded g) (audioProcessor g)
    (directionEstimator g) (alertManager g) (gpio g).
Definition set_currentConfidence (v : F) (g : Globals) : Globals :=
  mkGlobals (currentState g) v (currentDirection g) (detectionCount g)
    (lastDetectionTime g) (lastAlertTime g) (audioMuted g)
    (audioBuffer g) (melSpectrogram g) (spectrogramIndex g)
    (lastProcessTime g) (modelLoaded g) (audioProcessor g)
    (directionEstimator g) (alertManager g) (gpio g).
Definition set_currentDirection (v : F) (g : Globals) : Globals :=
  mkGlobals (currentState g) (currentConfidence g) v (detectionCount g)
    (lastDetectionTime g) (lastAlertTime g) (audioMuted g)
    (audioBuffer g) (melSpectrogram g) (spectrogramIndex g)
    (lastProcessTime g) (modelLoaded g) (audioProcessor g)
    (directionEstimator g) (alertManager g) (gpio g).
Definition set_detectionCount (v : Z) (g : Globals) : Globals :=
  mkGlobals (currentState g) (currentConfidence g) (currentDirection g) v
    (lastDetectionTime g) (lastAlertTime g) (audioMuted g)
    (audioBuffer g) (melSpectrogram g) (spectrogramIndex g)
    (lastProcessTime g) (modelLoaded g) (audioProcessor g)
    (directionEstimator g) (alertManager g) (gpio g).
Definition set_lastDetectionTime (v : Z) (g : Globals) : Globals :=
  mkGlobals (currentState g) (currentConfidence g) (currentDirection g)
    (detectionCount g) v (lastAlertTime g) (audioMuted g)
    (audioBuffer g) (melSpectrogram g) (spectrogramIndex g)
    (lastProcessTime g) (modelLoaded g) (audioProcessor g)
    (directionEstimator g) (alertManager g) (gpio g).
Definition set_lastAlertTime (v : Z) (g : Globals) : Globals :=
  mkGlobals (currentState g) (currentConfidence g) (currentDirection g)
    (detectionCount g) (lastDetectionTime g) v (audioMuted g)
    (audioBuffer g) (melSpectrogram g) (spectrogramIndex g)
    (lastProcessTime g) (modelLoaded g) (audioProcessor g)
    (directionEstimator g) (alertManager g) (gpio g).
Definition set_audioMuted (v : bool) (g : Globals) : Globals :=
  mkGlobals (currentState g) (currentConfidence g) (currentDirection g)
    (detectionCount g) (lastDetectionTime g) (lastAlertTime g) v
    (audioBuffer g) (melSpectrogram g) (spectrogramIndex g)
    (lastProcessTime g) (modelLoaded g) (audioProcessor g)
    (directionEstimator g) (alertManager g) (gpio g).
Definition set_audioBuffer (v : AudioBuffer) (g : Globals) : Globals :=
  mkGlobals (currentState g) (currentConfidence g) (currentDirection g)
    (detectionCount g) (lastDetectionTime g) (lastAlertTime g)
    (audioMuted g) v (melSpectrogram g) (spectrogramIndex g)
    (lastProcessTime g) (modelLoaded g) (audioProcessor g)
    (directionEstimator g) (alertManager g) (gpio g).
Definition set_melSpectrogram (v : list F) (g : Globals) : Globals :=
  mkGlobals (currentState g) (currentConfidence g) (currentDirection g)
    (detectionCount g) (lastDetectionTime g) (lastAlertTime g)
    (audioMuted g) (audioBuffer g) v (spectrogramIndex g)
    (lastProcessTime g) (modelLoaded g) (audioProcessor g)
    (directionEstimator g) (alertManager g) (gpio g).
Definition set_spectrogramIndex (v : Z) (g : Globals) : Globals :=
  mkGlobals (currentState g) (currentConfidence g) (currentDirection g)
    (detectionCount g) (lastDetectionTime g) (lastAlertTime g)
    (audioMuted g) (audioBuffer g) (melSpectrogram g) v
    (lastProcessTime g) (modelLoaded g) (audioProcessor g)
    (directionEstimator g) (alertManager g) (gpio g).
Definition set_lastProcessTime (v : Z) (g : Globals) : Globals :=
  mkGlobals (currentState g) (currentConfidence g) (currentDirection g)
    (detectionCount g) (lastDetectionTime g) (lastAlertTime g)
    (audioMuted g) (audioBuffer g) (melSpectrogram g)
    (spectrogramIndex g) v (modelLoaded g) (audioProcessor g)
    (directionEstimator g) (alertManager g) (gpio g).
Definition set_modelLoaded (v : bool) (g : Globals) : Globals :=
  mkGlobals (currentState g) (currentConfidence g) (currentDirection g)
    (detectionCount g) (lastDetectionTime g) (lastAlertTime g)
    (audioMuted g) (audioBuffer g) (melSpectrogram g)
    (spectrogramIndex g) (lastProcessTime g) v (audioProcessor g)
    (directionEstimator g) (alertManager g) (gpio g).
Definition set_audioProcessor (v : AudioProcessor.t F) (g : Globals) : Globals :=
  mkGlobals (currentState g) (currentConfidence g) (currentDirection g)
    (detectionCount g) (lastDetectionTime g) (lastAlertTime g)
    (audioMuted g) (audioBuffer g) (melSpectrogram g)
    (spectrogramIndex g) (lastProcessTime g) (modelLoaded g) v
    (directionEstimator g) (alertManager g) (gpio g).
Definition set_directionEstimator (v : DirectionEstimator.t F) (g : Globals) : Globals :=
  mkGlobals (currentState g) (currentConfidence g) (currentDirection g)
    (detectionCount g) (lastDetectionTime g) (lastAlertTime g)
    (audioMuted g) (audioBuffer g) (melSpectrogram g)
    (spectrogramIndex g) (lastProcessTime g) (modelLoaded g)
    (audioProcessor g) v (alertManager g) (gpio g).
Definition set_alertManager (v : AlertManager.t) (g : Globals) : Globals :=
  mkGlobals (currentState g) (currentConfidence g) (currentDirection g)
    (detectionCount g) (lastDetectionTime g) (lastAlertTime g)
    (audioMuted g) (audioBuffer g) (melSpectrogram g)
    (spectrogramIndex g) (lastProcessTime g) (modelLoaded g)
    (audioProcessor g) (directionEstimator g) v (gpio g).
Definition set_gpio (v : GPIO) (g : Globals) : Globals :=
  mkGlobals (currentState g) (currentConfidence g) (currentDirection g)
    (detectionCount g) (lastDetectionTime g) (lastAlertTime g)
    (audioMuted g) (audioBuffer g) (melSpectrogram g)
    (spectrogramIndex g) (lastProcessTime g) (modelLoaded g)
    (audioProcessor g) (directionEstimator g) (alertManager g) v.

(** [readBatteryVoltage()] *)
Definition readBatteryVoltage (adcValue : Z) : F :=
  (of_int adcValue / lit 4095) * lit 3.3 * lit BATTERY_DIVIDER.

(** [handleButton()], by its effect. *)
Definition handleButton (b : ButtonAction) (g : Globals) : Globals :=
  match b with
  | NoAction => g
  | LongPress => set_currentState STATE_CALIBRATE g
  | DoublePress => set_audioMuted (negb (audioMuted g)) g
  | SinglePress =>
      match currentState g with
      | STATE_SCAN => set_currentState STATE_MONITOR g
      | STATE_MONITOR => set_currentState STATE_SCAN g
      | _ => g
      end
  end.

(** [readAudioSamples()]; [i2s] is [Some (bytesRead, rawSamples)] when
    [i2s_read] returned [ESP_OK], with the number of bytes it reports and
    the array [rawSamples] it filled. *)
Definition readAudioSamples (i2s : option (Z * list Z)) (g : Globals) : Globals :=
  match i2s with
  | Some (bytesRead, rawSamples) =>
      if (0 <? bytesRead)%Z then
        let samplesRead := Z.quot bytesRead 4 in
        let b := audioBuffer g in
        let m0 :=
          for_loop 0 (Z.min samplesRead FFT_SIZE)
            (fun i m =>
               let sample :=
                 of_int (Z.shiftr (nth (Z.to_nat i) rawSamples 0%Z) 8) / lit 8388608 in
               aset m i sample)
            (mic0 b) in
        set_audioBuffer
          (mkAudio m0 (memcpy (mic1 b) 0 m0 FFT_SIZE)
                      (memcpy (mic2 b) 0 m0 FFT_SIZE)
                      (memcpy (mic3 b) 0 m0 FFT_SIZE)) g
      else g
  | None => g
  end.

(** [processAudio()] *)
Definition processAudio (g : Globals) : Globals :=
  let melFrame :=
    AudioProcessor.computeMelSpectrogram (audioProcessor g)
      (mic0 (audioBuffer g)) FFT_SIZE (AudioProcessor.zeros MEL_BINS) in
  let g := set_melSpectrogram
             (memcpy (melSpectrogram g) (spectrogramIndex g * MEL_BINS)%Z
                     melFrame MEL_BINS) g in
  set_spectrogramIndex (Z.rem (spectrogramIndex g + 1) SPEC_TIME_FRAMES) g.

(** The loops of [runInference()] that fill the input tensor [inputData]. *)
Definition fill_input (g : Globals) (inputData : list F) : list F :=
  for_loop 0 SPEC_TIME_FRAMES
    (fun t inputData =>
       let srcIndex := Z.rem (spectrogramIndex g + t) SPEC_TIME_FRAMES in
       for_loop 0 MEL_BINS
         (fun f inputData =>
            let val := aget (melSpectrogram g) (srcIndex * MEL_BINS + f)%Z in
            let val := (val + lit 80) / lit 80 in
            let val := fconstrain val (lit 0) (lit 1) in
            aset inputData (t * MEL_BINS + f)%Z val)
         inputData)
    inputData.

(** [runInference()]; the input tensor holds MEL_BINS * SPEC_TIME_FRAMES
    values. *)
Definition runInference (invoke : list F -> option (list F)) (g : Globals) : F :=
  if negb (modelLoaded g) then lit 0
  else
    let inputData :=
      fill_input g (AudioProcessor.zeros (SPEC_TIME_FRAMES * MEL_BINS)) in
    match invoke inputData with
    | None => lit 0
    | Some outputData => aget outputData DRONE_CLASS_INDEX
    end.

(** The running average of [enterCalibrationMode()], one frame at a time:
    the state is the pair of [noiseFloor] and [sampleCount]. *)
Definition calibration_step (i2s : option (Z * list Z))
    (s : Globals * (list F * Z)) : Globals * (list F * Z) :=
  let '(g, (noiseFloor, sampleCount)) := s in
  let g := readAudioSamples i2s g in
  let melFrame :=
    AudioProcessor.computeMelSpectrogram (audioProcessor g)
      (mic0 (audioBuffer g)) FFT_SIZE (AudioProcessor.zeros MEL_BINS) in
  let noiseFloor :=
    for_loop 0 MEL_BINS
      (fun i nf =>
         aset nf i ((aget nf i * of_int sampleCount + aget melFrame i)
                    / of_int (sampleCount + 1)%Z))
      noiseFloor in
  (g, (noiseFloor, (sampleCount + 1)%Z)).

(** [enterCalibrationMode()]; [reads] are the results of the [i2s_read] calls
    made during its 30 s. *)
Definition enterCalibrationMode (reads : list (option (Z * list Z))) (g : Globals)
    : Globals :=
  let '(g, (noiseFloor, _)) :=
    fold_left (fun s r => calibration_step r s) reads
      (g, (AudioProcessor.zeros MEL_BINS, 0%Z)) in
  set_audioProcessor (AudioProcessor.setNoiseFloor noiseFloor (audioProcessor g)) g.

(** The hop interval [HOP_SIZE * 1000 / SAMPLE_RATE], in [int] arithmetic. *)
Definition HOP_MS : Z := Z.quot (HOP_SIZE * 1000) SAMPLE_RATE.

(** [if (currentConfidence >= CONFIDENCE_THRESHOLD) { ... }] *)
Definition detect (currentTime : Z) (g : Globals) : Globals :=
  if fgeb (currentConfidence g) (lit CONFIDENCE_THRESHOLD) then
    let b := audioBuffer g in
    let '(dir, de) :=
      DirectionEstimator.estimateDirection (directionEstimator g)
        (mic0 b) (mic1 b) (mic2 b) (mic3 b) FFT_SIZE in
    let g := set_directionEstimator de g in
    let g := set_currentDirection dir g in
    let g := set_detectionCount (to_int (detectionCount g + 1)) g in
    set_lastDetectionTime currentTime g
  else g.

(** [if (detectionCount >= MIN_DETECTIONS_FOR_ALERT && currentTime -
    lastAlertTime >= ALERT_HOLDOFF_MS) { ... }] *)
Definition check_alert (currentTime : Z) (inp : LoopInput) (g : Globals)
    : Globals * option AlertKind :=
  if (MIN_DETECTIONS_FOR_ALERT <=? detectionCount g)%Z
     && (ALERT_HOLDOFF_MS <=? usub currentTime (lastAlertTime g))%Z
  then
    let g := set_currentState STATE_ALERT g in
    let g := set_lastAlertTime currentTime g in
    let t1 := millis (in_trigger_time1 inp) in
    let t2 := millis (in_trigger_time2 inp) in
    if negb (audioMuted g) then
      let '(a, p) := AlertManager.triggerAlert ALERT_DURATION_MS t1 t2
                       (alertManager g) (gpio g) in
      (set_gpio p (set_alertManager a g), Some Audible)
    else
      let '(a, p) := AlertManager.triggerHapticOnly ALERT_DURATION_MS t1 t2
                       (alertManager g) (gpio g) in
      (set_gpio p (set_alertManager a g), Some HapticOnly)
  else (g, None).

(** [if (currentTime - lastDetectionTime > DETECTION_WINDOW_MS) { ... }] *)
Definition decay (currentTime : Z) (g : Globals) : Globals * bool :=
  if (DETECTION_WINDOW_MS <? usub currentTime (lastDetectionTime g))%Z then
    let g := set_detectionCount 0 g in
    (match currentState g with
     | STATE_ALERT => set_currentState STATE_SCAN g
     | _ => g
     end, true)
  else (g, false).

(** The [STATE_SCAN] / [STATE_ALERT] case of [loop()]. *)
Definition scan_case (currentTime : Z) (inp : LoopInput) (g : Globals)
    : Globals * Events :=
  if (HOP_MS <=? usub currentTime (lastProcessTime g))%Z then
    let g := set_lastProcessTime currentTime g in
    let g := readAudioSamples (in_i2s inp) g in
    let g := processAudio g in
    let g := set_currentConfidence (runInference (in_invoke inp) g) g in
    let q := fgeb (currentConfidence g) (lit CONFIDENCE_THRESHOLD) in
    let g := detect currentTime g in
    let '(g, alert) := check_alert currentTime inp g in
    let '(g, decayed) := decay currentTime g in
    (g, mkEvents true q alert decayed)
  else (g, no_events).

(** The [STATE_MONITOR] case. *)
Definition monitor_case (currentTime : Z) (inp : LoopInput) (g : Globals)
    : Globals :=
  if (HOP_MS <=? usub currentTime (lastProcessTime g))%Z then
    let g := set_lastProcessTime currentTime g in
    let g := readAudioSamples (in_i2s inp) g in
    processAudio g
  else g.

(** [loop()].  The display, the LED ring and the serial port hold no state
    the detection core reads; their calls are left out. *)
Definition loop (g : Globals) (inp : LoopInput) : Globals * Events :=
  let currentTime := millis (in_time inp) in
  let g := handleButton (in_button inp) g in
  let batteryVoltage := readBatteryVoltage (in_adc inp) in
  let g := if batteryVoltage <? lit BATTERY_CRITICAL_VOLTAGE
           then set_currentState STATE_LOW_BATTERY g else g in
  let '(g, ev) :=
    match currentState g with
    | STATE_SCAN | STATE_ALERT => scan_case currentTime inp g
    | STATE_MONITOR => (monitor_case currentTime inp g, no_events)
    | STATE_CALIBRATE =>
        (set_currentState STATE_SCAN
           (enterCalibrationMode (in_calibration inp) g), no_events)
    | STATE_LOW_BATTERY | STATE_ERROR | STATE_INIT => (g, no_events)
    end in
  let '(a, p) := AlertManager.update (millis (in_update_time inp))
                   (alertManager g) (gpio g) in
  (set_gpio p (set_alertManager a g), ev).

(** A run of [loop()]: the state after the iterations, and what each did,
    stamped with its true time. *)
Fixpoint run (g : Globals) (ins : list LoopInput) : Globals * list (Z * Events) :=
  match ins with
  | [] => (g, [])
  | inp :: ins' =>
      let '(g1, ev) := loop g inp in
      let '(g2, evs) := run g1 ins' in
      (g2, (in_time inp, ev) :: evs)
  end.

(** [setup()], as far as the globals go: the state in which [loop()] first
    runs.  [None] stands for a filterbank that could not be built. *)
Definition setup (modelOk : bool) (g0 : GPIO) : option Globals :=
  match AudioProcessor.begin SAMPLE_RATE FFT_SIZE MEL_BINS with
  | None => None
  | Some ap =>
      let de := DirectionEstimator.begin (lit MIC_SPACING_MM) (lit SPEED_OF_SOUND)
                  SAMPLE_RATE DirectionEstimator.init in
      let '(am, p) := AlertManager.begin BUZZER_PIN VIBRATION_PIN
                        AlertManager.init g0 in
      let z := AudioProcessor.zeros FFT_SIZE in
      Some (mkGlobals STATE_SCAN (lit 0) (lit 0) 0%Z 0%Z 0%Z false
              (mkAudio z z z z)
              (AudioProcessor.zeros (MEL_BINS * SPEC_TIME_FRAMES))
              0%Z 0%Z modelOk ap de am p)
  end.

End WithFloat.
Arguments Globals F : clear implicits.
Arguments AudioBuffer F : clear implicits.
Arguments LoopInput F : clear implicits.
End Main.

(* ===================================================================== *)
(** * main.cpp: the button and the LED ring *)
(* ===================================================================== *)

Module Panel.
Import Machine Config Main.

(** The static locals of [handleButton()]. *)
Record ButtonStatics : Type := mkButton {
  buttonPressTime : Z;     (* unsigned long *)
  buttonWasPressed : bool;
  quickPressCount : Z;     (* int *)
  lastQuickPress : Z       (* unsigned long *)
}.

Definition button_init : ButtonStatics := mkButton 0 false 0 0.

(** What one call of [handleButton()] reads: the level of the button pin and
    the values of its [millis()] calls, in program order. *)
Record ButtonRead : Type := mkRead {
  pin_low : bool;   (* digitalRead(BUTTON_PIN) == LOW *)
  at_press : Z;     (* buttonPressTime = millis() *)
  at_release : Z;   (* pressDuration = millis() - buttonPressTime *)
  at_quick : Z;     (* millis() - lastQuickPress < 500 *)
  at_stamp : Z;     (* lastQuickPress = millis() *)
  at_single : Z     (* millis() - lastQuickPress > 500 *)
}.

(** The static locals of [updateLEDs()]. *)
Record LedStatics : Type := mkLed {
  breathe : Z;      (* uint8_t *)
  breatheDir : Z    (* int8_t *)
}.

Definition led_init : LedStatics := mkLed 0 1.

(** A pixel of the ring: its red, green and blue bytes. *)
Definition Pixel : Type := (Z * Z * Z)%type.

(** [Adafruit_NeoPixel::Color], whose three arguments are [uint8_t]. *)
Definition Color (r g b : Z) : Pixel := (r mod 256, g mod 256, b mod 256).

(** [Adafruit_NeoPixel::clear] and [setPixelColor]; the latter takes the index
    as an unsigned number and ignores one that is not below the number of
    pixels. *)
Definition clear (ring : list Pixel) : list Pixel := map (fun _ => Color 0 0 0) ring.

Definition setPixelColor (n : Z) (c : Pixel) (ring : list Pixel) : list Pixel :=
  if (0 <=? n) && (n <? Z.of_nat (length ring)) then list_set (Z.to_nat n) c ring
  else ring.

(** Conversion of an [int] to [int8_t]. *)
Definition to_int8 (z : Z) : Z := (z + 128) mod 256 - 128.

Section WithFloat.
Context {F : Type} {FO : FloatOps F}.
Local Open Scope fl_scope.

(** [handleButton()], with its static locals. *)
Definition handleButton (r : ButtonRead) (s : ButtonStatics) (g : Globals F)
    : ButtonStatics * Globals F :=
  let buttonPressed := pin_low r in
  let '(s, g) :=
    if buttonPressed && negb (buttonWasPressed s) then
      (* Button just pressed *)
      (mkButton (at_press r) true (quickPressCount s) (lastQuickPress s), g)
    else if negb buttonPressed && buttonWasPressed s then
      (* Button just released *)
      let pressDuration := usub (at_release r) (buttonPressTime s) in
      let s := mkButton (buttonPressTime s) false (quickPressCount s)
                        (lastQuickPress s) in
      if (3000 <=? pressDuration)%Z then
        (s, set_currentState STATE_CALIBRATE g)
      else if (50 <=? pressDuration)%Z then
        let count :=
          if (usub (at_quick r) (lastQuickPress s) <? 500)%Z
          then to_int (quickPressCount s + 1) else 1%Z in
        let s := mkButton (buttonPressTime s) (buttonWasPressed s) count
                          (at_stamp r) in
        if (2 <=? count)%Z then
          (mkButton (buttonPressTime s) (buttonWasPressed s) 0 (lastQuickPress s),
           set_audioMuted (negb (audioMuted g)) g)
        else (s, g)
      else (s, g)
    else (s, g) in
  (* Single press action (after timeout) *)
  if (quickPressCount s =? 1)%Z
     && (500 <? usub (at_single r) (lastQuickPress s))%Z then
    let g := match currentState g with
             | STATE_SCAN => set_currentState STATE_MONITOR g
             | STATE_MONITOR => set_currentState STATE_SCAN g
             | _ => g
             end in
    (mkButton (buttonPressTime s) (buttonWasPressed s) 0 (lastQuickPress s), g)
  else (s, g).

(** [updateLEDs(direction, confidence)]: the static locals after the call and
    the pixels [ledRing.show()] sends to the ring. *)
Definition updateLEDs (direction confidence : F) (g : Globals F)
    (s : LedStatics) (ring : list Pixel) : LedStatics * list Pixel :=
  let ring := clear ring in
  match currentState g with
  | STATE_ALERT =>
      let ledIndex :=
        Z.rem (trunc_int ((direction + lit 22.5) / lit 45)) LED_COUNT in
      let intensity := trunc_int (confidence * of_int 255) in
      let ring := setPixelColor ledIndex (Color intensity 0 0) ring in
      let prev := Z.rem (ledIndex - 1 + LED_COUNT) LED_COUNT in
      let next := Z.rem (ledIndex + 1) LED_COUNT in
      let ring := setPixelColor prev (Color (Z.quot intensity 3) 0 0) ring in
      let ring := setPixelColor next (Color (Z.quot intensity 3) 0 0) ring in
      (s, ring)
  | STATE_SCAN =>
      let b := ((breathe s + breatheDir s * 2) mod 256)%Z in
      let d := if (30 <=? b)%Z || (b <=? 0)%Z
               then to_int8 (- breatheDir s) else breatheDir s in
      (mkLed b d,
       for_loop 0 LED_COUNT (fun i ring => setPixelColor i (Color 0 0 b) ring) ring)
  | _ => (s, ring)
  end.

End WithFloat.
End Panel.

(* ===================================================================== *)
(** * Specification vocabulary *)
(* ===================================================================== *)

(** The notions the theorems are stated with: what the loops of the source
    compute, in closed form, and the part of the globals each property is
    about. *)

Section AlertSessions.
Import Machine AlertManager.

(** A live session: what [triggerAlert] / [triggerHapticOnly] set up and every
    non-expiring [update()] keeps. *)
Definition session (haptic : bool) (d t0 onMs offMs : Z) (a : t) : Prop :=
  _alertActive a = true /\ _hapticOnly a = haptic /\
  _alertStartTime a = t0 /\ _alertDuration a = d /\
  _pulseOnTime a = onMs /\ _pulseOffTime a = offMs.

(** The audible session additionally keeps both outputs equal to the phase. *)
Definition outputs_follow_phase (a : t) (g : GPIO) : Prop :=
  g (_buzzerPin a) = _pulseState a /\ g (_vibrationPin a) = _pulseState a.

(** The expiry test of [update()], as a proposition. *)
Definition expired (d t0 now : Z) : Prop := 0 < d /\ to_ulong d <= usub now t0.

End AlertSessions.

Module MelSpectrogram.
Import AudioProcessor.

Section WithFloat.
Context {F : Type} {FO : FloatOps F} {LM : Libm F} {FFT : ArduinoFFT F}.
Local Open Scope fl_scope.

(** The Hann window of [fftSize] points. *)
Definition hann_window (fftSize : Z) : list F :=
  map (hann fftSize) (zrange 0 fftSize).

(** The frame of [numSamples] samples, multiplied by the window and padded
    with zeros to [fftSize] points. *)
Definition windowed_padded (window : list F) (fftSize : Z)
    (audioSamples : list F) (numSamples : Z) : list F :=
  map (fun i => if (i <? numSamples)%Z
                then aget audioSamples i * aget window i else lit 0)
      (zrange 0 fftSize).

(** The sum of the magnitudes weighted by band [m] of the filterbank, taken
    in increasing order of the bin. *)
Definition weighted_sum (filterbank : list F) (nBins : Z) (magnitude : list F)
    (m : Z) : F :=
  fold_left (fun sum k => sum + aget filterbank (m * nBins + k)%Z * aget magnitude k)
            (zrange 0 nBins) (lit 0).

(** [20 * log10(max(power, 1e-10))] *)
Definition to_dB (power : F) : F := lit 20 * flog10 (fmax power (lit 1e-10)).

(** Subtraction of the noise floor of a calibrated band, floored at zero; a
    band whose noise floor is zero is left as it is. *)
Definition subtract_noise (floor dB : F) : F :=
  if fneb floor (lit 0) then fmax (dB - floor) (lit 0) else dB.

(** Band [m] of the mel spectrogram of a frame. *)
Definition mel_band (fftSize : Z) (filterbank noiseFloor : list F)
    (audioSamples : list F) (numSamples : Z) (m : Z) : F :=
  let frame := windowed_padded (hann_window fftSize) fftSize audioSamples numSamples in
  let magnitude := fft_magnitude frame in
  let s := weighted_sum filterbank (numFftBins fftSize) magnitude m in
  subtract_noise (aget noiseFloor m) (to_dB s).

(** The three boundary bins of filter [m]. *)
Definition fStart_of (pts : list Z) (m : Z) : Z := nth (Z.to_nat m) pts 0%Z.
Definition fCenter_of (pts : list Z) (m : Z) : Z := nth (Z.to_nat (m + 1)) pts 0%Z.
Definition fEnd_of (pts : list Z) (m : Z) : Z := nth (Z.to_nat (m + 2)) pts 0%Z.

(** The weight of bin [k] in filter [m]: the rising slope on
    [fStart, fCenter), the falling slope on [fCenter, fEnd] unless that
    interval is a single point, and zero elsewhere. *)
Definition weight (pts : list Z) (m k : Z) : F :=
  let fStart := fStart_of pts m in
  let fCenter := fCenter_of pts m in
  let fEnd := fEnd_of pts m in
  if ((fStart <=? k) && (k <? fCenter))%Z then
    of_int (k - fStart)%Z / of_int (fCenter - fStart)%Z
  else if ((fCenter <=? k) && (k <=? fEnd) && negb (fEnd =? fCenter))%Z then
    of_int (fEnd - k)%Z / of_int (fEnd - fCenter)%Z
  else of_int 0.

(** Whether the slope loops of filter [m] store a weight at bin [k]. *)
Definition stored (pts : list Z) (m k : Z) : bool :=
  ((fStart_of pts m <=? k) && (k <? fCenter_of pts m)
   || (fCenter_of pts m <=? k) && (k <=? fEnd_of pts m)
      && negb (fEnd_of pts m =? fCenter_of pts m))%Z.

End WithFloat.
End MelSpectrogram.

Module RealFilterbank.
Import Real AudioProcessor MelSpectrogram.
Local Open Scope R_scope.

(** The mel point of index [i], as the first loop computes it. *)
Definition mel_point (sampleRate melBins i : Z) : R :=
  let melMin := hzToMel (lit 0) in
  let melMax := hzToMel (IZR sampleRate / Q2R 2) in
  melMin + (melMax - melMin) * IZR i / IZR (melBins + 1).

End RealFilterbank.

Module Direction.
Import DirectionEstimator.

Section WithFloat.
Context {F : Type} {FO : FloatOps F} {LM : Libm F}.
Local Open Scope fl_scope.

(** The mean of the four pairwise confidences of a frame. *)
Definition frame_confidence (d : DirectionEstimator.t F)
    (mic1 mic2 mic3 mic4 : list F) (numSamples : Z) : F :=
  mean_confidence (snd (crossCorrelate d mic1 mic2 numSamples))
                  (snd (crossCorrelate d mic1 mic4 numSamples))
                  (snd (crossCorrelate d mic3 mic2 numSamples))
                  (snd (crossCorrelate d mic3 mic4 numSamples)).

(** The azimuth of a frame, from its four lags. *)
Definition frame_azimuth (d : DirectionEstimator.t F)
    (mic1 mic2 mic3 mic4 : list F) (numSamples : Z) : F :=
  tdoaToAzimuth d (fst (crossCorrelate d mic1 mic2 numSamples))
                  (fst (crossCorrelate d mic1 mic4 numSamples))
                  (fst (crossCorrelate d mic3 mic2 numSamples))
                  (fst (crossCorrelate d mic3 mic4 numSamples)).

End WithFloat.

Section ExactSmoothing.
Import Real.
Local Open Scope R_scope.

(** The estimator as [setup()] configures it, and a silent frame. *)
Definition configured : DirectionEstimator.t R :=
  DirectionEstimator.begin (lit Config.MIC_SPACING_MM) (lit Config.SPEED_OF_SOUND)
    Config.SAMPLE_RATE DirectionEstimator.init.

Definition silence : list R := AudioProcessor.zeros Config.FFT_SIZE.

End ExactSmoothing.

Section Binary32Confidence.
Import Binary32.

(** The estimator as [setup()] configures it. *)
Definition configured32 : DirectionEstimator.t binary32 :=
  DirectionEstimator.begin (lit Config.MIC_SPACING_MM) (lit Config.SPEED_OF_SOUND)
    Config.SAMPLE_RATE DirectionEstimator.init.

(** Two frames of eight samples in opposite phase. *)
Definition plus_frame : list binary32 := repeat (lit 1) 8.
Definition minus_frame : list binary32 := repeat (lit (-1)) 8.

End Binary32Confidence.
End Direction.

Module RollingBuffer.
Import Machine Config Main.

Section WithFloat.
Context {F : Type} {FO : FloatOps F} {LM : Libm F} {FFT : ArduinoFFT F}.
Local Open Scope fl_scope.

(** The Feature Row [processAudio()] computes from the globals. *)
Definition mel_frame (g : Globals F) : list F :=
  AudioProcessor.computeMelSpectrogram (audioProcessor g)
    (mic0 (audioBuffer g)) FFT_SIZE (AudioProcessor.zeros MEL_BINS).

(** The remap of [runInference()] from dB to [0, 1]. *)
Definition normalize (val : F) : F :=
  fconstrain ((val + lit 80) / lit 80) (lit 0) (lit 1).

(** The tensor [runInference()] hands to the interpreter. *)
Definition inference_tensor (g : Globals F) : list F :=
  fill_input g (AudioProcessor.zeros (SPEC_TIME_FRAMES * MEL_BINS)).

(** [Fed g frames]: the globals [g] are reached from zeroed buffer and cursor
    by [processAudio()] calls that appended the rows [frames], in this order;
    between two calls anything but the buffer and the cursor may change. *)
Inductive Fed : Globals F -> list (list F) -> Prop :=
| Fed_start g :
    melSpectrogram g = AudioProcessor.zeros (MEL_BINS * SPEC_TIME_FRAMES) ->
    spectrogramIndex g = 0%Z ->
    Fed g []
| Fed_other g g' frames :
    Fed g frames ->
    melSpectrogram g' = melSpectrogram g ->
    spectrogramIndex g' = spectrogramIndex g ->
    Fed g' frames
| Fed_append g frames :
    Fed g frames ->
    Fed (processAudio g) (frames ++ [mel_frame g]).



End WithFloat.
End RollingBuffer.

Module Orchestrator.
Import Machine Config Main.

(** The globals the detection logic of [loop()] reads and writes. *)
Record View : Type := mkView {
  v_state : SystemState;
  v_count : Z;
  v_lastDetection : Z;
  v_lastAlert : Z;
  v_muted : bool;
  v_lastProcess : Z
}.

Definition v_button (b : ButtonAction) (v : View) : View :=
  match b with
  | NoAction => v
  | LongPress =>
      mkView STATE_CALIBRATE (v_count v) (v_lastDetection v) (v_lastAlert v)
             (v_muted v) (v_lastProcess v)
  | DoublePress =>
      mkView (v_state v) (v_count v) (v_lastDetection v) (v_lastAlert v)
             (negb (v_muted v)) (v_lastProcess v)
  | SinglePress =>
      match v_state v with
      | STATE_SCAN =>
          mkView STATE_MONITOR (v_count v) (v_lastDetection v) (v_lastAlert v)
                 (v_muted v) (v_lastProcess v)
      | STATE_MONITOR =>
          mkView STATE_SCAN (v_count v) (v_lastDetection v) (v_lastAlert v)
                 (v_muted v) (v_lastProcess v)
      | _ => v
      end
  end.

(** The decay's fall back from ALERT to SCAN. *)
Definition leave_alert (s : SystemState) : SystemState :=
  match s with STATE_ALERT => STATE_SCAN | _ => s end.

(** The processed cycle of SCAN / ALERT on the view: [now] is the clock
    reading, [q] whether the confidence reached the threshold. *)
Definition v_cycle (now : Z) (q : bool) (v : View) : View * Events :=
  let st := v_state v in
  let muted := v_muted v in
  let count := if q then to_int (v_count v + 1) else v_count v in
  let lastDet := if q then now else v_lastDetection v in
  let fire := (MIN_DETECTIONS_FOR_ALERT <=? count)
              && (ALERT_HOLDOFF_MS <=? usub now (v_lastAlert v)) in
  let st := if fire then STATE_ALERT else st in
  let lastAlert := if fire then now else v_lastAlert v in
  let alert := if fire then Some (if muted then HapticOnly else Audible) else None in
  let dec := DETECTION_WINDOW_MS <? usub now lastDet in
  let count := if dec then 0 else count in
  let st := if dec then leave_alert st else st in
  (mkView st count lastDet lastAlert muted now, mkEvents true q alert dec).

(** One iteration of [loop()] on the view; [low] is the outcome of the
    battery test. *)
Definition v_loop (T : Z) (b : ButtonAction) (low q : bool) (v : View)
    : View * Events :=
  let now := millis T in
  let v := v_button b v in
  let v := if low
           then mkView STATE_LOW_BATTERY (v_count v) (v_lastDetection v)
                       (v_lastAlert v) (v_muted v) (v_lastProcess v)
           else v in
  match v_state v with
  | STATE_SCAN | STATE_ALERT =>
      if HOP_MS <=? usub now (v_lastProcess v) then v_cycle now q v
      else (v, no_events)
  | STATE_MONITOR =>
      (if HOP_MS <=? usub now (v_lastProcess v)
       then mkView (v_state v) (v_count v) (v_lastDetection v) (v_lastAlert v)
                   (v_muted v) now
       else v, no_events)
  | STATE_CALIBRATE =>
      (mkView STATE_SCAN (v_count v) (v_lastDetection v) (v_lastAlert v)
              (v_muted v) (v_lastProcess v), no_events)
  | _ => (v, no_events)
  end.

(** What one iteration contributes to the view: its true time, the button
    action, and the outcomes of the battery and confidence tests. *)
Record Step : Type := mkStep {
  s_time : Z; s_button : ButtonAction; s_low : bool; s_qualifies : bool
}.

Fixpoint v_run (v : View) (steps : list Step) : View * list (Z * Events) :=
  match steps with
  | [] => (v, [])
  | s :: steps' =>
      let '(v1, ev) := v_loop (s_time s) (s_button s) (s_low s) (s_qualifies s) v in
      let '(v2, evs) := v_run v1 steps' in
      (v2, (s_time s, ev) :: evs)
  end.

(** The true times at which a run triggered an alert. *)
Definition alert_times (evs : list (Z * Events)) : list Z :=
  map fst (filter (fun te => match ev_alert (snd te) with
                             | Some _ => true | None => false end) evs).

(** Consecutive elements of [ts] are at least [d] apart. *)
Fixpoint spaced (d : Z) (ts : list Z) : Prop :=
  match ts with
  | t0 :: (t1 :: _) as rest => d <= t1 - t0 /\ spaced d rest
  | _ => True
  end.

(** The iterations of a run are in time order. *)
Definition time_ordered (ts : list Z) : Prop := StronglySorted Z.le ts.

Section WithFloat.
Context {F : Type} {FO : FloatOps F} {LM : Libm F} {FFT : ArduinoFFT F}.
Local Open Scope fl_scope.

Definition view (g : Globals F) : View :=
  mkView (currentState g) (detectionCount g) (lastDetectionTime g)
         (lastAlertTime g) (audioMuted g) (lastProcessTime g).

(** The outcome of the battery test of an iteration. *)
Definition battery_low (inp : LoopInput F) : bool :=
  readBatteryVoltage (in_adc inp) <? lit BATTERY_CRITICAL_VOLTAGE.

(** The globals of a processed cycle at the point where the confidence is
    compared with the threshold, and the outcome of that comparison. *)
Definition at_confidence_test (g : Globals F) (inp : LoopInput F) : Globals F :=
  let g := handleButton (in_button inp) g in
  let g := if battery_low inp then set_currentState STATE_LOW_BATTERY g else g in
  let g := set_lastProcessTime (millis (in_time inp)) g in
  let g := readAudioSamples (in_i2s inp) g in
  let g := processAudio g in
  set_currentConfidence (runInference (in_invoke inp) g) g.

Definition qualifies (g : Globals F) (inp : LoopInput F) : bool :=
  fgeb (currentConfidence (at_confidence_test g inp)) (lit CONFIDENCE_THRESHOLD).

(** The globals of a processed cycle when the confidence is tested. *)
Definition confidence_point (now : Z) (inp : LoopInput F) (g : Globals F) : Globals F :=
  let g := set_lastProcessTime now g in
  let g := readAudioSamples (in_i2s inp) g in
  let g := processAudio g in
  set_currentConfidence (runInference (in_invoke inp) g) g.

(** The steps a run of [loop()] takes on the view. *)
Fixpoint steps_of (g : Globals F) (ins : list (LoopInput F)) : list Step :=
  match ins with
  | [] => []
  | inp :: ins' =>
      mkStep (in_time inp) (in_button inp) (battery_low inp) (qualifies g inp)
        :: steps_of (fst (loop g inp)) ins'
  end.

End WithFloat.

(** The number of qualifying cycles since the count was last reset, along
    the events of a run, starting from [n]. *)
Definition count_events (n : nat) (evs : list (Z * Events)) : nat :=
  fold_left (fun n te => if ev_decayed (snd te) then O
                         else if ev_qualifying (snd te) then S n else n) evs n.

Definition qualifying_since_reset (evs : list (Z * Events)) : nat :=
  count_events O evs.

End Orchestrator.

Module Scenario.
Import Machine Config Main Orchestrator Real.

Section WithFloat.
Context {F : Type} {FO : FloatOps F} {LM : Libm F} {FFT : ArduinoFFT F}.

(** [kept g g']: from [g] to [g'] the model flag, the rolling buffer and its
    write cursor did not change. *)
Definition kept (g g' : Globals F) : Prop :=
  modelLoaded g' = modelLoaded g /\
  melSpectrogram g' = melSpectrogram g /\
  spectrogramIndex g' = spectrogramIndex g.

(** What an iteration does to the rolling buffer: nothing, or one
    [processAudio()] call. *)
Definition at_most_one_frame (g g' : Globals F) : Prop :=
  kept g g' \/ exists g3, kept g g3 /\ kept (processAudio g3) g'.

End WithFloat.

Local Open Scope R_scope.

(** One iteration at true time [T]: no button action, a charged battery, a
    frame of silence, and an interpreter that scores the target class 0.9
    ([hit]) or 0.1. *)
Definition cycle_input (Th : Z * bool) : LoopInput R :=
  mkInput (fst Th) NoAction 4095 (Some (8192%Z, repeat 0%Z 2048))
          (fun _ => Some [0.5; if snd Th then 0.9 else 0.1]) []
          (fst Th) (fst Th) (fst Th).

Definition step_of (Th : Z * bool) : Step := mkStep (fst Th) NoAction false (snd Th).

(** Cycles every 100 ms from 1000 ms to 8800 ms; the interpreter scores the
    target class 0.9 at 1000, 4900 and 8800 ms, and 0.1 otherwise. *)
Definition sparse_hits : list (Z * bool) :=
  map (fun k => let T := (1000 + 100 * Z.of_nat k)%Z in
                (T, (T =? 1000) || (T =? 4900) || (T =? 8800))%Z)
      (seq 0 79).

(** The true times of the qualifying cycles of a run. *)
Definition qualifying_times (evs : list (Z * Events)) : list Z :=
  map fst (filter (fun te => ev_qualifying (snd te)) evs).

(** The largest number of the times [ts] that fall in one window
    [t, t + W] starting at one of them. *)
Definition most_in_window (W : Z) (ts : list Z) : nat :=
  fold_right Nat.max O
    (map (fun t => length (filter (fun u => (t <=? u) && (u <=? t + W))%Z ts)) ts).

(** One iteration at true time [T] with a long press: [loop()] runs the
    calibration, here 3000 reads of silence, and reaches [update()] 32 s
    later. *)
Definition calibrate_input (T : Z) : LoopInput R :=
  mkInput T LongPress 4095 None (fun _ => Some [0.5; 0.1])
          (repeat (Some (8192%Z, repeat 0%Z 2048)) 3000) T T (T + 32000).

(** Qualifying cycles at 5000 and 5100 ms, a long press at 5200 ms, and the
    next cycle, qualifying, once the calibration has returned, at 37200 ms. *)
Definition across_calibration : list (LoopInput R) :=
  [cycle_input (5000, true); cycle_input (5100, true); calibrate_input 5200;
   cycle_input (37200, true)]%Z.

(** Cycles every 500 ms from 0 to 4500 ms, all scoring 0.9. *)
Definition steady_hits : list (Z * bool) :=
  map (fun k => ((500 * Z.of_nat k)%Z, true)) (seq 0 10).

End Scenario.

Section AlertOutputs.
Import Machine AlertManager.

(** The vibration output is HIGH exactly in the on phase. *)
Definition vibration_follows_phase (a : t) (g : GPIO) : Prop :=
  g (_vibrationPin a) = _pulseState a.

(** In a haptic-only session the buzzer output is LOW. *)
Definition silent (a : t) (g : GPIO) : Prop :=
  _hapticOnly a = true /\ g (_buzzerPin a) = LOW.

(** The pins a manager drives are the ones [begin] was given. *)
Definition pins (b v : Z) (a : t) : Prop := _buzzerPin a = b /\ _vibrationPin a = v.

(** Where the sounds of a pattern come from: its elements, two by two. *)
Fixpoint sounds_of (pattern : list Z) : list Sound :=
  match pattern with
  | freq :: dur :: rest =>
      (if 0 <? freq then Tone freq (to_ulong dur) else Pause (to_ulong dur))
        :: sounds_of rest
  | _ => []
  end.

(** Whether a tone is among the sounds. *)
Definition is_tone (s : Sound) : bool :=
  match s with Tone _ _ => true | Pause _ => false end.

(** The time the player blocks for the sounds. *)
Definition total_ms (l : list Sound) : Z := fold_right (fun s acc => sound_ms s + acc) 0 l.

(** The loop of [playPattern] over its first [n] pairs. *)
Definition play_pairs (pattern : list Z) (n : nat) (a : t) (s : list Sound * GPIO)
    : option (list Sound * GPIO) :=
  fold_left
    (fun o k =>
       match o with
       | None => None
       | Some s =>
           let i := 2 * k in
           match nth_error pattern (Z.to_nat i),
                 nth_error pattern (Z.to_nat (i + 1)) with
           | Some freq, Some dur =>
               if 0 <? freq then Some (playTone freq dur a s)
               else Some (fst s ++ [Pause (to_ulong dur)], snd s)
           | _, _ => None
           end
       end)
    (map (fun i => 0 + Z.of_nat i) (seq 0 n)) (Some s).

End AlertOutputs.

Module Correlation.
Import DirectionEstimator Direction.

Section Exact.
Import Real.
Local Open Scope R_scope.

(** The sum of the squares of the samples at the indices [l]. *)
Fixpoint sum_sq (x : list R) (l : list Z) : R :=
  match l with
  | [] => 0
  | i :: l' => aget x i * aget x i + sum_sq x l'
  end.

(** The energy of a signal over the samples the correlation runs over. *)
Definition window_energy (x : list R) (numSamples maxLag : Z) : R :=
  sum_sq x (zrange maxLag (numSamples - maxLag)).

End Exact.
End Correlation.

Module Operation.
Import Machine Config Main Orchestrator Scenario.

(** The true times at which a run processed a frame in SCAN or ALERT. *)
Definition processed_times (evs : list (Z * Events)) : list Z :=
  map fst (filter (fun te => ev_processed (snd te)) evs).

(** An iteration that detects nothing and starts no alert. *)
Definition quiet (ev : Events) : Prop :=
  ev_qualifying ev = false /\ ev_alert ev = None.

Section Exact.
Import Real.
Local Open Scope R_scope.

(** An iteration at true time [T] whose battery reads 0 V. *)
Definition flat_battery (T : Z) : LoopInput R :=
  mkInput T NoAction 0 None (fun _ => None) [] T T T.

(** The state after the first four cycles of [steady_hits] (0 to 1500 ms). *)
Definition warmed_up (g0 : Globals R) : Globals R :=
  fst (run g0 (map cycle_input (firstn 4 steady_hits))).

End Exact.
End Operation.

Module Acquisition.
Import Machine Config Main Orchestrator Scenario.

Section WithFloat.
Context {F : Type} {FO : FloatOps F} {LM : Libm F} {FFT : ArduinoFFT F}.
Local Open Scope fl_scope.

(** The float a raw I2S word is converted to. *)
Definition sample_of (raw : Z) : F := of_int (Z.shiftr raw 8) / lit 8388608.

(** The buffers all have FFT_SIZE elements, as they are declared. *)
Definition sized (b : AudioBuffer F) : Prop :=
  length (mic0 b) = Z.to_nat FFT_SIZE /\ length (mic1 b) = Z.to_nat FFT_SIZE /\
  length (mic2 b) = Z.to_nat FFT_SIZE /\ length (mic3 b) = Z.to_nat FFT_SIZE.

(** The Feature Rows a calibration run computes, one per read. *)
Fixpoint calibration_frames (reads : list (option (Z * list Z))) (g : Globals F)
    : list (list F) :=
  match reads with
  | [] => []
  | r :: reads' =>
      let g1 := readAudioSamples r g in
      RollingBuffer.mel_frame g1 :: calibration_frames reads' g1
  end.

End WithFloat.

Section Binary32Battery.
Import Binary32.

(** The battery test of [loop()] on single precision. *)
Definition low32 (adcValue : Z) : bool :=
  fltb (readBatteryVoltage (F:=binary32) adcValue) (lit BATTERY_CRITICAL_VOLTAGE).

End Binary32Battery.

Section Exact.
Import Real Direction.
Local Open Scope R_scope.

(** The sum over the frames of their band [i]. *)
Definition band_sum (frames : list (list R)) (i : Z) : R :=
  fold_right (fun f acc => aget f i + acc) 0 frames.

(** The running average after the frames [fs]: the noise floor times their
    number is their sum, band by band. *)
Definition averaged (fs : list (list R)) (s : Globals R * (list R * Z)) : Prop :=
  let '(_, (noiseFloor, sampleCount)) := s in
  sampleCount = Z.of_nat (length fs) /\
  length noiseFloor = Z.to_nat MEL_BINS /\
  forall i, (0 <= i < MEL_BINS)%Z ->
    aget noiseFloor i * IZR sampleCount = band_sum fs i.

End Exact.
End Acquisition.

Module Controls.
Import Machine Config Main.

(** The breathing level is an even number of 0 .. 30 that moves away from
    the end it last touched. *)
Definition steady (s : Panel.LedStatics) : Prop :=
  0 <= Panel.breathe s <= 30 /\ Z.even (Panel.breathe s) = true /\
  ((Panel.breatheDir s = 1 /\ Panel.breathe s < 30) \/
   (Panel.breatheDir s = -1 /\ 0 < Panel.breathe s)).

Section WithFloat.
Context {F : Type} {FO : FloatOps F} {LM : Libm F} {FFT : ArduinoFFT F}.
Local Open Scope fl_scope.

(** Successive calls of [updateLEDs()]: the static locals at the end, and
    for each call the state it ran in and the pixels it showed. *)
Fixpoint led_run (calls : list (F * F * Globals F)) (s : Panel.LedStatics)
    (ring : list Panel.Pixel) : Panel.LedStatics * list (SystemState * list Panel.Pixel) :=
  match calls with
  | [] => (s, [])
  | (direction, confidence, g) :: calls' =>
      let '(s1, ring1) := Panel.updateLEDs direction confidence g s ring in
      let '(s2, shown) := led_run calls' s1 ring1 in
      (s2, (currentState g, ring1) :: shown)
  end.

End WithFloat.

Section Exact.
Import Real.
Local Open Scope R_scope.

(** The expressions [ledIndex] and [intensity] of [updateLEDs()]. *)
Definition ledIndex_of (direction : R) : Z :=
  Z.rem (trunc_int ((direction + lit 22.5) / lit 45)%fl) LED_COUNT.

Definition intensity_of (confidence : R) : Z :=
  trunc_int (confidence * of_int 255)%fl.

End Exact.
End Controls.

(* ===================================================================== *)
(** * Theorems *)
(* ===================================================================== *)

(* ===================================================================== *)
(** * Loops and arrays *)
(* ===================================================================== *)

Section Loops.

Lemma zrange_nil lo hi : hi <= lo -> zrange lo hi = [].
Proof.
  intros H. unfold zrange. replace (Z.to_nat (hi - lo)) with O by lia. reflexivity.
Qed.

Lemma zrange_cons lo hi : lo < hi -> zrange lo hi = lo :: zrange (lo + 1) hi.
Proof.
  intros H. unfold zrange.
  replace (Z.to_nat (hi - lo)) with (S (Z.to_nat (hi - (lo + 1)))) by lia.
  cbn [seq map]. f_equal; [lia|].
  rewrite <- seq_shift, map_map. apply map_ext. intros i. lia.
Qed.

Lemma zrange_snoc lo hi : lo <= hi -> zrange lo (hi + 1) = zrange lo hi ++ [hi].
Proof.
  intros H. unfold zrange.
  replace (Z.to_nat (hi + 1 - lo)) with (Z.to_nat (hi - lo) + 1)%nat by lia.
  rewrite seq_app, map_app. cbn. do 2 f_equal. lia.
Qed.

Lemma zrange_length lo hi : length (zrange lo hi) = Z.to_nat (hi - lo).
Proof. unfold zrange. now rewrite length_map, length_seq. Qed.

Lemma zrange_In lo hi k : In k (zrange lo hi) <-> lo <= k < hi.
Proof.
  unfold zrange. rewrite in_map_iff. split.
  - intros (i & <- & Hi). apply in_seq in Hi. lia.
  - intros H. exists (Z.to_nat (k - lo)). split; [lia|]. apply in_seq. lia.
Qed.

Lemma for_loop_nil {S : Type} lo hi (body : Z -> S -> S) s :
  hi <= lo -> for_loop lo hi body s = s.
Proof. intros H. unfold for_loop. now rewrite zrange_nil. Qed.

Lemma for_loop_cons {S : Type} lo hi (body : Z -> S -> S) s :
  lo < hi -> for_loop lo hi body s = for_loop (lo + 1) hi body (body lo s).
Proof. intros H. unfold for_loop. now rewrite zrange_cons. Qed.

Lemma for_loop_snoc {S : Type} lo hi (body : Z -> S -> S) s :
  lo <= hi -> for_loop lo (hi + 1) body s = body hi (for_loop lo hi body s).
Proof.
  intros H. unfold for_loop. rewrite zrange_snoc by assumption.
  now rewrite fold_left_app.
Qed.

(** The invariant rule of [for]. *)
Lemma for_loop_inv {S : Type} (P : Z -> S -> Prop) lo hi (body : Z -> S -> S) s :
  lo <= hi -> P lo s ->
  (forall k s, lo <= k < hi -> P k s -> P (k + 1) (body k s)) ->
  P hi (for_loop lo hi body s).
Proof.
  intros Hle H0 Hstep.
  assert (H : forall n lo s, Z.of_nat n = hi - lo -> P lo s ->
                (forall k s, lo <= k < hi -> P k s -> P (k + 1) (body k s)) ->
                P hi (for_loop lo hi body s)).
  { clear. induction n as [|n IH]; intros lo s Hn H0 Hstep.
    - rewrite for_loop_nil by lia. replace hi with lo by lia. exact H0.
    - rewrite for_loop_cons by lia. apply IH; [lia| |].
      + apply Hstep; [lia|exact H0].
      + intros k s' Hk. apply Hstep. lia. }
  apply (H (Z.to_nat (hi - lo))); [lia|assumption|assumption].
Qed.

Lemma for_loop_ext {S : Type} lo hi (body body' : Z -> S -> S) s :
  (forall k s, lo <= k < hi -> body k s = body' k s) ->
  for_loop lo hi body s = for_loop lo hi body' s.
Proof.
  intros H. unfold for_loop.
  assert (HI : forall k, In k (zrange lo hi) -> lo <= k < hi) by (intros k; apply zrange_In).
  revert s HI. induction (zrange lo hi) as [|k l IH]; intros s HI; [reflexivity|].
  cbn. rewrite H by (apply HI; now left). apply IH. intros k' Hk'. apply HI. now right.
Qed.

(** The invariant rule of a [for] whose body may fail: if no iteration fails
    on a state that satisfies the invariant, the loop does not fail. *)
Lemma for_loop_opt_inv {S : Type} (P : Z -> S -> Prop) lo hi (body : Z -> S -> option S) s :
  lo <= hi -> P lo s ->
  (forall k s, lo <= k < hi -> P k s -> exists s', body k s = Some s' /\ P (k + 1) s') ->
  exists s', for_loop_opt lo hi body s = Some s' /\ P hi s'.
Proof.
  intros Hle H0 Hstep. unfold for_loop_opt.
  apply (for_loop_inv
           (fun k o => exists s', o = Some s' /\ P k s') lo hi); [assumption| |].
  - exists s. split; [reflexivity|assumption].
  - intros k o Hk (s' & -> & Hs'). apply Hstep; assumption.
Qed.

Lemma for_loop_opt_nil {S : Type} lo hi (body : Z -> S -> option S) s :
  hi <= lo -> for_loop_opt lo hi body s = Some s.
Proof. intros H. unfold for_loop_opt. now rewrite for_loop_nil. Qed.

End Loops.

Section Arrays.
Context {F : Type} {FO : FloatOps F}.

Lemma length_list_set n (v : F) a : length (list_set n v a) = length a.
Proof.
  revert n. induction a as [|x a IH]; intros [|n]; cbn; auto.
Qed.

Lemma nth_list_set_same n (v : F) a d :
  (n < length a)%nat -> nth n (list_set n v a) d = v.
Proof.
  revert n. induction a as [|x a IH]; intros [|n] H; cbn in *; try lia; auto.
  apply IH. lia.
Qed.

Lemma nth_list_set_other n m (v : F) a d :
  n <> m -> nth m (list_set n v a) d = nth m a d.
Proof.
  revert n m. induction a as [|x a IH]; intros [|n] [|m] H; cbn; auto; try congruence.
Qed.

Lemma length_aset (a : list F) i v : length (aset a i v) = length a.
Proof. unfold aset. destruct (i <? 0); [reflexivity|apply length_list_set]. Qed.

Lemma aget_aset_same (a : list F) i v :
  0 <= i < Z.of_nat (length a) -> aget (aset a i v) i = v.
Proof.
  intros H. unfold aget, aset.
  destruct (i <? 0) eqn:E; [apply Z.ltb_lt in E; lia|].
  apply nth_list_set_same. lia.
Qed.

Lemma aget_aset_other (a : list F) i j v :
  i <> j -> aget (aset a i v) j = aget a j.
Proof.
  intros H. unfold aget, aset.
  destruct (j <? 0) eqn:Ej; [reflexivity|].
  destruct (i <? 0) eqn:Ei; [reflexivity|].
  apply Z.ltb_ge in Ei, Ej. apply nth_list_set_other. lia.
Qed.

Lemma aget_aset (a : list F) i j v :
  0 <= i < Z.of_nat (length a) ->
  aget (aset a i v) j = if j =? i then v else aget a j.
Proof.
  intros H. destruct (j =? i) eqn:E.
  - apply Z.eqb_eq in E. subst. now apply aget_aset_same.
  - apply Z.eqb_neq in E. apply aget_aset_other. congruence.
Qed.

Lemma aget_repeat (x : F) n i :
  0 <= i < Z.of_nat n -> aget (repeat x n) i = x.
Proof.
  intros H. unfold aget. destruct (i <? 0) eqn:E; [apply Z.ltb_lt in E; lia|].
  apply nth_repeat_lt. lia.
Qed.

Lemma aget_zeros n i : aget (AudioProcessor.zeros n) i = of_int 0.
Proof.
  unfold AudioProcessor.zeros, aget. destruct (i <? 0); [reflexivity|].
  destruct (Nat.lt_ge_cases (Z.to_nat i) (Z.to_nat n)).
  - now apply nth_repeat_lt.
  - apply nth_overflow. now rewrite repeat_length.
Qed.

Lemma length_zeros n : length (AudioProcessor.zeros (F:=F) n) = Z.to_nat n.
Proof. apply repeat_length. Qed.

(** An array is determined by its length and its elements. *)
Lemma array_ext (a b : list F) :
  length a = length b ->
  (forall i, 0 <= i < Z.of_nat (length a) -> aget a i = aget b i) ->
  a = b.
Proof.
  intros Hl H. apply nth_ext with (d := of_int 0) (d' := of_int 0); [assumption|].
  intros n Hn. specialize (H (Z.of_nat n)).
  unfold aget in H. destruct (Z.of_nat n <? 0) eqn:E; [apply Z.ltb_lt in E; lia|].
  rewrite Nat2Z.id in H. apply H. lia.
Qed.

(** A loop that stores [f i] at each index [i] of [lo..hi-1]. *)
Lemma fill_loop (f : Z -> list F -> F) lo hi (a : list F) :
  0 <= lo -> lo <= hi -> hi <= Z.of_nat (length a) ->
  (forall i a a', lo <= i < hi ->
     length a = length a' ->
     (forall j, i <= j -> aget a j = aget a' j) -> f i a = f i a') ->
  let r := for_loop lo hi (fun i a => aset a i (f i a)) a in
  length r = length a /\
  forall j, aget r j = if (lo <=? j) && (j <? hi) then f j a else aget a j.
Proof.
  intros Hlo Hle Hhi Hf. cbn zeta.
  apply (for_loop_inv
           (fun k r => length r = length a /\
                       (forall j, aget r j =
                                  if (lo <=? j) && (j <? k) then f j a else aget a j))
           lo hi); [assumption| |].
  - split; [reflexivity|]. intros j.
    destruct (lo <=? j) eqn:E1, (j <? lo) eqn:E2; cbn; try reflexivity.
    apply Z.leb_le in E1. apply Z.ltb_lt in E2. lia.
  - intros k r Hk (Hl & Hr). split; [now rewrite length_aset|].
    intros j. rewrite aget_aset by lia.
    destruct (j =? k) eqn:E.
    + apply Z.eqb_eq in E. subst j.
      replace ((lo <=? k) && (k <? k + 1)) with true
        by (symmetry; apply andb_true_iff; split; [apply Z.leb_le|apply Z.ltb_lt]; lia).
      apply Hf; [lia|assumption|].
      intros j Hj. rewrite Hr.
      replace ((lo <=? j) && (j <? k)) with false; [reflexivity|].
      symmetry. apply andb_false_iff. right. apply Z.ltb_ge. lia.
    + apply Z.eqb_neq in E. rewrite Hr.
      replace (j <? k + 1) with (j <? k); [reflexivity|].
      destruct (j <? k) eqn:E1; symmetry;
        [apply Z.ltb_lt in E1; apply Z.ltb_lt|apply Z.ltb_ge in E1; apply Z.ltb_ge]; lia.
Qed.

(** [memcpy] replaces the [n] elements from [off] by the first [n] of [src]. *)
Lemma memcpy_spec (dst src : list F) off n :
  0 <= off -> 0 <= n -> off + n <= Z.of_nat (length dst) ->
  length (memcpy dst off src n) = length dst /\
  forall j, aget (memcpy dst off src n) j =
            if (off <=? j) && (j <? off + n) then aget src (j - off) else aget dst j.
Proof.
  intros Hoff Hn Hlen. unfold memcpy.
  apply (for_loop_inv
           (fun k r => length r = length dst /\
                       (forall j, aget r j =
                                  if (off <=? j) && (j <? off + k)
                                  then aget src (j - off) else aget dst j))
           0 n); [assumption| |].
  - split; [reflexivity|]. intros j.
    destruct (off <=? j) eqn:E1, (j <? off + 0) eqn:E2; cbn; try reflexivity.
    apply Z.leb_le in E1. apply Z.ltb_lt in E2. lia.
  - intros k r Hk (Hl & Hr). split; [now rewrite length_aset|].
    intros j. rewrite aget_aset by lia.
    destruct (j =? off + k) eqn:E.
    + apply Z.eqb_eq in E. subst j.
      replace ((off <=? off + k) && (off + k <? off + (k + 1))) with true
        by (symmetry; apply andb_true_iff; split; [apply Z.leb_le|apply Z.ltb_lt]; lia).
      f_equal. lia.
    + apply Z.eqb_neq in E. rewrite Hr.
      replace (j <? off + (k + 1)) with (j <? off + k); [reflexivity|].
      destruct (j <? off + k) eqn:E1; symmetry;
        [apply Z.ltb_lt in E1; apply Z.ltb_lt|apply Z.ltb_ge in E1; apply Z.ltb_ge]; lia.
Qed.

End Arrays.

(* ===================================================================== *)
(** * Alert Actuator: sessions of the pulse player *)
(* ===================================================================== *)

Section AlertSessions.
Import Machine AlertManager.

Lemma digitalWrite_same pin v g : digitalWrite pin v g pin = v.
Proof. unfold digitalWrite. now rewrite Z.eqb_refl. Qed.

Lemma digitalWrite_twice p q v g : digitalWrite q v (digitalWrite p v g) p = v.
Proof.
  unfold digitalWrite. destruct (p =? q); [reflexivity|]. now rewrite Z.eqb_refl.
Qed.

Lemma usub_range a b : 0 <= usub a b < ULONG_MOD.
Proof. unfold usub, ULONG_MOD. apply Z.mod_pos_bound. reflexivity. Qed.

Lemma triggerAlert_session d t0 t0' a g :
  session false d t0 100 50 (fst (triggerAlert d t0 t0' a g)) /\
  outputs_follow_phase (fst (triggerAlert d t0 t0' a g)) (snd (triggerAlert d t0 t0' a g)).
Proof.
  unfold session, outputs_follow_phase, triggerAlert; cbn.
  repeat split; auto using digitalWrite_same, digitalWrite_twice.
Qed.

Lemma triggerHapticOnly_session d t0 t0' a g :
  session true d t0 150 100 (fst (triggerHapticOnly d t0 t0' a g)).
Proof. unfold session, triggerHapticOnly; cbn. repeat split. Qed.

Lemma stopAlert_off a g :
  _alertActive (fst (stopAlert a g)) = false /\
  snd (stopAlert a g) (_buzzerPin (fst (stopAlert a g))) = LOW /\
  snd (stopAlert a g) (_vibrationPin (fst (stopAlert a g))) = LOW.
Proof.
  unfold stopAlert; cbn. repeat split; auto using digitalWrite_same, digitalWrite_twice.
Qed.

Lemma expiry_test d t0 now :
  ((0 <? d) && (to_ulong d <=? usub now t0) = true <-> expired d t0 now).
Proof.
  unfold expired. rewrite andb_true_iff, Z.ltb_lt, Z.leb_le. tauto.
Qed.

(** One [update()] of a live session that has not expired. *)
Lemma update_live haptic d t0 onMs offMs now a g :
  0 <= onMs < ULONG_MOD -> 0 <= offMs < ULONG_MOD ->
  session haptic d t0 onMs offMs a -> ~ expired d t0 now ->
  session haptic d t0 onMs offMs (fst (update now a g)) /\
  _pulseState (fst (update now a g)) = cadence_phase onMs offMs now a /\
  (_pulseState (fst (update now a g)) <> _pulseState a ->
   _lastPulseTime (fst (update now a g)) = now) /\
  (haptic = false -> outputs_follow_phase a g ->
   outputs_follow_phase (fst (update now a g)) (snd (update now a g))).
Proof.
  intros Hon Hoff (Hact & Hh & Hst & Hd & Hpon & Hpoff) Hne.
  unfold update, cadence_phase. rewrite Hact; cbn [negb].
  rewrite Hst, Hd, Hpon, Hpoff.
  destruct ((0 <? d) && (to_ulong d <=? usub now t0)) eqn:E.
  { apply expiry_test in E. contradiction. }
  assert (Hu : to_ulong (if _pulseState a then onMs else offMs)
               = (if _pulseState a then onMs else offMs)).
  { unfold to_ulong. destruct (_pulseState a); apply Z.mod_small; assumption. }
  rewrite Hu.
  destruct ((if _pulseState a then onMs else offMs) <=? usub now (_lastPulseTime a)) eqn:Edue.
  - destruct (_pulseState a) eqn:Ep; cbn;
      unfold session, outputs_follow_phase; cbn; rewrite ?Ep;
      repeat split; auto; intros; subst; cbn;
      try match goal with H : _hapticOnly _ = false |- _ => rewrite H; cbn end;
      auto using digitalWrite_same, digitalWrite_twice.
  - cbn. unfold session. repeat split; auto; try tauto;
      match goal with H : outputs_follow_phase _ _ |- _ => apply H end.
Qed.

(** One [update()] of a live session whose duration has elapsed. *)
Lemma update_expired haptic d t0 onMs offMs now a g :
  session haptic d t0 onMs offMs a -> expired d t0 now ->
  update now a g = stopAlert a g.
Proof.
  intros (Hact & Hh & Hst & Hd & Hpon & Hpoff) He.
  unfold update. rewrite Hact; cbn [negb]. rewrite Hst, Hd.
  apply expiry_test in He. now rewrite He.
Qed.

(** Any run of non-expiring [update()] calls keeps the session live. *)
Lemma updates_live haptic d t0 onMs offMs nows :
  0 <= onMs < ULONG_MOD -> 0 <= offMs < ULONG_MOD ->
  Forall (fun now => ~ expired d t0 now) nows ->
  forall s, session haptic d t0 onMs offMs (fst s) ->
  session haptic d t0 onMs offMs (fst (updates nows s)) /\
  (haptic = false -> outputs_follow_phase (fst s) (snd s) ->
   outputs_follow_phase (fst (updates nows s)) (snd (updates nows s))).
Proof.
  intros Hon Hoff HF. induction HF as [|now nows Hn _ IH]; intros s Hs.
  - cbn. auto.
  - cbn [updates fold_left].
    destruct (update_live haptic d t0 onMs offMs now (fst s) (snd s) Hon Hoff Hs Hn)
      as (Hs' & _ & _ & Ho').
    specialize (IH _ Hs'). destruct IH as (IH1 & IH2).
    split; [exact IH1|]. intros Hh Ho. apply IH2; auto.
Qed.

Lemma not_expired_lt d t0 now : usub now t0 < to_ulong d -> ~ expired d t0 now.
Proof. unfold expired. lia. Qed.

Lemma not_expired_nonpos d t0 now : d <= 0 -> ~ expired d t0 now.
Proof. unfold expired. lia. Qed.

(** C9. After [triggerAlert(500)] stamped at clock reading [t0], let any run of
    [update()] calls be made at readings [nows], all less than 500 ms after
    [t0] (elapsed time as the firmware measures it, by unsigned subtraction of
    [millis()] values).  Then the session is still active; a further
    [update()] less than 500 ms after [t0] keeps it active, leaves the phase
    the on=100 ms / off=50 ms cadence prescribes, stamps the transition time
    when the phase flips and keeps both outputs equal to the phase; and an
    [update()] at 500 ms or more after [t0] (the first such one, since the
    earlier ones were all before) drives both outputs LOW and clears the
    active flag. *)
Theorem alert_session_500ms :
  forall (a : AlertManager.t) (g : GPIO) (t0 t0' : Z) (nows : list Z) (now : Z),
    Forall (fun t => usub t t0 < 500) nows ->
    let s := updates nows (triggerAlert 500 t0 t0' a g) in
    let s' := update now (fst s) (snd s) in
    _alertActive (fst s) = true /\
    _pulseOnTime (fst s) = 100 /\ _pulseOffTime (fst s) = 50 /\
    (usub now t0 < 500 ->
       _alertActive (fst s') = true /\
       _pulseState (fst s') = cadence_phase 100 50 now (fst s) /\
       (_pulseState (fst s') <> _pulseState (fst s) -> _lastPulseTime (fst s') = now) /\
       snd s' (_buzzerPin (fst s')) = _pulseState (fst s') /\
       snd s' (_vibrationPin (fst s')) = _pulseState (fst s')) /\
    (500 <= usub now t0 ->
       _alertActive (fst s') = false /\
       snd s' (_buzzerPin (fst s')) = LOW /\
       snd s' (_vibrationPin (fst s')) = LOW).
Proof.
  intros a g t0 t0' nows now HF s s'.
  assert (Hon : 0 <= 100 < ULONG_MOD) by (unfold ULONG_MOD; lia).
  assert (Hoff : 0 <= 50 < ULONG_MOD) by (unfold ULONG_MOD; lia).
  assert (H500 : to_ulong 500 = 500) by reflexivity.
  destruct (triggerAlert_session 500 t0 t0' a g) as (Hs0 & Ho0).
  assert (HF' : Forall (fun now => ~ expired 500 t0 now) nows).
  { eapply Forall_impl; [|exact HF]. intros t Ht. apply not_expired_lt. now rewrite H500. }
  destruct (updates_live false 500 t0 100 50 nows Hon Hoff HF' _ Hs0) as (Hs & Ho).
  specialize (Ho eq_refl Ho0). fold s in Hs, Ho.
  split; [apply Hs|]. split; [apply Hs|]. split; [apply Hs|]. split.
  - intros Hlt.
    destruct (update_live false 500 t0 100 50 now (fst s) (snd s) Hon Hoff Hs)
      as (Hs' & Hph & Hstamp & Ho').
    { apply not_expired_lt. now rewrite H500. }
    specialize (Ho' eq_refl Ho). fold s' in Hs', Hph, Hstamp, Ho'.
    split; [apply Hs'|]. split; [exact Hph|]. split; [exact Hstamp|]. exact Ho'.
  - intros Hge. subst s'.
    rewrite (update_expired false 500 t0 100 50 now (fst s) (snd s) Hs).
    + apply stopAlert_off.
    + unfold expired. rewrite H500. lia.
Qed.

Lemma alert_session_500ms_witness :
  Forall (fun t => usub t 1000 < 500) [1010; 1120; 1200] /\
  _alertActive
    (fst (update 1500
            (fst (updates [1010; 1120; 1200] (triggerAlert 500 1000 1000 init (fun _ => false))))
            (snd (updates [1010; 1120; 1200] (triggerAlert 500 1000 1000 init (fun _ => false))))))
  = false.
Proof.
  assert (HF : Forall (fun t => usub t 1000 < 500) [1010; 1120; 1200]).
  { repeat constructor. }
  split; [exact HF|].
  pose proof (alert_session_500ms init (fun _ => false) 1000 1000 [1010; 1120; 1200] 1500 HF) as H.
  cbv zeta in H. destruct H as (_ & _ & _ & _ & H). apply H. vm_compute. discriminate.
Defined.

(** C10. A session started by [triggerAlert] or [triggerHapticOnly] with
    [durationMs <= 0] never expires by itself: after any run of [update()]
    calls, at whatever clock readings, the active flag is still true; a
    further [update()] keeps it true and leaves the phase its cadence
    prescribes (100/50 ms, or 150/100 ms for the haptic-only session); and
    [stopAlert()] clears the flag and drives both outputs LOW. *)
Theorem nonpositive_duration_never_expires :
  forall (haptic : bool) (a : AlertManager.t) (g : GPIO) (d t0 t0' : Z)
         (nows : list Z) (now : Z),
    d <= 0 ->
    let s := updates nows
               (if haptic then triggerHapticOnly d t0 t0' a g
                else triggerAlert d t0 t0' a g) in
    let s' := update now (fst s) (snd s) in
    let off := stopAlert (fst s) (snd s) in
    _alertActive (fst s) = true /\
    _alertActive (fst s') = true /\
    _pulseState (fst s') =
      cadence_phase (if haptic then 150 else 100) (if haptic then 100 else 50) now (fst s) /\
    (_pulseState (fst s') <> _pulseState (fst s) -> _lastPulseTime (fst s') = now) /\
    _alertActive (fst off) = false /\
    snd off (_buzzerPin (fst off)) = LOW /\
    snd off (_vibrationPin (fst off)) = LOW.
Proof.
  intros haptic a g d t0 t0' nows now Hd s s' off.
  set (onMs := if haptic then 150 else 100).
  set (offMs := if haptic then 100 else 50).
  assert (Hon : 0 <= onMs < ULONG_MOD) by (unfold ULONG_MOD, onMs; destruct haptic; lia).
  assert (Hoff : 0 <= offMs < ULONG_MOD) by (unfold ULONG_MOD, offMs; destruct haptic; lia).
  assert (Hs0 : session haptic d t0 onMs offMs
                  (fst (if haptic then triggerHapticOnly d t0 t0' a g
                        else triggerAlert d t0 t0' a g))).
  { unfold onMs, offMs. destruct haptic.
    - apply triggerHapticOnly_session.
    - apply triggerAlert_session. }
  assert (HF : Forall (fun now => ~ expired d t0 now) nows).
  { apply Forall_forall. intros t _. now apply not_expired_nonpos. }
  destruct (updates_live haptic d t0 onMs offMs nows Hon Hoff HF _ Hs0) as (Hs & _).
  fold s in Hs.
  destruct (update_live haptic d t0 onMs offMs now (fst s) (snd s) Hon Hoff Hs)
    as (Hs' & Hph & Hstamp & _).
  { now apply not_expired_nonpos. }
  fold s' in Hs', Hph, Hstamp.
  split; [apply Hs|]. split; [apply Hs'|]. split; [exact Hph|]. split; [exact Hstamp|].
  apply stopAlert_off.
Qed.

Lemma nonpositive_duration_never_expires_witness :
  0 <= 0 /\
  _alertActive
    (fst (updates [5; 400000; 4294967295; 17] (triggerAlert 0 0 0 init (fun _ => false))))
  = true.
Proof.
  assert (H0 : 0 <= 0) by lia.
  split; [exact H0|].
  pose proof (nonpositive_duration_never_expires false init (fun _ => false) 0 0 0
                [5; 400000; 4294967295; 17] 0 H0) as H.
  cbv zeta in H. destruct H as (H & _). exact H.
Defined.

End AlertSessions.

(* ===================================================================== *)
(** * Spectrogram Engine: the mel spectrogram *)
(* ===================================================================== *)

Module MelSpectrogramFacts.
Import MelSpectrogram.
Import AudioProcessor.

Section WithFloat.
Context {F : Type} {FO : FloatOps F} {LM : Libm F} {FFT : ArduinoFFT F}.
Local Open Scope fl_scope.

(** ** The mel band in closed form, after the specification *)

(** ** The loops compute it *)

Lemma zrange_nth lo hi (i : nat) d :
  (i < Z.to_nat (hi - lo))%nat -> nth i (zrange lo hi) d = (lo + Z.of_nat i)%Z.
Proof.
  intros H. unfold zrange.
  rewrite nth_indep with (d' := (lo + Z.of_nat 0)%Z)
    by (now rewrite length_map, length_seq).
  change (lo + Z.of_nat 0)%Z with ((fun i => (lo + Z.of_nat i)%Z) O).
  rewrite map_nth, seq_nth by assumption. reflexivity.
Qed.

Lemma aget_map_zrange (f : Z -> F) n i :
  (0 <= i < n)%Z -> aget (map f (zrange 0 n)) i = f i.
Proof.
  intros H. unfold aget.
  destruct (i <? 0)%Z eqn:E; [apply Z.ltb_lt in E; lia|].
  rewrite nth_indep with (d' := f 0%Z)
    by (rewrite length_map, zrange_length; lia).
  rewrite map_nth, zrange_nth by lia. f_equal. lia.
Qed.

Lemma createHannWindow_spec n :
  (0 <= n)%Z -> createHannWindow n (zeros n) = hann_window n.
Proof.
  intros Hn. unfold createHannWindow, hann_window.
  destruct (fill_loop (fun i (_ : list F) => hann n i) 0 n (zeros n)) as (Hl & Hg);
    [lia|lia|rewrite length_zeros; lia|reflexivity|].
  cbn zeta in Hl, Hg.
  apply array_ext.
  - rewrite Hl, length_zeros, length_map, zrange_length. f_equal. lia.
  - intros i Hi. rewrite Hl, length_zeros in Hi.
    rewrite Hg, aget_map_zrange by lia.
    replace ((0 <=? i) && (i <? n))%Z with true; [reflexivity|].
    symmetry. apply andb_true_iff. split; [apply Z.leb_le|apply Z.ltb_lt]; lia.
Qed.

Lemma fill_vReal_spec (a : AudioProcessor.t F) audioSamples numSamples :
  (0 <= _fftSize a)%Z ->
  fill_vReal a audioSamples numSamples =
  windowed_padded (_window a) (_fftSize a) audioSamples numSamples.
Proof.
  intros Hn. unfold fill_vReal, windowed_padded.
  set (f := fun i : Z => if (i <? numSamples)%Z
                         then aget audioSamples i * aget (_window a) i else lit 0).
  rewrite for_loop_ext with (body' := fun i v => aset v i (f i)).
  2:{ intros k v _. unfold f. destruct (k <? numSamples)%Z; reflexivity. }
  destruct (fill_loop (fun i (_ : list F) => f i) 0 (_fftSize a) (zeros (_fftSize a)))
    as (Hl & Hg); [lia|lia|rewrite length_zeros; lia|reflexivity|].
  cbn zeta in Hl, Hg.
  apply array_ext.
  - rewrite Hl, length_zeros, length_map, zrange_length. f_equal. lia.
  - intros i Hi. rewrite Hl, length_zeros in Hi.
    rewrite Hg, aget_map_zrange by lia.
    replace ((0 <=? i) && (i <? _fftSize a))%Z with true; [reflexivity|].
    symmetry. apply andb_true_iff. split; [apply Z.leb_le|apply Z.ltb_lt]; lia.
Qed.

(** The body of the loop over the bands stores the band's value at [m] and
    leaves the other elements. *)
Lemma band_body (a : AudioProcessor.t F) vReal m (out : list F) :
  (0 <= m < Z.of_nat (length out))%Z ->
  let out' :=
    (let sum := filter_sum a vReal m in
     let sum := fmax sum (lit 1e-10) in
     let out := aset out m (lit 20 * flog10 sum) in
     if fneb (aget (_noiseFloor a) m) (lit 0) then
       let out := aset out m (aget out m - aget (_noiseFloor a) m) in
       aset out m (fmax (aget out m) (lit 0))
     else out) in
  length out' = length out /\
  aget out' m = subtract_noise (aget (_noiseFloor a) m)
                  (to_dB (weighted_sum (_melFilterbank a) (numFftBins (_fftSize a)) vReal m)) /\
  forall j, j <> m -> aget out' j = aget out j.
Proof.
  intros Hm. cbn zeta. unfold subtract_noise, to_dB.
  change (weighted_sum (_melFilterbank a) (numFftBins (_fftSize a)) vReal m)
    with (filter_sum a vReal m).
  destruct (fneb (aget (_noiseFloor a) m) (lit 0)).
  - repeat split.
    + now rewrite !length_aset.
    + rewrite !aget_aset_same by (rewrite ?length_aset; lia). reflexivity.
    + intros j Hj. rewrite !aget_aset_other by congruence. reflexivity.
  - repeat split.
    + now rewrite length_aset.
    + now rewrite aget_aset_same.
    + intros j Hj. now rewrite aget_aset_other by congruence.
Qed.

Lemma computeMelSpectrogram_spec (a : AudioProcessor.t F) audioSamples numSamples
    (melOutput : list F) :
  (0 <= _fftSize a)%Z -> (_melBins a <= Z.of_nat (length melOutput))%Z ->
  let out := computeMelSpectrogram a audioSamples numSamples melOutput in
  length out = length melOutput /\
  forall m, (0 <= m < _melBins a)%Z ->
    aget out m =
    subtract_noise (aget (_noiseFloor a) m)
      (to_dB (weighted_sum (_melFilterbank a) (numFftBins (_fftSize a))
                (fft_magnitude
                   (windowed_padded (_window a) (_fftSize a) audioSamples numSamples))
                m)).
Proof.
  intros Hn Hlen. cbn zeta. unfold computeMelSpectrogram.
  rewrite fill_vReal_spec by assumption.
  set (vReal := fft_magnitude _).
  destruct (Z.le_gt_cases 0 (_melBins a)) as [Hmb|Hmb].
  2:{ rewrite for_loop_nil by lia. split; [reflexivity|]. intros m Hm. lia. }
  apply (for_loop_inv
           (fun k (out : list F) =>
              length out = length melOutput /\
              forall m, (0 <= m < k)%Z ->
                aget out m =
                subtract_noise (aget (_noiseFloor a) m)
                  (to_dB (weighted_sum (_melFilterbank a) (numFftBins (_fftSize a))
                            vReal m)))
           0%Z (_melBins a)); [assumption| |].
  - split; [reflexivity|]. intros m Hm. lia.
  - intros k out Hk (Hl & Hout).
    destruct (band_body a vReal k out) as (Hl' & Hk' & Hoth); [lia|].
    cbn zeta in Hl', Hk', Hoth.
    split; [congruence|].
    intros m Hm. destruct (Z.eq_dec m k) as [->|Hne]; [exact Hk'|].
    rewrite Hoth by assumption. apply Hout. lia.
Qed.

(** C3. For a frame of [numSamples <= fftSize] samples, band [m] of the
    output of [computeMelSpectrogram] is [20*log10(max(s, 1e-10))], where [s]
    is the sum, weighted by band [m] of the filterbank, of the magnitude
    spectrum of the frame multiplied by the Hann window and padded with
    zeros; when the noise floor of the band is not zero it is subtracted and
    the result floored at zero, and when it is zero nothing is subtracted. *)
Theorem mel_spectrogram_band :
  forall (sampleRate fftSize melBins : Z) (filterbank noiseFloor : list F)
         (audioSamples : list F) (numSamples : Z) (melOutput : list F) (m : Z),
    (0 <= numSamples <= fftSize)%Z ->
    (0 <= m < melBins)%Z ->
    (melBins <= Z.of_nat (length melOutput))%Z ->
    let a := AudioProcessor.mk sampleRate fftSize melBins filterbank noiseFloor
               (createHannWindow fftSize (zeros fftSize)) in
    let s := weighted_sum filterbank (numFftBins fftSize)
               (fft_magnitude
                  (windowed_padded (hann_window fftSize) fftSize audioSamples numSamples))
               m in
    let dB := lit 20 * flog10 (fmax s (lit 1e-10)) in
    aget (computeMelSpectrogram a audioSamples numSamples melOutput) m =
      mel_band fftSize filterbank noiseFloor audioSamples numSamples m /\
    mel_band fftSize filterbank noiseFloor audioSamples numSamples m =
      (if fneb (aget noiseFloor m) (lit 0)
       then fmax (dB - aget noiseFloor m) (lit 0)
       else dB).
Proof.
  intros sampleRate fftSize melBins filterbank noiseFloor audioSamples numSamples
         melOutput m Hns Hm Hlen a s dB.
  split; [|reflexivity].
  destruct (computeMelSpectrogram_spec a audioSamples numSamples melOutput) as (_ & H);
    [cbn; lia|cbn; lia|].
  cbn zeta in H. rewrite (H m) by (cbn; lia).
  unfold mel_band. cbn [_noiseFloor _melFilterbank _fftSize _window a].
  rewrite createHannWindow_spec by lia. reflexivity.
Qed.

(** ** The mel filterbank *)

(** A loop that stores [w k] at [o + k] for each [k] of [lo..hi-1]. *)
Lemma store_loop_opt (w : Z -> F) o lo hi (body : Z -> list F -> option (list F)) fb :
  (lo <= hi)%Z -> (0 <= o + lo)%Z -> (o + hi <= Z.of_nat (length fb))%Z ->
  (forall k fb', (lo <= k < hi)%Z -> body k fb' = Some (aset fb' (o + k)%Z (w k))) ->
  exists fb', for_loop_opt lo hi body fb = Some fb' /\
              length fb' = length fb /\
              forall j, aget fb' j =
                        if ((o + lo <=? j) && (j <? o + hi))%Z then w (j - o)%Z
                        else aget fb j.
Proof.
  intros Hle Hlo Hhi Hbody.
  apply (for_loop_opt_inv
           (fun k fb' => length fb' = length fb /\
                         forall j, aget fb' j =
                                   if ((o + lo <=? j) && (j <? o + k))%Z then w (j - o)%Z
                                   else aget fb j)
           lo hi); [assumption| |].
  - split; [reflexivity|]. intros j.
    destruct (o + lo <=? j)%Z eqn:E1, (j <? o + lo)%Z eqn:E2; cbn; try reflexivity.
    apply Z.leb_le in E1. apply Z.ltb_lt in E2. lia.
  - intros k fb' Hk (Hl & Hg). rewrite Hbody by assumption.
    eexists. split; [reflexivity|]. split; [now rewrite length_aset|].
    intros j. rewrite aget_aset by lia.
    destruct (j =? o + k)%Z eqn:E.
    + apply Z.eqb_eq in E. subst j.
      replace ((o + lo <=? o + k) && (o + k <? o + (k + 1)))%Z with true
        by (symmetry; apply andb_true_iff; split; [apply Z.leb_le|apply Z.ltb_lt]; lia).
      f_equal. lia.
    + apply Z.eqb_neq in E. rewrite Hg.
      replace (j <? o + (k + 1))%Z with (j <? o + k)%Z; [reflexivity|].
      destruct (j <? o + k)%Z eqn:E1; symmetry;
        [apply Z.ltb_lt in E1; apply Z.ltb_lt|apply Z.ltb_ge in E1; apply Z.ltb_ge]; lia.
Qed.

(** The slope loops never divide by zero: each division stands behind the
    test that its divisor is not zero. *)
Lemma fill_filter_succeeds nBins pts m (fb : list F) :
  exists fb', fill_filter nBins pts m fb = Some fb'.
Proof.
  unfold fill_filter.
  set (fStart := nth (Z.to_nat m) pts 0%Z).
  set (fCenter := nth (Z.to_nat (m + 1)) pts 0%Z).
  set (fEnd := nth (Z.to_nat (m + 2)) pts 0%Z).
  assert (Hgen : forall lo hi a b (num : Z -> Z) fb0,
             exists fb', 
               for_loop_opt lo hi
                 (fun k fb =>
                    if negb (a =? b)%Z then
                      match checked_div (of_int (num k)) (a - b)%Z with
                      | Some w => Some (aset fb (m * nBins + k)%Z w)
                      | None => None
                      end
                    else Some fb) fb0 = Some fb').
  { intros lo hi a b num fb0.
    destruct (Z.le_gt_cases lo hi) as [Hle|Hgt].
    - destruct (for_loop_opt_inv (fun _ _ => True) lo hi
                  (fun k fb =>
                     if negb (a =? b)%Z then
                       match checked_div (of_int (num k)) (a - b)%Z with
                       | Some w => Some (aset fb (m * nBins + k)%Z w)
                       | None => None
                       end
                     else Some fb) fb0 Hle I) as (fb' & H & _).
      + intros k s _ _. destruct (a =? b)%Z eqn:E; cbn [negb].
        * eexists; split; [reflexivity|exact I].
        * apply Z.eqb_neq in E. unfold checked_div.
          replace (a - b =? 0)%Z with false by (symmetry; apply Z.eqb_neq; lia).
          eexists; split; [reflexivity|exact I].
      + exists fb'. exact H.
    - exists fb0. apply for_loop_opt_nil. lia. }
  destruct (Hgen fStart fCenter fCenter fStart (fun k => (k - fStart)%Z) fb) as (fb1 & H1).
  rewrite H1.
  apply (Hgen fCenter (fEnd + 1)%Z fEnd fCenter (fun k => (fEnd - k)%Z) fb1).
Qed.

Lemma createMelFilterbank_succeeds sampleRate fftSize melBins :
  exists fb : list F, createMelFilterbank sampleRate fftSize melBins = Some fb.
Proof.
  unfold createMelFilterbank.
  destruct (Z.le_gt_cases 0 melBins) as [Hle|Hgt].
  - destruct (for_loop_opt_inv (fun _ (_ : list F) => True) 0%Z melBins
                (fill_filter (numFftBins fftSize)
                   (fftBinPoints sampleRate fftSize melBins))
                (zeros (melBins * numFftBins fftSize)) Hle I) as (fb' & H & _).
    + intros k s _ _.
      destruct (fill_filter_succeeds (numFftBins fftSize)
                  (fftBinPoints sampleRate fftSize melBins) k s) as (s' & Hs').
      exists s'. split; [exact Hs'|exact I].
    + exists fb'. exact H.
  - eexists. apply for_loop_opt_nil. lia.
Qed.

Lemma begin_succeeds sampleRate fftSize melBins :
  exists a : AudioProcessor.t F, AudioProcessor.begin sampleRate fftSize melBins = Some a.
Proof.
  unfold AudioProcessor.begin.
  destruct (createMelFilterbank_succeeds sampleRate fftSize melBins) as (fb & ->).
  eexists. reflexivity.
Qed.

Lemma weight_not_stored pts m k : stored pts m k = false -> weight pts m k = of_int 0.
Proof.
  unfold stored, weight. cbn zeta. intros H. apply orb_false_iff in H.
  destruct H as (-> & ->). reflexivity.
Qed.

Ltac zbool :=
  repeat match goal with
    | |- context [(?a <=? ?b)%Z] => destruct (Z.leb_spec a b)
    | |- context [(?a <? ?b)%Z] => destruct (Z.ltb_spec a b)
    | |- context [(?a =? ?b)%Z] => destruct (Z.eqb_spec a b)
    end; cbn [andb orb negb]; try reflexivity; try lia.

(** Filter [m]: the two slope loops store the weights of the filter in row
    [m] and touch nothing else. *)
Lemma fill_filter_spec nBins pts m (fb : list F) :
  (0 <= m)%Z ->
  (0 <= fStart_of pts m <= nBins - 1)%Z ->
  (0 <= fCenter_of pts m <= nBins - 1)%Z ->
  (0 <= fEnd_of pts m <= nBins - 1)%Z ->
  ((m + 1) * nBins <= Z.of_nat (length fb))%Z ->
  exists fb', fill_filter nBins pts m fb = Some fb' /\
              length fb' = length fb /\
              forall j, aget fb' j =
                        if stored pts m (j - m * nBins)%Z
                        then weight pts m (j - m * nBins)%Z else aget fb j.
Proof.
  intros Hm Hs Hc He Hlen. unfold fill_filter.
  fold (fStart_of pts m) (fCenter_of pts m) (fEnd_of pts m).
  set (fStart := fStart_of pts m) in *.
  set (fCenter := fCenter_of pts m) in *.
  set (fEnd := fEnd_of pts m) in *.
  set (o := (m * nBins)%Z).
  assert (Ho : (0 <= o)%Z) by (unfold o; nia).
  assert (Ho' : (o + nBins <= Z.of_nat (length fb))%Z) by (unfold o; nia).
  (* rising slope *)
  assert (H1 : exists fb1,
             for_loop_opt fStart fCenter
               (fun k fb =>
                  if negb (fCenter =? fStart)%Z then
                    match checked_div (of_int (k - fStart)%Z) (fCenter - fStart)%Z with
                    | Some w => Some (aset fb (o + k)%Z w)
                    | None => None
                    end
                  else Some fb) fb = Some fb1 /\
             length fb1 = length fb /\
             forall j, aget fb1 j =
                       if ((fStart <=? j - o) && (j - o <? fCenter))%Z
                       then of_int (j - o - fStart)%Z / of_int (fCenter - fStart)%Z
                       else aget fb j).
  { destruct (Z.le_gt_cases fStart fCenter) as [Hle|Hgt].
    - destruct (store_loop_opt
                  (fun k => of_int (k - fStart)%Z / of_int (fCenter - fStart)%Z)
                  o fStart fCenter
                  (fun k fb =>
                     if negb (fCenter =? fStart)%Z then
                       match checked_div (of_int (k - fStart)%Z) (fCenter - fStart)%Z with
                       | Some w => Some (aset fb (o + k)%Z w)
                       | None => None
                       end
                     else Some fb) fb) as (fb1 & E1 & L1 & G1); [lia|lia|lia| |].
      + intros k fb' Hk. unfold checked_div.
        replace (fCenter =? fStart)%Z with false by (symmetry; apply Z.eqb_neq; lia).
        replace (fCenter - fStart =? 0)%Z with false by (symmetry; apply Z.eqb_neq; lia).
        reflexivity.
      + exists fb1. split; [exact E1|]. split; [exact L1|].
        intros j. rewrite G1. zbool.
    - exists fb. split; [apply for_loop_opt_nil; lia|]. split; [reflexivity|].
      intros j. zbool. }
  destruct H1 as (fb1 & E1 & L1 & G1).
  replace (fun k fb0 =>
             if negb (fCenter =? fStart)%Z then
               match checked_div (of_int (k - fStart)%Z) (fCenter - fStart)%Z with
               | Some w => Some (aset fb0 (m * nBins + k)%Z w)
               | None => None
               end
             else Some fb0)
    with (fun k fb0 =>
            if negb (fCenter =? fStart)%Z then
              match checked_div (of_int (k - fStart)%Z) (fCenter - fStart)%Z with
              | Some w => Some (aset fb0 (o + k)%Z w)
              | None => None
              end
            else Some fb0) by reflexivity.
  rewrite E1.
  (* falling slope *)
  assert (H2 : exists fb2,
             for_loop_opt fCenter (fEnd + 1)%Z
               (fun k fb =>
                  if negb (fEnd =? fCenter)%Z then
                    match checked_div (of_int (fEnd - k)%Z) (fEnd - fCenter)%Z with
                    | Some w => Some (aset fb (o + k)%Z w)
                    | None => None
                    end
                  else Some fb) fb1 = Some fb2 /\
             length fb2 = length fb1 /\
             forall j, aget fb2 j =
                       if ((fCenter <=? j - o) && (j - o <=? fEnd)
                           && negb (fEnd =? fCenter))%Z
                       then of_int (fEnd - (j - o))%Z / of_int (fEnd - fCenter)%Z
                       else aget fb1 j).
  { destruct (Z.lt_trichotomy fEnd fCenter) as [Hlt|[Heq|Hgt]].
    - exists fb1. split; [apply for_loop_opt_nil; lia|]. split; [reflexivity|].
      intros j. zbool.
    - destruct (for_loop_opt_inv (fun _ s => s = fb1) fCenter (fEnd + 1)%Z
                  (fun k fb =>
                     if negb (fEnd =? fCenter)%Z then
                       match checked_div (of_int (fEnd - k)%Z) (fEnd - fCenter)%Z with
                       | Some w => Some (aset fb (o + k)%Z w)
                       | None => None
                       end
                     else Some fb) fb1) as (fb2 & E2 & ->); [lia|reflexivity| |].
      + intros k s _ ->.
        replace (fEnd =? fCenter)%Z with true by (symmetry; apply Z.eqb_eq; lia).
        exists fb1. split; reflexivity.
      + exists fb1. split; [exact E2|]. split; [reflexivity|].
        intros j. zbool.
    - destruct (store_loop_opt
                  (fun k => of_int (fEnd - k)%Z / of_int (fEnd - fCenter)%Z)
                  o fCenter (fEnd + 1)%Z
                  (fun k fb =>
                     if negb (fEnd =? fCenter)%Z then
                       match checked_div (of_int (fEnd - k)%Z) (fEnd - fCenter)%Z with
                       | Some w => Some (aset fb (o + k)%Z w)
                       | None => None
                       end
                     else Some fb) fb1) as (fb2 & E2 & L2 & G2); [lia|lia|lia| |].
      + intros k fb' Hk. unfold checked_div.
        replace (fEnd =? fCenter)%Z with false by (symmetry; apply Z.eqb_neq; lia).
        replace (fEnd - fCenter =? 0)%Z with false by (symmetry; apply Z.eqb_neq; lia).
        reflexivity.
      + exists fb2. split; [exact E2|]. split; [exact L2|].
        intros j. rewrite G2. zbool. }
  destruct H2 as (fb2 & E2 & L2 & G2).
  exists fb2. split; [exact E2|]. split; [congruence|].
  intros j. rewrite G2, G1. unfold stored, weight. cbn zeta.
  fold fStart fCenter fEnd. fold o.
  destruct ((fStart <=? j - o) && (j - o <? fCenter))%Z eqn:Ea;
    destruct ((fCenter <=? j - o) && (j - o <=? fEnd) && negb (fEnd =? fCenter))%Z eqn:Eb;
    cbn [orb]; try reflexivity.
  exfalso. apply andb_true_iff in Ea. destruct Ea as (_ & Ea).
  apply Z.ltb_lt in Ea.
  apply andb_true_iff in Eb. destruct Eb as (Eb & _).
  apply andb_true_iff in Eb. destruct Eb as (Eb & _). apply Z.leb_le in Eb. lia.
Qed.

Lemma stored_range pts m k :
  stored pts m k = true -> (fStart_of pts m <= k \/ fCenter_of pts m <= k)%Z /\
                           (k < fCenter_of pts m \/ k <= fEnd_of pts m)%Z.
Proof.
  unfold stored. intros H. apply orb_true_iff in H. destruct H as [H|H].
  - apply andb_true_iff in H. destruct H as (H1 & H2).
    apply Z.leb_le in H1. apply Z.ltb_lt in H2. lia.
  - apply andb_true_iff in H. destruct H as (H & _).
    apply andb_true_iff in H. destruct H as (H1 & H2).
    apply Z.leb_le in H1, H2. lia.
Qed.

Lemma numFftBins_pos fftSize : (0 <= fftSize)%Z -> (1 <= numFftBins fftSize)%Z.
Proof.
  intros H. unfold numFftBins.
  assert (0 <= Z.quot fftSize 2)%Z by (apply Z.quot_pos; lia). lia.
Qed.

Lemma zconstrain_bounds b lo hi : (lo <= hi)%Z -> (lo <= zconstrain b lo hi <= hi)%Z.
Proof. intros H. unfold zconstrain. zbool. Qed.

Lemma zconstrain_mono b b' lo hi :
  (lo <= hi)%Z -> (b <= b')%Z -> (zconstrain b lo hi <= zconstrain b' lo hi)%Z.
Proof. intros H Hb. unfold zconstrain. zbool. Qed.

Lemma nth_fftBinPoints sampleRate fftSize melBins i :
  (0 <= i < melBins + 2)%Z ->
  nth (Z.to_nat i) (fftBinPoints sampleRate fftSize melBins) 0%Z
  = fftBinPoint sampleRate fftSize melBins i.
Proof.
  intros H. unfold fftBinPoints.
  rewrite nth_indep with (d' := fftBinPoint sampleRate fftSize melBins 0%Z)
    by (rewrite length_map, zrange_length; lia).
  rewrite map_nth, zrange_nth by lia. f_equal. lia.
Qed.

Lemma fftBinPoint_bounds sampleRate fftSize melBins i :
  (0 <= fftSize)%Z ->
  (0 <= fftBinPoint sampleRate fftSize melBins i <= numFftBins fftSize - 1)%Z.
Proof.
  intros H. unfold fftBinPoint. cbn zeta. apply zconstrain_bounds.
  pose proof (numFftBins_pos fftSize H). lia.
Qed.

(** The filterbank [createMelFilterbank] builds: it is built without a
    division by zero, and row [m] holds the weights of filter [m]. *)
Lemma createMelFilterbank_spec sampleRate fftSize melBins :
  (0 <= fftSize)%Z -> (0 <= melBins)%Z ->
  let nBins := numFftBins fftSize in
  let pts := fftBinPoints sampleRate fftSize melBins in
  exists fb : list F,
    createMelFilterbank sampleRate fftSize melBins = Some fb /\
    length fb = Z.to_nat (melBins * nBins) /\
    forall m k, (0 <= m < melBins)%Z -> (0 <= k < nBins)%Z ->
                aget fb (m * nBins + k)%Z = weight pts m k.
Proof.
  intros Hn Hmb nBins pts. unfold createMelFilterbank. fold nBins pts.
  pose proof (numFftBins_pos fftSize Hn) as HnB. fold nBins in HnB.
  assert (Hpts : forall i, (0 <= i < melBins + 2)%Z ->
                           (0 <= nth (Z.to_nat i) pts 0 <= nBins - 1)%Z).
  { intros i Hi. unfold pts. rewrite nth_fftBinPoints by assumption.
    now apply fftBinPoint_bounds. }
  destruct (for_loop_opt_inv
              (fun m (fb : list F) =>
                 length fb = Z.to_nat (melBins * nBins) /\
                 forall m' k, (0 <= m' < melBins)%Z -> (0 <= k < nBins)%Z ->
                   aget fb (m' * nBins + k)%Z =
                   if (m' <? m)%Z then weight pts m' k else of_int 0)
              0%Z melBins (fill_filter nBins pts) (zeros (melBins * nBins)))
    as (fb & E & L & G); [assumption| | |].
  - split; [apply length_zeros|]. intros m' k Hm' Hk.
    rewrite aget_zeros. replace (m' <? 0)%Z with false; [reflexivity|].
    symmetry. apply Z.ltb_ge. lia.
  - intros m fb Hm (L & G).
    assert (Hs := Hpts m ltac:(lia)).
    assert (Hc := Hpts (m + 1)%Z ltac:(lia)).
    assert (He := Hpts (m + 2)%Z ltac:(lia)).
    destruct (fill_filter_spec nBins pts m fb) as (fb' & E' & L' & G');
      [lia|exact Hs|exact Hc|exact He|rewrite L; nia|].
    exists fb'. split; [exact E'|]. split; [congruence|].
    intros m' k Hm' Hk. rewrite G'.
    destruct (Z.eq_dec m' m) as [->|Hne].
    + replace (m * nBins + k - m * nBins)%Z with k by lia.
      replace (m <? m + 1)%Z with true by (symmetry; apply Z.ltb_lt; lia).
      destruct (stored pts m k) eqn:Est; [reflexivity|].
      rewrite G by assumption.
      replace (m <? m)%Z with false by (symmetry; apply Z.ltb_ge; lia).
      symmetry. now apply weight_not_stored.
    + destruct (stored pts m (m' * nBins + k - m * nBins)%Z) eqn:Est.
      * exfalso. apply stored_range in Est.
        unfold fStart_of, fCenter_of, fEnd_of in Est. nia.
      * rewrite G by assumption.
        replace (m' <? m + 1)%Z with (m' <? m)%Z; [reflexivity|].
        destruct (Z.ltb_spec m' m), (Z.ltb_spec m' (m + 1)); try reflexivity; lia.
  - exists fb. split; [exact E|]. split; [exact L|].
    intros m k Hm Hk. rewrite G by assumption.
    replace (m <? melBins)%Z with true; [reflexivity|].
    symmetry. apply Z.ltb_lt. lia.
Qed.

End WithFloat.
End MelSpectrogramFacts.

(* ===================================================================== *)
(** * The filterbank in exact arithmetic *)
(* ===================================================================== *)

Module RealFilterbankFacts.
Import RealFilterbank.
Import Real AudioProcessor MelSpectrogram MelSpectrogramFacts.
Local Open Scope R_scope.

(** ** Rounding to integers *)

Lemma Int_part_mono x y : x <= y -> (Int_part x <= Int_part y)%Z.
Proof.
  intros H.
  destruct (base_Int_part x) as (Hx1 & Hx2).
  destruct (base_Int_part y) as (Hy1 & Hy2).
  assert (Hlt : IZR (Int_part x) < IZR (Int_part y + 1)) by (rewrite plus_IZR; lra).
  apply lt_IZR in Hlt. lia.
Qed.

Lemma Int_part_nonneg x : 0 <= x -> (0 <= Int_part x)%Z.
Proof.
  intros H. destruct (base_Int_part x) as (Hx1 & Hx2).
  assert (Hlt : IZR (-1) < IZR (Int_part x)) by lra.
  apply lt_IZR in Hlt. lia.
Qed.

Lemma Rtrunc_mono x y : x <= y -> (Rtrunc x <= Rtrunc y)%Z.
Proof.
  intros H. unfold Rtrunc.
  destruct (Rle_dec 0 x) as [Hx|Hx], (Rle_dec 0 y) as [Hy|Hy].
  - now apply Int_part_mono.
  - lra.
  - assert (0 <= Int_part (- x))%Z by (apply Int_part_nonneg; lra).
    assert (0 <= Int_part y)%Z by (now apply Int_part_nonneg). lia.
  - assert (Int_part (- y) <= Int_part (- x))%Z by (apply Int_part_mono; lra). lia.
Qed.

(** ** The mel scale *)

Lemma ln_10_pos : 0 < ln 10.
Proof. rewrite <- ln_1. apply ln_increasing; lra. Qed.

Lemma ln_mono x y : 0 < x -> x <= y -> ln x <= ln y.
Proof.
  intros Hx [Hlt| ->]; [|lra]. left. now apply ln_increasing.
Qed.

Lemma hzToMel_mono x y : 0 <= x -> x <= y -> hzToMel x <= hzToMel y.
Proof.
  intros Hx Hxy. unfold hzToMel. cbn [lit fmul fadd fdiv flog10 real_ops real_libm].
  unfold Q2R; cbn [Qnum Qden].
  assert (Hln : ln (1 * / 1 + x / (700 * / 1)) <= ln (1 * / 1 + y / (700 * / 1))).
  { apply ln_mono; lra. }
  pose proof ln_10_pos as H10.
  apply Rmult_le_compat_l; [lra|].
  unfold Rdiv. apply Rmult_le_compat_r; [|exact Hln].
  left. now apply Rinv_0_lt_compat.
Qed.

Lemma hzToMel_0 : hzToMel (lit 0) = 0.
Proof.
  unfold hzToMel. cbn [lit fmul fadd fdiv flog10 real_ops real_libm].
  unfold Q2R; cbn [Qnum Qden].
  replace (1 * / 1 + 0 * / 1 / (700 * / 1)) with 1 by lra.
  rewrite ln_1. lra.
Qed.

Lemma melToHz_mono x y : x <= y -> melToHz x <= melToHz y.
Proof.
  intros Hxy. unfold melToHz. cbn [lit fmul fsub fdiv fpow real_ops real_libm].
  unfold Q2R; cbn [Qnum Qden].
  assert (Hp : Rpower (10 * / 1) (x / (2595 * / 1)) <= Rpower (10 * / 1) (y / (2595 * / 1))).
  { apply Rle_Rpower; lra. }
  lra.
Qed.

(** ** The boundary bins are in order *)

Lemma mel_point_mono sampleRate melBins i j :
  (0 < sampleRate)%Z -> (0 <= melBins)%Z -> (i <= j)%Z ->
  mel_point sampleRate melBins i <= mel_point sampleRate melBins j.
Proof.
  intros Hsr Hmb Hij. unfold mel_point. cbn zeta.
  assert (H0 : hzToMel (lit 0) <= hzToMel (IZR sampleRate / Q2R 2)).
  { apply hzToMel_mono.
    - cbn. unfold Q2R; cbn. lra.
    - cbn [lit real_ops]. unfold Q2R; cbn [Qnum Qden].
      assert (0 < IZR sampleRate) by (now apply IZR_lt). lra. }
  assert (Hd : 0 < IZR (melBins + 1)) by (apply IZR_lt; lia).
  assert (Hi : IZR i <= IZR j) by (now apply IZR_le).
  apply Rplus_le_compat_l. unfold Rdiv.
  apply Rmult_le_compat_r; [left; now apply Rinv_0_lt_compat|].
  apply Rmult_le_compat_l; lra.
Qed.

Lemma fftBinPoint_mono sampleRate fftSize melBins i j :
  (0 < sampleRate)%Z -> (0 <= fftSize)%Z -> (0 <= melBins)%Z -> (i <= j)%Z ->
  (fftBinPoint sampleRate fftSize melBins i <= fftBinPoint sampleRate fftSize melBins j)%Z.
Proof.
  intros Hsr Hn Hmb Hij. unfold fftBinPoint. cbn zeta.
  pose proof (numFftBins_pos fftSize Hn) as HnB.
  apply zconstrain_mono; [lia|].
  apply Rtrunc_mono.
  cbn [fmul fdiv fadd fsub of_int lit real_ops].
  fold (mel_point sampleRate melBins i) (mel_point sampleRate melBins j).
  pose proof (mel_point_mono sampleRate melBins i j Hsr Hmb Hij) as Hm.
  apply melToHz_mono in Hm.
  assert (Hs : 0 < IZR sampleRate / Q2R 2).
  { unfold Q2R; cbn [Qnum Qden]. assert (0 < IZR sampleRate) by (now apply IZR_lt). lra. }
  assert (Hb : 0 <= IZR (numFftBins fftSize)) by (apply IZR_le; lia).
  apply Rmult_le_compat_r; [exact Hb|].
  unfold Rdiv at 1 3. apply Rmult_le_compat_r; [|exact Hm].
  left. now apply Rinv_0_lt_compat.
Qed.

(** ** The weights *)

Lemma weight_range (pts : list Z) m k :
  (fStart_of pts m <= fCenter_of pts m <= fEnd_of pts m)%Z ->
  0 <= weight pts m k <= 1.
Proof.
  intros Hord. unfold weight. cbn zeta.
  set (fStart := fStart_of pts m) in *.
  set (fCenter := fCenter_of pts m) in *.
  set (fEnd := fEnd_of pts m) in *.
  cbn [fdiv of_int real_ops].
  destruct ((fStart <=? k) && (k <? fCenter))%Z eqn:Ea.
  - apply andb_true_iff in Ea. destruct Ea as (E1 & E2).
    apply Z.leb_le in E1. apply Z.ltb_lt in E2.
    assert (Hd : 0 < IZR (fCenter - fStart)) by (apply IZR_lt; lia).
    assert (Hn : 0 <= IZR (k - fStart) <= IZR (fCenter - fStart))
      by (split; apply IZR_le; lia).
    split.
    + apply Rmult_le_pos; [lra|]. left. now apply Rinv_0_lt_compat.
    + apply Rmult_le_reg_r with (r := IZR (fCenter - fStart)); [exact Hd|].
      unfold Rdiv. rewrite Rmult_assoc, Rinv_l by lra. lra.
  - destruct ((fCenter <=? k) && (k <=? fEnd) && negb (fEnd =? fCenter))%Z eqn:Eb.
    + apply andb_true_iff in Eb. destruct Eb as (Eb & E3).
      apply andb_true_iff in Eb. destruct Eb as (E1 & E2).
      apply Z.leb_le in E1, E2. apply negb_true_iff, Z.eqb_neq in E3.
      assert (Hd : 0 < IZR (fEnd - fCenter)) by (apply IZR_lt; lia).
      assert (Hn : 0 <= IZR (fEnd - k) <= IZR (fEnd - fCenter))
        by (split; apply IZR_le; lia).
      split.
      * apply Rmult_le_pos; [lra|]. left. now apply Rinv_0_lt_compat.
      * apply Rmult_le_reg_r with (r := IZR (fEnd - fCenter)); [exact Hd|].
        unfold Rdiv. rewrite Rmult_assoc, Rinv_l by lra. lra.
    + lra.
Qed.

Lemma weight_support (pts : list Z) m k :
  (k < fStart_of pts m \/ fEnd_of pts m < k)%Z ->
  (fStart_of pts m <= fCenter_of pts m <= fEnd_of pts m)%Z ->
  weight (F:=R) pts m k = 0.
Proof.
  intros Hk Hord. change (weight (F:=R) pts m k = of_int 0%Z).
  apply weight_not_stored. unfold stored.
  apply orb_false_iff. split.
  - apply andb_false_iff.
    destruct (Z.leb_spec (fStart_of pts m) k); [right; apply Z.ltb_ge; lia|now left].
  - apply andb_false_iff. left. apply andb_false_iff.
    destruct (Z.leb_spec (fCenter_of pts m) k); [right; apply Z.leb_gt; lia|now left].
Qed.

Lemma weight_flat_fall (pts : list Z) m k :
  fEnd_of pts m = fCenter_of pts m -> (fCenter_of pts m <= k)%Z ->
  weight (F:=R) pts m k = 0.
Proof.
  intros He Hk. change (weight (F:=R) pts m k = of_int 0%Z).
  apply weight_not_stored. unfold stored. rewrite He.
  rewrite Z.eqb_refl. cbn [negb]. rewrite andb_false_r, orb_false_r.
  apply andb_false_iff. right. apply Z.ltb_ge. lia.
Qed.

Lemma weight_flat_rise (pts : list Z) m k :
  fCenter_of pts m = fStart_of pts m -> (k < fCenter_of pts m)%Z ->
  (fStart_of pts m <= fCenter_of pts m <= fEnd_of pts m)%Z ->
  weight (F:=R) pts m k = 0.
Proof. intros Hc Hk Hord. apply weight_support; [lia|assumption]. Qed.

(** C7. For a positive sample rate, a transform size and a number of mel
    bands that are not negative, [createMelFilterbank] builds the filterbank
    without dividing by zero ([Some]), and for every filter [m]: its three
    boundary bins are in order, [fStart <= fCenter <= fEnd], inside the
    spectrum; every weight of its row is a real number in [0, 1] (so not
    negative, and finite); the weights outside [fStart, fEnd] are zero; and
    when boundaries coincide the slope concerned stays at zero (the whole
    falling slope when [fEnd = fCenter], the rising one when
    [fCenter = fStart]). *)
Theorem mel_filterbank_weights :
  forall (sampleRate fftSize melBins : Z),
    (0 < sampleRate)%Z -> (0 <= fftSize)%Z -> (0 <= melBins)%Z ->
    let nBins := numFftBins fftSize in
    let pts := fftBinPoints (F:=R) sampleRate fftSize melBins in
    exists fb : list R,
      createMelFilterbank sampleRate fftSize melBins = Some fb /\
      forall m, (0 <= m < melBins)%Z ->
        (0 <= fStart_of pts m <= fCenter_of pts m)%Z /\
        (fCenter_of pts m <= fEnd_of pts m < nBins)%Z /\
        forall k, (0 <= k < nBins)%Z ->
          0 <= aget fb (m * nBins + k) <= 1 /\
          ((k < fStart_of pts m \/ fEnd_of pts m < k)%Z ->
           aget fb (m * nBins + k) = 0) /\
          (fEnd_of pts m = fCenter_of pts m -> (fCenter_of pts m <= k)%Z ->
           aget fb (m * nBins + k) = 0) /\
          (fCenter_of pts m = fStart_of pts m -> (k < fCenter_of pts m)%Z ->
           aget fb (m * nBins + k) = 0).
Proof.
  intros sampleRate fftSize melBins Hsr Hn Hmb nBins pts.
  destruct (createMelFilterbank_spec (F:=R) sampleRate fftSize melBins Hn Hmb)
    as (fb & E & L & G).
  cbn zeta in G. fold nBins pts in G.
  exists fb. split; [exact E|].
  intros m Hm.
  assert (Hs : fStart_of pts m = fftBinPoint sampleRate fftSize melBins m).
  { unfold fStart_of, pts. apply nth_fftBinPoints. lia. }
  assert (Hc : fCenter_of pts m = fftBinPoint sampleRate fftSize melBins (m + 1)).
  { unfold fCenter_of, pts. apply nth_fftBinPoints. lia. }
  assert (He : fEnd_of pts m = fftBinPoint sampleRate fftSize melBins (m + 2)).
  { unfold fEnd_of, pts. apply nth_fftBinPoints. lia. }
  pose proof (fftBinPoint_bounds (F:=R) sampleRate fftSize melBins m Hn) as Bs.
  pose proof (fftBinPoint_bounds (F:=R) sampleRate fftSize melBins (m + 2) Hn) as Be.
  pose proof (fftBinPoint_mono sampleRate fftSize melBins m (m + 1) Hsr Hn Hmb
                ltac:(lia)) as M1.
  pose proof (fftBinPoint_mono sampleRate fftSize melBins (m + 1) (m + 2) Hsr Hn Hmb
                ltac:(lia)) as M2.
  rewrite <- Hs, <- Hc in M1. rewrite <- Hc, <- He in M2.
  rewrite <- Hs in Bs. rewrite <- He in Be. fold nBins in Be.
  split; [lia|]. split; [lia|].
  intros k Hk. rewrite (G m k Hm Hk).
  split; [apply weight_range; lia|].
  split; [intros H; apply weight_support; [exact H|lia]|].
  split; [apply weight_flat_fall|].
  intros H1 H2. apply weight_flat_rise; [exact H1|exact H2|lia].
Qed.

Lemma mel_filterbank_weights_witness :
  (0 < 44100)%Z /\ (0 <= 2048)%Z /\ (0 <= 128)%Z /\
  exists fb : list R,
    createMelFilterbank 44100 2048 128 = Some fb /\
    forall m, (0 <= m < 128)%Z ->
      (0 <= fStart_of (fftBinPoints (F:=R) 44100 2048 128) m
         <= fCenter_of (fftBinPoints (F:=R) 44100 2048 128) m)%Z.
Proof.
  assert (H1 : (0 < 44100)%Z) by lia.
  assert (H2 : (0 <= 2048)%Z) by lia.
  assert (H3 : (0 <= 128)%Z) by lia.
  split; [exact H1|]. split; [exact H2|]. split; [exact H3|].
  destruct (mel_filterbank_weights 44100 2048 128 H1 H2 H3) as (fb & E & H).
  exists fb. split; [exact E|]. intros m Hm. apply (H m Hm).
Defined.

End RealFilterbankFacts.

(* ===================================================================== *)
(** * Direction Estimator *)
(* ===================================================================== *)

Module DirectionFacts.
Import Direction.
Import DirectionEstimator.

(** ** Low confidence holds the bearing (any arithmetic) *)

Section WithFloat.
Context {F : Type} {FO : FloatOps F} {LM : Libm F}.
Local Open Scope fl_scope.

(** [estimateDirection], branch by branch. *)
Lemma estimateDirection_cases d mic1 mic2 mic3 mic4 numSamples :
  let r := estimateDirection d mic1 mic2 mic3 mic4 numSamples in
  let c := frame_confidence d mic1 mic2 mic3 mic4 numSamples in
  _lastConfidence (snd r) = c /\
  fst r = _smoothedDirection (snd r) /\
  _smoothedDirection (snd r) =
    (if c <? lit 0.5 then _smoothedDirection d
     else smooth (_smoothedDirection d)
            (frame_azimuth d mic1 mic2 mic3 mic4 numSamples)).
Proof.
  cbn zeta. unfold estimateDirection, frame_confidence, frame_azimuth.
  destruct (crossCorrelate d mic1 mic2 numSamples) as [t12 c12].
  destruct (crossCorrelate d mic1 mic4 numSamples) as [t14 c14].
  destruct (crossCorrelate d mic3 mic2 numSamples) as [t32 c32].
  destruct (crossCorrelate d mic3 mic4 numSamples) as [t34 c34].
  cbn [fst snd _lastConfidence _smoothedDirection].
  destruct (mean_confidence c12 c14 c32 c34 <? lit 0.5);
    cbn [fst snd _lastConfidence _smoothedDirection]; repeat split; reflexivity.
Qed.

(** C5. When the mean of the four pairwise confidences is below 0.5,
    [estimateDirection] returns the previous smoothed bearing and leaves the
    smoothed bearing as it was. *)
Theorem low_confidence_holds_bearing :
  forall (d : DirectionEstimator.t F) (mic1 mic2 mic3 mic4 : list F) (numSamples : Z),
    (frame_confidence d mic1 mic2 mic3 mic4 numSamples <? lit Config.MIN_CORRELATION) = true ->
    let r := estimateDirection d mic1 mic2 mic3 mic4 numSamples in
    fst r = _smoothedDirection d /\
    _smoothedDirection (snd r) = _smoothedDirection d /\
    _lastConfidence (snd r) = frame_confidence d mic1 mic2 mic3 mic4 numSamples.
Proof.
  intros d mic1 mic2 mic3 mic4 numSamples Hlow r.
  destruct (estimateDirection_cases d mic1 mic2 mic3 mic4 numSamples) as (Hc & Hr & Hs).
  cbn zeta in Hc, Hr, Hs. fold r in Hc, Hr, Hs.
  change (lit Config.MIN_CORRELATION) with (lit 0.5) in Hlow.
  rewrite Hlow in Hs. rewrite Hr, Hs. repeat split. exact Hc.
Qed.

End WithFloat.

(** ** The smoothing step in exact arithmetic *)

Section ExactSmoothing.
Import Real.
Local Open Scope R_scope.

Lemma Rltb_true x y : Rltb x y = true <-> x < y.
Proof. unfold Rltb. destruct (Rlt_dec x y); split; intros; try easy. Qed.

Lemma Rltb_false x y : Rltb x y = false <-> y <= x.
Proof. unfold Rltb. destruct (Rlt_dec x y); split; intros; try easy; lra. Qed.

Lemma Rleb_true x y : Rleb x y = true <-> x <= y.
Proof. unfold Rleb. destruct (Rle_dec x y); split; intros; try easy. Qed.

Lemma Rleb_false x y : Rleb x y = false <-> y < x.
Proof. unfold Rleb. destruct (Rle_dec x y); split; intros; try easy; lra. Qed.






(** ** A silent frame *)

Lemma Q2R_pos q : (0 < q)%Q -> 0 < Q2R q.
Proof. intros H. rewrite <- RMicromega.Q2R_0. now apply Qlt_Rlt. Qed.

Lemma Q2R_neg q : (q < 0)%Q -> Q2R q < 0.
Proof. intros H. rewrite <- RMicromega.Q2R_0. now apply Qlt_Rlt. Qed.

(** When the first signal is silent the correlation is defined as zero at
    every lag. *)
Lemma correlation_at_silent (sig1 sig2 : list R) numSamples maxLag lag :
  (forall i, aget sig1 i = 0) ->
  correlation_at sig1 sig2 numSamples maxLag lag = 0.
Proof.
  intros Hsil. unfold correlation_at.
  set (body := fun (i : Z) (s : acc) => _).
  set (s0 := mkacc (lit 0) (lit 0) (lit 0) 0%Z).
  assert (H : a_corr (for_loop maxLag (numSamples - maxLag) body s0) = 0 /\
              a_norm1 (for_loop maxLag (numSamples - maxLag) body s0) = 0).
  { destruct (Z.le_gt_cases maxLag (numSamples - maxLag)) as [Hle|Hgt].
    - apply (for_loop_inv (fun _ s => a_corr s = 0 /\ a_norm1 s = 0)
               maxLag (numSamples - maxLag)%Z body s0 Hle).
      + cbn. split; apply RMicromega.Q2R_0.
      + intros k s _ (Hc & Hn). unfold body.
        destruct ((0 <=? k + lag)%Z && (k + lag <? numSamples)%Z); [|now split].
        cbn [a_corr a_norm1 fadd fmul real_ops]. rewrite Hc, Hn, Hsil. split; ring.
    - rewrite for_loop_nil by lia. cbn. split; apply RMicromega.Q2R_0. }
  destruct H as (Hc & Hn). cbn zeta. rewrite Hn.
  cbn [fsqrt fmul fdiv lit real_ops]. unfold fgtb. cbn [fltb real_ops].
  rewrite Rmult_0_l, sqrt_0.
  assert (E : Rltb (Q2R 1e-10) 0 = false).
  { apply Rltb_false. left. now apply Q2R_pos. }
  rewrite E. apply RMicromega.Q2R_0.
Qed.

(** So the confidence of a pair whose first signal is silent is zero. *)
Lemma crossCorrelate_silent (d : DirectionEstimator.t R) (sig1 sig2 : list R) numSamples :
  (forall i, aget sig1 i = 0) -> (0 <= maxLag_of d numSamples)%Z ->
  snd (crossCorrelate d sig1 sig2 numSamples) = 0.
Proof.
  intros Hsil Hlag. unfold crossCorrelate. cbn zeta.
  set (maxLag := maxLag_of d numSamples) in *.
  set (body := fun (lag : Z) (st : R * Z) => _).
  set (st0 := (lit (-1e10), 0%Z)).
  assert (H : fst (for_loop (- maxLag) (maxLag + 1) body st0) = 0).
  { assert (Hinv : (fun k st => (k = (- maxLag)%Z /\ fst st = Q2R (-1e10)) \/
                               ((- maxLag < k)%Z /\ fst st = 0))
                     (maxLag + 1)%Z (for_loop (- maxLag) (maxLag + 1) body st0)).
    { apply for_loop_inv; [lia|left; split; reflexivity|].
      intros k [mc bl] Hk Hst. unfold body.
      rewrite correlation_at_silent by assumption.
      right. split; [lia|].
      unfold fgtb. cbn [fltb real_ops fst] in *.
      destruct Hst as [(_ & Hmc)|(_ & Hmc)]; rewrite Hmc.
      - assert (E : Rltb (Q2R (-1e10)) 0 = true).
        { apply Rltb_true. now apply Q2R_neg. }
        rewrite E. reflexivity.
      - assert (E : Rltb 0 0 = false) by (apply Rltb_false; lra).
        rewrite E. reflexivity. }
    cbn beta in Hinv. destruct Hinv as [(Hk & _)|(_ & Hz)]; [lia|exact Hz]. }
  destruct (for_loop (- maxLag) (maxLag + 1) body st0) as [mc bl].
  cbn [fst snd] in *. exact H.
Qed.

Lemma Rceil_nonneg x : 0 <= x -> (0 <= Rceil x)%Z.
Proof.
  intros H. unfold Rceil.
  destruct (base_Int_part (- x)) as (H1 & H2).
  assert (Hlt : IZR (Int_part (- x)) < IZR 1) by lra.
  apply lt_IZR in Hlt. lia.
Qed.

Lemma configured_maxLag : (0 <= maxLag_of configured Config.FFT_SIZE)%Z.
Proof.
  unfold maxLag_of, configured, DirectionEstimator.begin.
  cbn [_maxDelaySamples].
  set (x := (_ * of_int Config.SAMPLE_RATE)%fl).
  assert (Hx : 0 <= x).
  { unfold x. cbn [fmul fdiv fsqrt of_int lit real_ops].
    unfold Config.MIC_SPACING_MM, Config.SPEED_OF_SOUND, Config.SAMPLE_RATE.
    unfold Q2R; cbn [Qnum Qden].
    pose proof (sqrt_pos (2 * / 1)) as Hsq.
    apply Rmult_le_pos; [|lra].
    apply Rmult_le_pos; [|lra].
    apply Rmult_le_pos; [exact Hsq|lra]. }
  pose proof (Rceil_nonneg x Hx) as Hc.
  cbn [ceil_int real_ops]. unfold zmin, Config.FFT_SIZE.
  change (Z.quot 2048 4) with 512%Z.
  destruct (512 <? Rceil x + 5)%Z; lia.
Qed.

Lemma silence_confidence :
  frame_confidence configured silence silence silence silence Config.FFT_SIZE = 0.
Proof.
  unfold frame_confidence, mean_confidence.
  assert (Hs : forall i, aget silence i = 0)
    by (intros i; unfold silence; exact (aget_zeros (F:=R) Config.FFT_SIZE i)).
  rewrite !crossCorrelate_silent by (exact Hs || exact configured_maxLag).
  cbn [fadd fdiv lit real_ops]. unfold Q2R; cbn [Qnum Qden]. lra.
Qed.

Lemma low_confidence_holds_bearing_witness :
  (frame_confidence configured silence silence silence silence Config.FFT_SIZE
     <? lit Config.MIN_CORRELATION)%fl = true /\
  fst (estimateDirection configured silence silence silence silence Config.FFT_SIZE)
  = _smoothedDirection configured.
Proof.
  assert (H : (frame_confidence configured silence silence silence silence Config.FFT_SIZE
                 <? lit Config.MIN_CORRELATION)%fl = true).
  { rewrite silence_confidence. cbn [fltb lit real_ops]. apply Rltb_true.
    unfold Config.MIN_CORRELATION, Q2R; cbn [Qnum Qden]. lra. }
  split; [exact H|].
  apply (low_confidence_holds_bearing configured silence silence silence silence
           Config.FFT_SIZE H).
Defined.

End ExactSmoothing.

(** ** The confidence on IEEE single precision *)

Section Binary32Confidence.
Import Binary32.

(** C4 (evaluation of the code at the failing input). On two signals in
    opposite phase the confidence [crossCorrelate] stores is -1, below the
    interval [0, 1]; and with such pairs the mean that [estimateDirection]
    stores in [_lastConfidence] is -1 as well, whatever the math library. *)
Theorem confidence_negative_on_opposite_phase :
  snd (crossCorrelate configured32 plus_frame minus_frame 8) = lit (-1) /\
  fltb (snd (crossCorrelate configured32 plus_frame minus_frame 8)) (lit 0) = true /\
  forall LM : Libm binary32,
    _lastConfidence
      (snd (estimateDirection configured32 plus_frame minus_frame plus_frame minus_frame 8))
    = lit (-1).
Proof.
  split; [vm_compute; reflexivity|]. split; [vm_compute; reflexivity|].
  intros LM.
  destruct (estimateDirection_cases configured32 plus_frame minus_frame plus_frame
              minus_frame 8) as (Hc & _).
  cbn zeta in Hc. rewrite Hc. vm_compute. reflexivity.
Qed.

End Binary32Confidence.
End DirectionFacts.

(* ===================================================================== *)
(** * Rolling Feature Buffer *)
(* ===================================================================== *)

Module RollingBufferFacts.
Import RollingBuffer.
Import Machine Config Main.

Section WithFloat.
Context {F : Type} {FO : FloatOps F} {LM : Libm F} {FFT : ArduinoFFT F}.
Local Open Scope fl_scope.


Lemma runInference_tensor invoke g :
  modelLoaded g = true ->
  runInference invoke g =
  match invoke (inference_tensor g) with
  | None => lit 0
  | Some outputData => aget outputData DRONE_CLASS_INDEX
  end.
Proof. intros H. unfold runInference. rewrite H. reflexivity. Qed.

(** ** What the buffer holds *)





(** ** What the tensor holds *)

(** The two loops of [runInference()] store at [t * MEL_BINS + f] the
    normalised value of slot [(cursor + t) % SPEC_TIME_FRAMES]. *)
Lemma fill_input_spec g (inputData : list F) :
  (0 <= spectrogramIndex g)%Z ->
  length inputData = Z.to_nat (SPEC_TIME_FRAMES * MEL_BINS) ->
  forall t f, (0 <= t < SPEC_TIME_FRAMES)%Z -> (0 <= f < MEL_BINS)%Z ->
    aget (fill_input g inputData) (t * MEL_BINS + f)%Z =
    normalize (aget (melSpectrogram g)
                 (((spectrogramIndex g + t) mod SPEC_TIME_FRAMES) * MEL_BINS + f)%Z).
Proof.
  intros Hidx Hlen.
  set (val := fun t f : Z =>
         normalize (aget (melSpectrogram g)
                      (((spectrogramIndex g + t) mod SPEC_TIME_FRAMES) * MEL_BINS + f)%Z)).
  (* the inner loop, for row t *)
  assert (Hinner : forall t (inp : list F),
             (0 <= t < SPEC_TIME_FRAMES)%Z ->
             length inp = Z.to_nat (SPEC_TIME_FRAMES * MEL_BINS) ->
             let r := for_loop 0 MEL_BINS
                        (fun f inputData =>
                           let val := aget (melSpectrogram g)
                                        (Z.rem (spectrogramIndex g + t) SPEC_TIME_FRAMES
                                         * MEL_BINS + f)%Z in
                           let val := (val + lit 80) / lit 80 in
                           let val := fconstrain val (lit 0) (lit 1) in
                           aset inputData (t * MEL_BINS + f)%Z val) inp in
             length r = length inp /\
             forall j, aget r j =
                       if ((t * MEL_BINS <=? j) && (j <? t * MEL_BINS + MEL_BINS))%Z
                       then val t (j - t * MEL_BINS)%Z else aget inp j).
  { intros t inp Ht Hl. cbn zeta.
    apply (for_loop_inv
             (fun k (r : list F) =>
                length r = length inp /\
                forall j, aget r j =
                          if ((t * MEL_BINS <=? j) && (j <? t * MEL_BINS + k))%Z
                          then val t (j - t * MEL_BINS)%Z else aget inp j)
             0%Z MEL_BINS); [unfold MEL_BINS; lia| |].
    - split; [reflexivity|]. intros j.
      destruct (t * MEL_BINS <=? j)%Z eqn:E1, (j <? t * MEL_BINS + 0)%Z eqn:E2;
        cbn; try reflexivity.
      apply Z.leb_le in E1. apply Z.ltb_lt in E2. lia.
    - intros k r Hk (Hlr & Hr). split; [now rewrite length_aset|].
      intros j. rewrite aget_aset
        by (rewrite Hlr, Hl; unfold MEL_BINS, SPEC_TIME_FRAMES in *; lia).
      rewrite Z.rem_mod_nonneg by (unfold SPEC_TIME_FRAMES in *; lia).
      destruct (j =? t * MEL_BINS + k)%Z eqn:E.
      + apply Z.eqb_eq in E. subst j.
        replace ((t * MEL_BINS <=? t * MEL_BINS + k)
                 && (t * MEL_BINS + k <? t * MEL_BINS + (k + 1)))%Z with true
          by (symmetry; apply andb_true_iff; split; [apply Z.leb_le|apply Z.ltb_lt]; lia).
        unfold val, normalize. do 4 f_equal. lia.
      + apply Z.eqb_neq in E. rewrite Hr.
        replace (j <? t * MEL_BINS + (k + 1))%Z with (j <? t * MEL_BINS + k)%Z;
          [reflexivity|].
        destruct (j <? t * MEL_BINS + k)%Z eqn:E1; symmetry;
          [apply Z.ltb_lt in E1; apply Z.ltb_lt|apply Z.ltb_ge in E1; apply Z.ltb_ge]; lia. }
  (* the outer loop *)
  assert (Houter :
            length (fill_input g inputData) = length inputData /\
            forall j, aget (fill_input g inputData) j =
                      if ((0 <=? j) && (j <? SPEC_TIME_FRAMES * MEL_BINS))%Z
                      then val (j / MEL_BINS)%Z (j mod MEL_BINS)%Z
                      else aget inputData j).
  { unfold fill_input.
    apply (for_loop_inv
             (fun k (r : list F) =>
                length r = length inputData /\
                forall j, aget r j =
                          if ((0 <=? j) && (j <? k * MEL_BINS))%Z
                          then val (j / MEL_BINS)%Z (j mod MEL_BINS)%Z
                          else aget inputData j)
             0%Z SPEC_TIME_FRAMES); [unfold SPEC_TIME_FRAMES; lia| |].
    - split; [reflexivity|]. intros j.
      destruct (0 <=? j)%Z eqn:E1, (j <? 0 * MEL_BINS)%Z eqn:E2; cbn; try reflexivity.
      apply Z.leb_le in E1. apply Z.ltb_lt in E2. lia.
    - intros k r Hk (Hlr & Hr).
      destruct (Hinner k r Hk) as (Hl' & Hg'); [congruence|].
      cbn zeta in Hl', Hg'.
      split; [congruence|]. intros j. rewrite Hg', Hr.
      unfold MEL_BINS in *.
      destruct (Z.leb_spec (k * 128) j), (Z.ltb_spec j (k * 128 + 128)),
        (Z.leb_spec 0 j), (Z.ltb_spec j (k * 128)), (Z.ltb_spec j ((k + 1) * 128));
        cbn [andb]; try reflexivity; try lia.
      f_equal.
      + apply Z.div_unique with (r := (j - k * 128)%Z); lia.
      + apply Z.mod_unique with (q := k); lia. }
  destruct Houter as (_ & Hg).
  intros t f Ht Hf. rewrite Hg.
  replace ((0 <=? t * MEL_BINS + f) && (t * MEL_BINS + f <? SPEC_TIME_FRAMES * MEL_BINS))%Z
    with true
    by (symmetry; apply andb_true_iff; unfold MEL_BINS, SPEC_TIME_FRAMES in *;
        split; [apply Z.leb_le|apply Z.ltb_lt]; lia).
  unfold val.
  replace ((t * MEL_BINS + f) / MEL_BINS)%Z with t
    by (apply Z.div_unique with (r := f); unfold MEL_BINS in *; lia).
  replace ((t * MEL_BINS + f) mod MEL_BINS)%Z with f
    by (apply Z.mod_unique with (q := t); unfold MEL_BINS in *; lia).
  reflexivity.
Qed.


End WithFloat.
End RollingBufferFacts.

(* ===================================================================== *)
(** * Detection Orchestrator: the detection state along a run *)
(* ===================================================================== *)

Module OrchestratorFacts.
Import Orchestrator.
Import Machine Config Main.

Section WithFloat.
Context {F : Type} {FO : FloatOps F} {LM : Libm F} {FFT : ArduinoFFT F}.
Local Open Scope fl_scope.

Lemma view_handleButton b (g : Globals F) : view (handleButton b g) = v_button b (view g).
Proof.
  destruct b; cbn; try reflexivity.
  unfold view; cbn. destruct (currentState g) eqn:E; cbn; rewrite ?E; reflexivity.
Qed.

Lemma view_readAudioSamples r (g : Globals F) : view (readAudioSamples r g) = view g.
Proof.
  destruct r as [[n l]|]; [|reflexivity].
  unfold readAudioSamples. destruct (0 <? n)%Z; reflexivity.
Qed.

Lemma view_processAudio (g : Globals F) : view (processAudio g) = view g.
Proof. reflexivity. Qed.

Lemma view_enterCalibrationMode reads (g : Globals F) :
  view (enterCalibrationMode reads g) = view g.
Proof.
  unfold enterCalibrationMode.
  set (s0 := (g, (AudioProcessor.zeros MEL_BINS, 0%Z))).
  assert (H : forall s, view (fst (fold_left (fun s r => calibration_step r s) reads s))
                        = view (fst s)).
  { induction reads as [|r reads IH]; intros s; [reflexivity|].
    cbn [fold_left]. rewrite IH. destruct s as [g' [nf c]]. cbn.
    apply view_readAudioSamples. }
  specialize (H s0).
  destruct (fold_left _ reads s0) as [g' [nf c]]. cbn in H. rewrite <- H. reflexivity.
Qed.

(** The detection block changes the view as the cycle on the view says. *)
Lemma view_detect now (g : Globals F) :
  view (detect now g) =
  let q := fgeb (currentConfidence g) (lit CONFIDENCE_THRESHOLD) in
  mkView (currentState g)
         (if q then to_int (detectionCount g + 1) else detectionCount g)
         (if q then now else lastDetectionTime g)
         (lastAlertTime g) (audioMuted g) (lastProcessTime g).
Proof.
  unfold detect. cbn zeta.
  destruct (fgeb (currentConfidence g) (lit CONFIDENCE_THRESHOLD)); [|reflexivity].
  destruct (DirectionEstimator.estimateDirection _ _ _ _ _ _) as [dir de].
  reflexivity.
Qed.

Lemma view_check_alert now inp (g : Globals F) :
  let fire := ((MIN_DETECTIONS_FOR_ALERT <=? detectionCount g)
               && (ALERT_HOLDOFF_MS <=? usub now (lastAlertTime g)))%Z in
  view (fst (check_alert now inp g)) =
    mkView (if fire then STATE_ALERT else currentState g)
           (detectionCount g) (lastDetectionTime g)
           (if fire then now else lastAlertTime g)
           (audioMuted g) (lastProcessTime g) /\
  snd (check_alert now inp g) =
    (if fire then Some (if audioMuted g then HapticOnly else Audible) else None).
Proof.
  unfold check_alert. cbn zeta.
  destruct ((MIN_DETECTIONS_FOR_ALERT <=? detectionCount g)
            && (ALERT_HOLDOFF_MS <=? usub now (lastAlertTime g)))%Z.
  - cbn. destruct (audioMuted g) eqn:E; unfold view; cbn; rewrite ?E; split; reflexivity.
  - split; reflexivity.
Qed.

Lemma view_decay now (g : Globals F) :
  let dec := (DETECTION_WINDOW_MS <? usub now (lastDetectionTime g))%Z in
  view (fst (decay now g)) =
    mkView (if dec then leave_alert (currentState g) else currentState g)
           (if dec then 0%Z else detectionCount g)
           (lastDetectionTime g) (lastAlertTime g) (audioMuted g) (lastProcessTime g) /\
  snd (decay now g) = dec.
Proof.
  unfold decay. cbn zeta.
  destruct (DETECTION_WINDOW_MS <? usub now (lastDetectionTime g))%Z.
  - cbn. destruct (currentState g) eqn:E; unfold view, leave_alert; cbn; rewrite ?E;
      split; reflexivity.
  - split; reflexivity.
Qed.

Lemma view_confidence_point now inp (g : Globals F) :
  view (confidence_point now inp g) =
  mkView (currentState g) (detectionCount g) (lastDetectionTime g)
         (lastAlertTime g) (audioMuted g) now.
Proof.
  unfold confidence_point. cbn zeta.
  set (g1 := readAudioSamples (in_i2s inp) (set_lastProcessTime now g)).
  change (view (processAudio g1) = mkView (currentState g) (detectionCount g)
            (lastDetectionTime g) (lastAlertTime g) (audioMuted g) now).
  rewrite view_processAudio. unfold g1. rewrite view_readAudioSamples. reflexivity.
Qed.

Lemma view_eq_fields (g : Globals F) v :
  view g = v ->
  currentState g = v_state v /\ detectionCount g = v_count v /\
  lastDetectionTime g = v_lastDetection v /\ lastAlertTime g = v_lastAlert v /\
  audioMuted g = v_muted v /\ lastProcessTime g = v_lastProcess v.
Proof. intros <-. repeat split. Qed.

Lemma scan_case_view now inp (g : Globals F) :
  let q := fgeb (currentConfidence (confidence_point now inp g)) (lit CONFIDENCE_THRESHOLD) in
  let r := if (HOP_MS <=? usub now (lastProcessTime g))%Z
           then v_cycle now q (view g) else (view g, no_events) in
  view (fst (scan_case now inp g)) = fst r /\ snd (scan_case now inp g) = snd r.
Proof.
  cbn zeta. unfold scan_case.
  destruct (HOP_MS <=? usub now (lastProcessTime g))%Z; [|split; reflexivity].
  fold (confidence_point now inp g).
  pose proof (view_confidence_point now inp g) as Hc.
  remember (confidence_point now inp g) as gc eqn:Egc. clear Egc.
  pose proof (view_detect now gc) as Hd. cbn zeta in Hd.
  remember (fgeb (currentConfidence gc) (lit CONFIDENCE_THRESHOLD)) as q eqn:Eq.
  clear Eq.
  remember (detect now gc) as gd eqn:Egd. clear Egd.
  destruct (view_check_alert now inp gd) as (Ha & Hev).
  destruct (check_alert now inp gd) as [ga alert]. cbn [fst snd] in Ha, Hev.
  destruct (view_decay now ga) as (Hy & Hdec).
  destruct (decay now ga) as [gy dec]. cbn [fst snd] in Hy, Hdec.
  cbn [fst snd].
  apply view_eq_fields in Hc. destruct Hc as (Hc1 & Hc2 & Hc3 & Hc4 & Hc5 & Hc6).
  apply view_eq_fields in Hd. destruct Hd as (Hd1 & Hd2 & Hd3 & Hd4 & Hd5 & Hd6).
  apply view_eq_fields in Ha. destruct Ha as (Ha1 & Ha2 & Ha3 & Ha4 & Ha5 & Ha6).
  cbn [v_state v_count v_lastDetection v_lastAlert v_muted v_lastProcess] in *.
  unfold v_cycle. cbn [fst snd v_state v_count v_lastDetection v_lastAlert v_muted
                         v_lastProcess view].
  rewrite Hy, Hdec, Hev.
  rewrite ?Ha1, ?Ha2, ?Ha3, ?Ha4, ?Ha5, ?Ha6.
  rewrite ?Hd1, ?Hd2, ?Hd3, ?Hd4, ?Hd5, ?Hd6.
  rewrite ?Hc1, ?Hc2, ?Hc3, ?Hc4, ?Hc5, ?Hc6.
  split; reflexivity.
Qed.

Lemma view_alert_update now (g : Globals F) (ev : Events) :
  view (fst (let '(a, p) := AlertManager.update now (alertManager g) (gpio g) in
             (set_gpio p (set_alertManager a g), ev))) = view g /\
  snd (let '(a, p) := AlertManager.update now (alertManager g) (gpio g) in
       (set_gpio p (set_alertManager a g), ev)) = ev.
Proof.
  destruct (AlertManager.update now (alertManager g) (gpio g)); split; reflexivity.
Qed.

(** One iteration of [loop()] acts on the view as [v_loop] does, and reports
    the same events. *)
Lemma loop_view (g : Globals F) inp :
  let r := v_loop (in_time inp) (in_button inp) (battery_low inp) (qualifies g inp)
                  (view g) in
  view (fst (loop g inp)) = fst r /\ snd (loop g inp) = snd r.
Proof.
  cbn zeta. unfold loop, v_loop, qualifies, at_confidence_test. cbn zeta.
  fold (battery_low inp).
  set (now := millis (in_time inp)).
  set (g1 := handleButton (in_button inp) g).
  set (g2 := if battery_low inp then set_currentState STATE_LOW_BATTERY g1 else g1).
  fold (confidence_point now inp g2).
  assert (H2 : view g2 =
               (if battery_low inp
                then mkView STATE_LOW_BATTERY (v_count (v_button (in_button inp) (view g)))
                       (v_lastDetection (v_button (in_button inp) (view g)))
                       (v_lastAlert (v_button (in_button inp) (view g)))
                       (v_muted (v_button (in_button inp) (view g)))
                       (v_lastProcess (v_button (in_button inp) (view g)))
                else v_button (in_button inp) (view g))).
  { unfold g2, g1. rewrite <- view_handleButton.
    destruct (battery_low inp); reflexivity. }
  rewrite <- H2. clearbody g2. clear H2 g1.
  change (v_state (view g2)) with (currentState g2).
  change (v_lastProcess (view g2)) with (lastProcessTime g2).
  destruct (currentState g2) eqn:Est.
  - (* INIT *)
    destruct (view_alert_update (millis (in_update_time inp)) g2 no_events) as (-> & ->).
    split; reflexivity.
  - (* SCAN *)
    destruct (scan_case_view now inp g2) as (Hv & He).
    destruct (scan_case now inp g2) as [g3 ev]. cbn [fst snd] in Hv, He.
    destruct (view_alert_update (millis (in_update_time inp)) g3 ev) as (-> & ->).
    split; assumption.
  - (* ALERT *)
    destruct (scan_case_view now inp g2) as (Hv & He).
    destruct (scan_case now inp g2) as [g3 ev]. cbn [fst snd] in Hv, He.
    destruct (view_alert_update (millis (in_update_time inp)) g3 ev) as (-> & ->).
    split; assumption.
  - (* MONITOR *)
    destruct (view_alert_update (millis (in_update_time inp))
                (monitor_case now inp g2) no_events) as (-> & ->).
    split; [|reflexivity].
    unfold monitor_case.
    destruct (HOP_MS <=? usub now (lastProcessTime g2))%Z; [|reflexivity].
    set (g3 := readAudioSamples (in_i2s inp) (set_lastProcessTime now g2)).
    cbn [fst]. rewrite view_processAudio. unfold g3. rewrite view_readAudioSamples.
    unfold view. cbn. rewrite Est. reflexivity.
  - (* CALIBRATE *)
    destruct (view_alert_update (millis (in_update_time inp))
                (set_currentState STATE_SCAN
                   (enterCalibrationMode (in_calibration inp) g2)) no_events) as (-> & ->).
    split; [|reflexivity].
    change (view (set_currentState STATE_SCAN (enterCalibrationMode (in_calibration inp) g2)))
      with (mkView STATE_SCAN
              (v_count (view (enterCalibrationMode (in_calibration inp) g2)))
              (v_lastDetection (view (enterCalibrationMode (in_calibration inp) g2)))
              (v_lastAlert (view (enterCalibrationMode (in_calibration inp) g2)))
              (v_muted (view (enterCalibrationMode (in_calibration inp) g2)))
              (v_lastProcess (view (enterCalibrationMode (in_calibration inp) g2)))).
    rewrite view_enterCalibrationMode. reflexivity.
  - (* LOW_BATTERY *)
    destruct (view_alert_update (millis (in_update_time inp)) g2 no_events) as (-> & ->).
    split; reflexivity.
  - (* ERROR *)
    destruct (view_alert_update (millis (in_update_time inp)) g2 no_events) as (-> & ->).
    split; reflexivity.
Qed.

Lemma steps_of_times (g : Globals F) ins : map s_time (steps_of g ins) = map in_time ins.
Proof.
  revert g. induction ins as [|inp ins IH]; intros g; [reflexivity|].
  cbn. now rewrite IH.
Qed.

(** A run of [loop()] acts on the view as [v_run] does. *)
Lemma run_view ins : forall g : Globals F,
  view (fst (run g ins)) = fst (v_run (view g) (steps_of g ins)) /\
  snd (run g ins) = snd (v_run (view g) (steps_of g ins)).
Proof.
  induction ins as [|inp ins IH]; intros g; [split; reflexivity|].
  cbn [run steps_of v_run s_time s_button s_low s_qualifies].
  destruct (loop_view g inp) as (Hv & He). cbn zeta in Hv, He.
  destruct (loop g inp) as [g1 ev]. cbn [fst snd] in *.
  destruct (v_loop (in_time inp) (in_button inp) (battery_low inp) (qualifies g inp)
              (view g)) as [v1 ev']. cbn [fst snd] in *. subst v1 ev'.
  destruct (IH g1) as (IHv & IHe).
  destruct (run g1 ins) as [g2 evs]. cbn [fst snd] in *.
  destruct (v_run (view g1) (steps_of g1 ins)) as [v2 evs']. cbn [fst snd] in *.
  subst. split; reflexivity.
Qed.

End WithFloat.

(** ** Holdoff between alerts *)

Lemma usub_millis_le T0 T :
  T0 <= T -> usub (millis T) (millis T0) <= T - T0.
Proof.
  intros H. unfold usub, millis, ULONG_MOD.
  rewrite <- Zminus_mod. apply Z.mod_le; lia.
Qed.

(** An iteration triggers an alert only when the holdoff has elapsed on the
    clock since the stamped time, and then stamps its own time; otherwise the
    stamp stays. *)
Lemma v_loop_alert T b low q v :
  match ev_alert (snd (v_loop T b low q v)) with
  | Some _ =>
      ALERT_HOLDOFF_MS <= usub (millis T) (v_lastAlert v) /\
      v_lastAlert (fst (v_loop T b low q v)) = millis T
  | None => v_lastAlert (fst (v_loop T b low q v)) = v_lastAlert v
  end.
Proof.
  unfold v_loop. cbn zeta.
  set (v1 := v_button b v).
  assert (H1 : v_lastAlert v1 = v_lastAlert v).
  { unfold v1. destruct b; cbn; try reflexivity. destruct (v_state v); reflexivity. }
  set (v2 := if low then _ else v1).
  assert (H2 : v_lastAlert v2 = v_lastAlert v).
  { unfold v2. destruct low; cbn; assumption. }
  clearbody v2. clear v1 H1.
  assert (Hc : match ev_alert (snd (v_cycle (millis T) q v2)) with
               | Some _ =>
                   ALERT_HOLDOFF_MS <= usub (millis T) (v_lastAlert v) /\
                   v_lastAlert (fst (v_cycle (millis T) q v2)) = millis T
               | None => v_lastAlert (fst (v_cycle (millis T) q v2)) = v_lastAlert v
               end).
  { unfold v_cycle. cbn. rewrite H2.
    destruct (MIN_DETECTIONS_FOR_ALERT <=? _); cbn; [|reflexivity].
    destruct (ALERT_HOLDOFF_MS <=? usub (millis T) (v_lastAlert v)) eqn:E; cbn;
      [|reflexivity].
    apply Z.leb_le in E. split; [exact E|reflexivity]. }
  destruct (v_state v2); cbn [fst snd ev_alert no_events v_lastAlert]; try assumption;
    destruct (HOP_MS <=? usub (millis T) (v_lastProcess v2));
    cbn [fst snd ev_alert no_events v_lastAlert]; assumption.
Qed.

Lemma spaced_cons d t ts :
  spaced d ts -> Forall (fun u => d <= u - t) ts -> spaced d (t :: ts).
Proof.
  intros Hs HF. destruct ts as [|u ts]; [exact I|].
  cbn. split; [|exact Hs]. now inversion HF.
Qed.

(** Along a run in time order, starting with the alert stamp of true time
    [T0] not after the run, every alert is at least the holdoff after [T0],
    and the alerts are at least the holdoff apart. *)
Lemma v_run_holdoff steps : forall v T0,
  time_ordered (map s_time steps) ->
  Forall (fun s => T0 <= s_time s) steps ->
  v_lastAlert v = millis T0 ->
  Forall (fun T => ALERT_HOLDOFF_MS <= T - T0) (alert_times (snd (v_run v steps))) /\
  spaced ALERT_HOLDOFF_MS (alert_times (snd (v_run v steps))).
Proof.
  induction steps as [|s steps IH]; intros v T0 Hord Hge Hst.
  - cbn. split; constructor.
  - cbn [v_run]. pose proof (v_loop_alert (s_time s) (s_button s) (s_low s)
                               (s_qualifies s) v) as Ha.
    destruct (v_loop (s_time s) (s_button s) (s_low s) (s_qualifies s) v) as [v1 ev].
    cbn [fst snd] in Ha.
    cbn [map] in Hord. apply StronglySorted_inv in Hord. destruct Hord as (Hord & Hall).
    inversion Hge as [|? ? Hs0 Hge']; subst.
    destruct (ev_alert ev) as [k|] eqn:Eev.
    + destruct Ha as (Hhold & Hst1).
      assert (Hge1 : Forall (fun s' => s_time s <= s_time s') steps).
      { apply Forall_forall. intros s' Hin. rewrite Forall_forall in Hall.
        apply Hall. now apply in_map. }
      destruct (IH v1 (s_time s) Hord Hge1 Hst1) as (IH1 & IH2).
      destruct (v_run v1 steps) as [v2 evs]. cbn [fst snd] in *.
      unfold alert_times in *. cbn [filter snd fst map]. rewrite Eev. cbn [map fst].
      rewrite Hst in Hhold.
      pose proof (usub_millis_le T0 (s_time s) Hs0) as Hle.
      split.
      * constructor; [lia|].
        eapply Forall_impl; [|exact IH1]. cbn. intros T HT.
        unfold ALERT_HOLDOFF_MS in *. lia.
      * apply spaced_cons; assumption.
    + assert (Hst1 : v_lastAlert v1 = millis T0) by congruence.
      destruct (IH v1 T0 Hord Hge' Hst1) as (IH1 & IH2).
      destruct (v_run v1 steps) as [v2 evs]. cbn [fst snd] in *.
      unfold alert_times in *. cbn [filter snd fst map]. rewrite Eev.
      split; assumption.
Qed.

(** Whatever the stamp at the start, the alerts of a run in time order are at
    least the holdoff apart. *)
Lemma v_run_spaced steps : forall v,
  time_ordered (map s_time steps) ->
  spaced ALERT_HOLDOFF_MS (alert_times (snd (v_run v steps))).
Proof.
  induction steps as [|s steps IH]; intros v Hord.
  - exact I.
  - cbn [v_run]. pose proof (v_loop_alert (s_time s) (s_button s) (s_low s)
                               (s_qualifies s) v) as Ha.
    destruct (v_loop (s_time s) (s_button s) (s_low s) (s_qualifies s) v) as [v1 ev]
      eqn:Ev.
    cbn [fst snd] in Ha.
    cbn [map] in Hord. apply StronglySorted_inv in Hord. destruct Hord as (Hord & Hall).
    destruct (ev_alert ev) as [k|] eqn:Eev.
    + destruct Ha as (_ & Hst1).
      assert (Hge1 : Forall (fun s' => s_time s <= s_time s') steps).
      { apply Forall_forall. intros s' Hin. rewrite Forall_forall in Hall.
        apply Hall. now apply in_map. }
      destruct (v_run_holdoff steps v1 (s_time s) Hord Hge1 Hst1) as (H1 & H2).
      destruct (v_run v1 steps) as [v2 evs]. cbn [fst snd] in *.
      unfold alert_times in *. cbn [filter snd fst map]. rewrite Eev. cbn [map fst].
      apply spaced_cons; assumption.
    + specialize (IH v1 Hord).
      destruct (v_run v1 steps) as [v2 evs]. cbn [fst snd] in *.
      unfold alert_times in *. cbn [filter snd fst map]. rewrite Eev. exact IH.
Qed.

(** An iteration within the holdoff of the stamped time triggers nothing,
    whatever the detection count. *)
Lemma v_loop_within_holdoff T b low q v :
  usub (millis T) (v_lastAlert v) < ALERT_HOLDOFF_MS ->
  ev_alert (snd (v_loop T b low q v)) = None.
Proof.
  intros H. pose proof (v_loop_alert T b low q v) as Ha.
  destruct (ev_alert (snd (v_loop T b low q v))); [|reflexivity].
  destruct Ha as (Ha & _). lia.
Qed.

(** ** The detection count *)

Lemma to_int_succ x : to_int (to_int x + 1) = to_int (x + 1).
Proof.
  unfold to_int.
  replace ((x + 2 ^ 31) mod 2 ^ 32 - 2 ^ 31 + 1 + 2 ^ 31)
    with ((x + 2 ^ 31) mod 2 ^ 32 + 1) by lia.
  rewrite Zplus_mod_idemp_l. do 2 f_equal. lia.
Qed.

Lemma usub_same now : usub now now = 0.
Proof. unfold usub. now rewrite Z.sub_diag. Qed.

(** What one iteration does to the count, to the time of the last detection
    and to the state, in terms of its events. *)
Lemma v_loop_detection T b low q v :
  let r := v_loop T b low q v in
  v_count (fst r) =
    (if ev_decayed (snd r) then 0
     else if ev_qualifying (snd r) then to_int (v_count v + 1) else v_count v) /\
  v_lastDetection (fst r) =
    (if ev_qualifying (snd r) then millis T else v_lastDetection v) /\
  ev_decayed (snd r) =
    ev_processed (snd r)
    && (DETECTION_WINDOW_MS <? usub (millis T) (v_lastDetection (fst r))) /\
  (ev_decayed (snd r) = true -> v_state (fst r) = STATE_SCAN).
Proof.
  cbn zeta. unfold v_loop. cbn zeta.
  set (v1 := v_button b v).
  assert (H1 : v_count v1 = v_count v /\ v_lastDetection v1 = v_lastDetection v).
  { unfold v1. destruct b; cbn; try (split; reflexivity).
    destruct (v_state v); split; reflexivity. }
  set (v2 := if low then _ else v1).
  assert (H2 : v_count v2 = v_count v /\ v_lastDetection v2 = v_lastDetection v).
  { unfold v2. destruct low; cbn; assumption. }
  clearbody v2. clear v1 H1. destruct H2 as (Hc & Hd).
  assert (Hidle : forall v', v_count v' = v_count v2 ->
                             v_lastDetection v' = v_lastDetection v2 ->
            v_count v' = (if ev_decayed no_events then 0
                          else if ev_qualifying no_events then to_int (v_count v + 1)
                               else v_count v) /\
            v_lastDetection v' = (if ev_qualifying no_events then millis T
                                  else v_lastDetection v) /\
            ev_decayed no_events =
              ev_processed no_events
              && (DETECTION_WINDOW_MS <? usub (millis T) (v_lastDetection v')) /\
            (ev_decayed no_events = true -> v_state v' = STATE_SCAN)).
  { intros v' Hc' Hd'. cbn. repeat split; try congruence; try discriminate. }
  assert (Hcyc : forall st, st = STATE_SCAN \/ st = STATE_ALERT -> v_state v2 = st ->
            let r := v_cycle (millis T) q v2 in
            v_count (fst r) =
              (if ev_decayed (snd r) then 0
               else if ev_qualifying (snd r) then to_int (v_count v + 1) else v_count v) /\
            v_lastDetection (fst r) =
              (if ev_qualifying (snd r) then millis T else v_lastDetection v) /\
            ev_decayed (snd r) =
              ev_processed (snd r)
              && (DETECTION_WINDOW_MS <? usub (millis T) (v_lastDetection (fst r))) /\
            (ev_decayed (snd r) = true -> v_state (fst r) = STATE_SCAN)).
  { intros st Hst Est. unfold v_cycle. cbn. rewrite Hc, Hd, Est.
    destruct q.
    - rewrite usub_same. cbn. repeat split; try discriminate.
    - destruct (DETECTION_WINDOW_MS <? usub (millis T) (v_lastDetection v)) eqn:E;
        cbn; repeat split; try discriminate.
      intros _.
      destruct ((MIN_DETECTIONS_FOR_ALERT <=? v_count v)
                && (ALERT_HOLDOFF_MS <=? usub (millis T) (v_lastAlert v2)));
        [reflexivity|].
      destruct Hst as [-> | ->]; reflexivity. }
  destruct (v_state v2) eqn:Est; cbn [fst snd];
    try (apply Hidle; reflexivity).
  - destruct (HOP_MS <=? usub (millis T) (v_lastProcess v2)).
    + apply (Hcyc STATE_SCAN); [now left|reflexivity].
    + apply Hidle; reflexivity.
  - destruct (HOP_MS <=? usub (millis T) (v_lastProcess v2)).
    + apply (Hcyc STATE_ALERT); [now right|reflexivity].
    + apply Hidle; reflexivity.
  - destruct (HOP_MS <=? usub (millis T) (v_lastProcess v2)); apply Hidle; reflexivity.
Qed.

(** Along a run the count is the number of qualifying cycles since the last
    reset, as a 32-bit [int]. *)
Lemma v_run_count steps : forall v n,
  v_count v = to_int (Z.of_nat n) ->
  v_count (fst (v_run v steps)) =
  to_int (Z.of_nat (count_events n (snd (v_run v steps)))).
Proof.
  induction steps as [|s steps IH]; intros v n Hv; [exact Hv|].
  cbn [v_run].
  destruct (v_loop_detection (s_time s) (s_button s) (s_low s) (s_qualifies s) v)
    as (Hc & _). cbn zeta in Hc.
  destruct (v_loop (s_time s) (s_button s) (s_low s) (s_qualifies s) v) as [v1 ev].
  cbn [fst snd] in Hc.
  set (n1 := if ev_decayed ev then O else if ev_qualifying ev then S n else n).
  assert (H1 : v_count v1 = to_int (Z.of_nat n1)).
  { rewrite Hc. unfold n1. destruct (ev_decayed ev); [reflexivity|].
    destruct (ev_qualifying ev); [|exact Hv].
    rewrite Hv, to_int_succ. f_equal. lia. }
  specialize (IH v1 n1 H1).
  destruct (v_run v1 steps) as [v2 evs]. cbn [fst snd] in *.
  rewrite IH. reflexivity.
Qed.

Lemma to_int_small n :
  MIN_DETECTIONS_FOR_ALERT <= to_int (Z.of_nat n) -> (3 <= n)%nat.
Proof.
  destruct n as [|[|[|n]]]; cbn; unfold MIN_DETECTIONS_FOR_ALERT; lia.
Qed.

Section Theorems.
Context {F : Type} {FO : FloatOps F} {LM : Libm F} {FFT : ArduinoFFT F}.

(** C1. Along every run of [loop()] in time order, two alert triggers are at
    least ALERT_HOLDOFF_MS apart; and from the state the run reaches, an
    iteration that triggers stamps its clock reading in [lastAlertTime],
    while an iteration whose clock reading is less than ALERT_HOLDOFF_MS
    after the stamp triggers nothing, whatever the detection count. *)
Theorem alert_holdoff :
  forall (g : Globals F) (ins : list (LoopInput F)),
    time_ordered (map in_time ins) ->
    spaced ALERT_HOLDOFF_MS (alert_times (snd (run g ins))) /\
    forall inp : LoopInput F,
      let now := millis (in_time inp) in
      let r := loop (fst (run g ins)) inp in
      (ev_alert (snd r) <> None -> lastAlertTime (fst r) = now) /\
      (usub now (lastAlertTime (fst (run g ins))) < ALERT_HOLDOFF_MS ->
       ev_alert (snd r) = None).
Proof.
  intros g ins Hord. split.
  - destruct (run_view ins g) as (_ & He). rewrite He.
    apply v_run_spaced. now rewrite steps_of_times.
  - intros inp now r. set (g1 := fst (run g ins)) in *.
    destruct (loop_view g1 inp) as (Hv & He). cbn zeta in Hv, He. fold r in Hv, He.
    pose proof (v_loop_alert (in_time inp) (in_button inp) (battery_low inp)
                  (qualifies g1 inp) (view g1)) as Ha.
    rewrite <- He, <- Hv in Ha. split.
    + intros Hne. destruct (ev_alert (snd r)); [|congruence].
      destruct Ha as (_ & Ha). exact Ha.
    + intros Hlt. rewrite He. apply v_loop_within_holdoff. exact Hlt.
Qed.

(** What [loop()] does with the count.  From a count of zero, after every
    run the detection count is the number of qualifying cycles since the
    count was last reset (as an [int]); no window of time enters.  An
    iteration stamps [lastDetectionTime] before it tests the decay, so the
    test of a qualifying cycle sees an elapsed time of zero: the count is
    reset exactly at a processed cycle at which more than
    DETECTION_WINDOW_MS have passed on the clock since the stamp as that
    cycle leaves it. *)
Lemma detection_count_and_decay :
  forall (g : Globals F) (ins : list (LoopInput F)),
    detectionCount g = 0 ->
    let g1 := fst (run g ins) in
    let evs := snd (run g ins) in
    detectionCount g1 = to_int (Z.of_nat (qualifying_since_reset evs)) /\
    (MIN_DETECTIONS_FOR_ALERT <= detectionCount g1 ->
     (3 <= qualifying_since_reset evs)%nat) /\
    forall inp : LoopInput F,
      let now := millis (in_time inp) in
      let r := loop g1 inp in
      lastDetectionTime (fst r) =
        (if ev_qualifying (snd r) then now else lastDetectionTime g1) /\
      ev_decayed (snd r) =
        ev_processed (snd r)
        && (DETECTION_WINDOW_MS <? usub now (lastDetectionTime (fst r))) /\
      (ev_decayed (snd r) = true ->
       detectionCount (fst r) = 0 /\ currentState (fst r) = STATE_SCAN).
Proof.
  intros g ins H0 g1 evs.
  assert (Hcount : detectionCount g1 = to_int (Z.of_nat (qualifying_since_reset evs))).
  { destruct (run_view ins g) as (Hv & He). unfold g1, evs. rewrite He.
    change (detectionCount (fst (run g ins))) with (v_count (view (fst (run g ins)))).
    rewrite Hv. apply v_run_count. cbn. exact H0. }
  split; [exact Hcount|]. split.
  - rewrite Hcount. apply to_int_small.
  - intros inp now r.
    destruct (loop_view g1 inp) as (Hv & He). cbn zeta in Hv, He. fold r in Hv, He.
    destruct (v_loop_detection (in_time inp) (in_button inp) (battery_low inp)
                (qualifies g1 inp) (view g1)) as (Hc & Hd & Hdec & Hst).
    cbn zeta in Hc, Hd, Hdec, Hst. rewrite <- He, <- Hv in Hc, Hd, Hdec, Hst.
    split; [exact Hd|]. split; [exact Hdec|].
    intros Hy. split; [|now apply Hst].
    change (detectionCount (fst r)) with (v_count (view (fst r))).
    rewrite Hc, Hy. reflexivity.
Qed.

End Theorems.

End OrchestratorFacts.

(* ===================================================================== *)
(** * Scenarios: runs of the orchestrator from [setup()] *)
(* ===================================================================== *)

Module ScenarioFacts.
Import Scenario.
Import Machine Config Main Orchestrator Real OrchestratorFacts.

(** ** The model flag along a run (any arithmetic) *)

Section WithFloat.
Context {F : Type} {FO : FloatOps F} {LM : Libm F} {FFT : ArduinoFFT F}.

Lemma kept_refl (g : Globals F) : kept g g.
Proof. repeat split. Qed.

Lemma kept_trans (g1 g2 g3 : Globals F) : kept g1 g2 -> kept g2 g3 -> kept g1 g3.
Proof. unfold kept. intros (?&?&?) (?&?&?). repeat split; congruence. Qed.

Lemma kept_readAudioSamples r (g : Globals F) : kept g (readAudioSamples r g).
Proof.
  destruct r as [[n l]|]; [|repeat split].
  unfold readAudioSamples. destruct (0 <? n)%Z; repeat split.
Qed.

Lemma kept_handleButton b (g : Globals F) : kept g (handleButton b g).
Proof.
  destruct b; try (repeat split; fail). cbn.
  destruct (currentState g); repeat split.
Qed.

Lemma kept_enterCalibrationMode reads (g : Globals F) :
  kept g (enterCalibrationMode reads g).
Proof.
  unfold enterCalibrationMode.
  set (s0 := (g, (AudioProcessor.zeros MEL_BINS, 0%Z))).
  assert (H : forall s, kept (fst s)
                          (fst (fold_left (fun s r => calibration_step r s) reads s))).
  { induction reads as [|r reads IH]; intros s; [apply kept_refl|].
    cbn [fold_left]. eapply kept_trans; [|apply IH]. destruct s as [g' [nf c]]. cbn.
    apply kept_readAudioSamples. }
  specialize (H s0).
  destruct (fold_left _ reads s0) as [g' [nf c]]. cbn in H.
  destruct H as (?&?&?). repeat split; assumption.
Qed.

Lemma kept_detect now (g : Globals F) : kept g (detect now g).
Proof.
  unfold detect.
  destruct (fgeb (currentConfidence g) (lit CONFIDENCE_THRESHOLD)); [|apply kept_refl].
  destruct (DirectionEstimator.estimateDirection _ _ _ _ _ _); repeat split.
Qed.

Lemma kept_check_alert now inp (g : Globals F) : kept g (fst (check_alert now inp g)).
Proof.
  unfold check_alert.
  destruct ((MIN_DETECTIONS_FOR_ALERT <=? detectionCount g)
            && (ALERT_HOLDOFF_MS <=? usub now (lastAlertTime g))); [|apply kept_refl].
  cbn. destruct (audioMuted g); repeat split.
Qed.

Lemma kept_decay now (g : Globals F) : kept g (fst (decay now g)).
Proof.
  unfold decay.
  destruct (DETECTION_WINDOW_MS <? usub now (lastDetectionTime g)); [|apply kept_refl].
  cbn. destruct (currentState g); repeat split.
Qed.

Lemma scan_case_frames now inp (g : Globals F) :
  at_most_one_frame g (fst (scan_case now inp g)).
Proof.
  unfold scan_case.
  destruct (HOP_MS <=? usub now (lastProcessTime g)); [|left; apply kept_refl].
  right. exists (readAudioSamples (in_i2s inp) (set_lastProcessTime now g)).
  split.
  { eapply kept_trans; [|apply kept_readAudioSamples]. repeat split. }
  fold (confidence_point now inp g).
  assert (Hc : kept (processAudio (readAudioSamples (in_i2s inp) (set_lastProcessTime now g)))
                    (confidence_point now inp g)) by (repeat split).
  set (gc := confidence_point now inp g) in *. clearbody gc.
  pose proof (kept_detect now gc) as Hd.
  set (gd := detect now gc) in *. clearbody gd.
  pose proof (kept_check_alert now inp gd) as Ha.
  destruct (check_alert now inp gd) as [ga alert]. cbn [fst] in Ha.
  pose proof (kept_decay now ga) as Hy.
  destruct (decay now ga) as [gy dec]. cbn [fst] in *.
  eauto using kept_trans.
Qed.

Lemma loop_frames (g : Globals F) inp : at_most_one_frame g (fst (loop g inp)).
Proof.
  unfold loop. cbn zeta.
  set (g1 := handleButton (in_button inp) g).
  set (g2 := if fltb _ _ then set_currentState STATE_LOW_BATTERY g1 else g1).
  assert (H2 : kept g g2).
  { unfold g2. destruct (fltb _ _).
    - eapply kept_trans; [apply kept_handleButton|]. repeat split.
    - apply kept_handleButton. }
  clearbody g2. clear g1.
  assert (Htail : forall (g3 : Globals F) (ev : Events),
             at_most_one_frame g g3 ->
             at_most_one_frame g
               (fst (let '(a, p) := AlertManager.update (millis (in_update_time inp))
                                      (alertManager g3) (gpio g3) in
                     (set_gpio p (set_alertManager a g3), ev)))).
  { intros g3 ev H3.
    destruct (AlertManager.update _ (alertManager g3) (gpio g3)) as [a p]. cbn [fst].
    assert (Hk : kept g3 (set_gpio p (set_alertManager a g3))) by (repeat split).
    destruct H3 as [H3|(g' & H3 & H4)]; [left|right; exists g'; split; [exact H3|]];
      eauto using kept_trans. }
  assert (Hscan : at_most_one_frame g (fst (scan_case (millis (in_time inp)) inp g2))).
  { destruct (scan_case_frames (millis (in_time inp)) inp g2) as [H|(g' & H3 & H4)].
    - left. eauto using kept_trans.
    - right. exists g'. split; eauto using kept_trans. }
  destruct (currentState g2) eqn:Est.
  - apply Htail. left. exact H2.
  - destruct (scan_case (millis (in_time inp)) inp g2) as [g3 ev].
    apply Htail. exact Hscan.
  - destruct (scan_case (millis (in_time inp)) inp g2) as [g3 ev].
    apply Htail. exact Hscan.
  - apply Htail. unfold monitor_case.
    destruct (HOP_MS <=? usub (millis (in_time inp)) (lastProcessTime g2)); [|left; exact H2].
    right.
    exists (readAudioSamples (in_i2s inp) (set_lastProcessTime (millis (in_time inp)) g2)).
    split; [|apply kept_refl].
    eapply kept_trans; [exact H2|].
    eapply kept_trans; [|apply kept_readAudioSamples]. repeat split.
  - apply Htail. left.
    eapply kept_trans; [exact H2|].
    eapply kept_trans; [apply kept_enterCalibrationMode|]. repeat split.
  - apply Htail. left. exact H2.
  - apply Htail. left. exact H2.
Qed.

Lemma modelLoaded_handleButton b (g : Globals F) :
  modelLoaded (handleButton b g) = modelLoaded g.
Proof. apply kept_handleButton. Qed.

Lemma modelLoaded_readAudioSamples r (g : Globals F) :
  modelLoaded (readAudioSamples r g) = modelLoaded g.
Proof. apply kept_readAudioSamples. Qed.

Lemma modelLoaded_loop (g : Globals F) inp :
  modelLoaded (fst (loop g inp)) = modelLoaded g.
Proof.
  destruct (loop_frames g inp) as [(H & _)|(g3 & (H3 & _) & (H4 & _))]; [exact H|].
  rewrite H4. exact H3.
Qed.

(** Every run of [loop()] feeds the rolling buffer by [processAudio()] only. *)
Lemma loop_Fed (g : Globals F) inp frames :
  RollingBuffer.Fed g frames ->
  exists more, RollingBuffer.Fed (fst (loop g inp)) (frames ++ more).
Proof.
  intros HF.
  destruct (loop_frames g inp) as [(_ & Hb & Hi)|(g3 & (_ & Hb & Hi) & (_ & Hb' & Hi'))].
  - exists []. rewrite app_nil_r. eapply RollingBuffer.Fed_other; eassumption.
  - exists [RollingBuffer.mel_frame g3].
    eapply RollingBuffer.Fed_other; [|exact Hb'|exact Hi'].
    apply RollingBuffer.Fed_append.
    eapply RollingBuffer.Fed_other; eassumption.
Qed.

Lemma run_Fed ins : forall (g : Globals F) frames,
  RollingBuffer.Fed g frames ->
  exists more, RollingBuffer.Fed (fst (run g ins)) (frames ++ more).
Proof.
  induction ins as [|inp ins IH]; intros g frames HF.
  - exists []. rewrite app_nil_r. exact HF.
  - cbn [run].
    destruct (loop_Fed g inp frames HF) as (m1 & H1).
    destruct (loop g inp) as [g1 ev]. cbn [fst] in H1.
    destruct (IH g1 _ H1) as (m2 & H2).
    destruct (run g1 ins) as [g2 evs]. cbn [fst] in *.
    exists (m1 ++ m2). rewrite app_assoc. exact H2.
Qed.

(** With a loaded model, the confidence of a cycle is the score the
    interpreter leaves for the target class. *)
Lemma confidence_of_scores (g : Globals F) inp scores :
  modelLoaded g = true ->
  (forall tensor, in_invoke inp tensor = Some scores) ->
  qualifies g inp = fgeb (aget scores DRONE_CLASS_INDEX) (lit CONFIDENCE_THRESHOLD).
Proof.
  intros Hm Hinv. unfold qualifies, at_confidence_test. cbn zeta.
  set (g1 := handleButton (in_button inp) g).
  set (g2 := if battery_low inp then set_currentState STATE_LOW_BATTERY g1 else g1).
  set (g3 := readAudioSamples (in_i2s inp) (set_lastProcessTime (millis (in_time inp)) g2)).
  assert (H3 : modelLoaded (processAudio g3) = true).
  { change (modelLoaded g3 = true). unfold g3.
    rewrite modelLoaded_readAudioSamples.
    change (modelLoaded g2 = true). unfold g2.
    destruct (battery_low inp); cbn; unfold g1;
      now rewrite modelLoaded_handleButton. }
  change (fgeb (runInference (in_invoke inp) (processAudio g3)) (lit CONFIDENCE_THRESHOLD)
          = fgeb (aget scores DRONE_CLASS_INDEX) (lit CONFIDENCE_THRESHOLD)).
  unfold runInference. rewrite H3, Hinv. reflexivity.
Qed.

(** [setup()] succeeds, and leaves the detection state and the rolling buffer
    zeroed. *)
Lemma setup_state modelOk (p : GPIO) :
  exists g0 : Globals F,
    setup modelOk p = Some g0 /\
    view g0 = mkView STATE_SCAN 0 0 0 false 0 /\
    modelLoaded g0 = modelOk /\
    melSpectrogram g0 = AudioProcessor.zeros (MEL_BINS * SPEC_TIME_FRAMES) /\
    spectrogramIndex g0 = 0.
Proof.
  unfold setup.
  destruct (MelSpectrogramFacts.begin_succeeds (F:=F) SAMPLE_RATE FFT_SIZE MEL_BINS) as (ap & ->).
  destruct (AlertManager.begin BUZZER_PIN VIBRATION_PIN AlertManager.init p) as [am p'].
  eexists. split; [reflexivity|]. repeat split.
Qed.

End WithFloat.

(** ** Scripted runs in exact arithmetic *)

Local Open Scope R_scope.

Lemma cycle_battery Th : battery_low (cycle_input Th) = false.
Proof.
  unfold battery_low, readBatteryVoltage. cbn [in_adc cycle_input].
  cbn [fltb fmul fdiv of_int lit real_ops]. apply DirectionFacts.Rltb_false.
  unfold BATTERY_CRITICAL_VOLTAGE, BATTERY_DIVIDER, Q2R; cbn [Qnum Qden]. lra.
Qed.

Lemma cycle_qualifies (g : Globals R) Th :
  modelLoaded g = true -> qualifies g (cycle_input Th) = snd Th.
Proof.
  intros Hm.
  rewrite (confidence_of_scores g (cycle_input Th) [0.5; if snd Th then 0.9 else 0.1] Hm)
    by reflexivity.
  unfold fgeb. cbn [fleb lit real_ops].
  change (aget [0.5; if snd Th then 0.9 else 0.1] DRONE_CLASS_INDEX)
    with (if snd Th then 0.9 else 0.1).
  unfold CONFIDENCE_THRESHOLD, Q2R; cbn [Qnum Qden].
  destruct (snd Th).
  - apply DirectionFacts.Rleb_true. lra.
  - apply DirectionFacts.Rleb_false. lra.
Qed.

Lemma steps_of_script script : forall g : Globals R,
  modelLoaded g = true ->
  steps_of g (map cycle_input script) = map step_of script.
Proof.
  induction script as [|Th script IH]; intros g Hm; [reflexivity|].
  cbn [map steps_of]. rewrite cycle_battery, cycle_qualifies by assumption.
  f_equal. apply IH. now rewrite modelLoaded_loop.
Qed.

(** A scripted run acts on the view as the run of its steps. *)
Lemma run_script script (g : Globals R) :
  modelLoaded g = true ->
  view (fst (run g (map cycle_input script))) = fst (v_run (view g) (map step_of script)) /\
  snd (run g (map cycle_input script)) = snd (v_run (view g) (map step_of script)).
Proof.
  intros Hm. rewrite <- (steps_of_script script g Hm). apply run_view.
Qed.

(** ** Three detections, each within a window of the one before *)

(** C2. The count keeps no rolling window.  From [setup()], the run
    [sparse_hits] brings the detection count to MIN_DETECTIONS_FOR_ALERT
    although its qualifying cycles, at 1000, 4900 and 8800 ms, span 7800 ms:
    no window of DETECTION_WINDOW_MS holds more than two of them, and no
    cycle of the run resets the count. *)
Lemma detections_span_two_windows :
  exists g0 : Globals R,
    setup true (fun _ => LOW) = Some g0 /\
    detectionCount (fst (run g0 (map cycle_input sparse_hits)))
      = MIN_DETECTIONS_FOR_ALERT /\
    qualifying_times (snd (run g0 (map cycle_input sparse_hits)))
      = [1000; 4900; 8800]%Z /\
    most_in_window DETECTION_WINDOW_MS
      (qualifying_times (snd (run g0 (map cycle_input sparse_hits)))) = 2%nat /\
    filter (fun te => ev_decayed (snd te)) (snd (run g0 (map cycle_input sparse_hits)))
      = [].
Proof.
  destruct (setup_state (F:=R) true (fun _ => LOW)) as (g0 & Hs & Hv & Hm & _).
  exists g0. split; [exact Hs|].
  destruct (run_script sparse_hits g0 Hm) as (Hrv & Hre).
  rewrite Hre.
  change (detectionCount (fst (run g0 (map cycle_input sparse_hits))))
    with (v_count (view (fst (run g0 (map cycle_input sparse_hits))))).
  rewrite Hrv, Hv.
  repeat split; vm_compute; reflexivity.
Qed.

(** ** A stale count that no cycle resets *)

Lemma calibrate_battery T : battery_low (calibrate_input T) = false.
Proof. exact (cycle_battery (T, false)). Qed.

Lemma calibrate_qualifies (g : Globals R) T :
  modelLoaded g = true -> qualifies g (calibrate_input T) = false.
Proof.
  intros Hm.
  rewrite (confidence_of_scores g (calibrate_input T) [0.5; 0.1] Hm) by reflexivity.
  unfold fgeb. cbn [fleb lit real_ops].
  change (aget [0.5; 0.1] DRONE_CLASS_INDEX) with 0.1.
  unfold CONFIDENCE_THRESHOLD, Q2R; cbn [Qnum Qden].
  apply DirectionFacts.Rleb_false. lra.
Qed.

Lemma steps_across_calibration (g : Globals R) :
  modelLoaded g = true ->
  steps_of g across_calibration =
    [mkStep 5000 NoAction false true; mkStep 5100 NoAction false true;
     mkStep 5200 LongPress false false; mkStep 37200 NoAction false true]%Z.
Proof.
  intros Hm. unfold across_calibration. cbn [steps_of].
  set (g1 := fst (loop g (cycle_input (5000%Z, true)))).
  assert (H1 : modelLoaded g1 = true) by (unfold g1; now rewrite modelLoaded_loop).
  set (g2 := fst (loop g1 (cycle_input (5100%Z, true)))).
  assert (H2 : modelLoaded g2 = true) by (unfold g2; now rewrite modelLoaded_loop).
  set (g3 := fst (loop g2 (calibrate_input 5200))).
  assert (H3 : modelLoaded g3 = true) by (unfold g3; now rewrite modelLoaded_loop).
  rewrite !cycle_battery, calibrate_battery.
  rewrite (cycle_qualifies g _ Hm), (cycle_qualifies g1 _ H1),
          (calibrate_qualifies g2 _ H2), (cycle_qualifies g3 _ H3).
  reflexivity.
Qed.

(** The decay test comes after the stamp.  From [setup()], in the run
    [across_calibration] the third qualifying cycle comes 32100 ms after the
    second, more than DETECTION_WINDOW_MS, with no processed cycle in
    between; it brings the count to MIN_DETECTIONS_FOR_ALERT and starts the
    alert, and no cycle of the run resets the count. *)
Lemma stale_count_survives_calibration :
  exists g0 : Globals R,
    setup true (fun _ => LOW) = Some g0 /\
    qualifying_times (snd (run g0 across_calibration)) = [5000; 5100; 37200]%Z /\
    detectionCount (fst (run g0 across_calibration)) = MIN_DETECTIONS_FOR_ALERT /\
    alert_times (snd (run g0 across_calibration)) = [37200]%Z /\
    filter (fun te => ev_decayed (snd te)) (snd (run g0 across_calibration)) = [].
Proof.
  destruct (setup_state (F:=R) true (fun _ => LOW)) as (g0 & Hs & Hv & Hm & _).
  exists g0. split; [exact Hs|].
  destruct (run_view across_calibration g0) as (Hrv & Hre).
  rewrite (steps_across_calibration g0 Hm) in Hrv, Hre.
  rewrite Hre.
  change (detectionCount (fst (run g0 across_calibration)))
    with (v_count (view (fst (run g0 across_calibration)))).
  rewrite Hrv, Hv.
  repeat split; vm_compute; reflexivity.
Qed.

(** ** Instances of the theorems on runs from [setup()] *)

Lemma steady_hits_ordered : time_ordered (map in_time (map cycle_input steady_hits)).
Proof.
  change (time_ordered [0; 500; 1000; 1500; 2000; 2500; 3000; 3500; 4000; 4500]%Z).
  unfold time_ordered.
  repeat first [apply SSorted_nil | apply SSorted_cons | apply Forall_nil
               | apply Forall_cons]; lia.
Defined.

(** The run [steady_hits] alerts at 2000 and at 4000 ms: the hold-off also
    runs from boot, where [lastAlertTime] is 0. *)
Lemma steady_hits_alerts :
  exists g0 : Globals R,
    setup true (fun _ => LOW) = Some g0 /\
    alert_times (snd (run g0 (map cycle_input steady_hits))) = [2000; 4000]%Z.
Proof.
  destruct (setup_state (F:=R) true (fun _ => LOW)) as (g0 & Hs & Hv & Hm & _).
  exists g0. split; [exact Hs|].
  destruct (run_script steady_hits g0 Hm) as (_ & Hre).
  rewrite Hre, Hv. vm_compute. reflexivity.
Qed.

Lemma alert_holdoff_witness :
  exists g0 : Globals R,
    setup true (fun _ => LOW) = Some g0 /\
    time_ordered (map in_time (map cycle_input steady_hits)) /\
    spaced ALERT_HOLDOFF_MS (alert_times (snd (run g0 (map cycle_input steady_hits)))).
Proof.
  destruct (setup_state (F:=R) true (fun _ => LOW)) as (g0 & Hs & _).
  exists g0. split; [exact Hs|]. split; [exact steady_hits_ordered|].
  exact (proj1 (alert_holdoff g0 (map cycle_input steady_hits) steady_hits_ordered)).
Defined.


(** A frame of four samples for an 8-point transform and two bands. *)
Lemma mel_spectrogram_band_witness :
  (0 <= 4 <= 8)%Z /\ (0 <= 1 < 2)%Z /\
  (2 <= Z.of_nat (length (AudioProcessor.zeros (F:=R) 2)))%Z /\
  aget (AudioProcessor.computeMelSpectrogram
          (AudioProcessor.mk 8000 8 2 (repeat 1 10) (AudioProcessor.zeros 2)
             (AudioProcessor.createHannWindow 8 (AudioProcessor.zeros 8)))
          [1; 2; 3; 4] 4 (AudioProcessor.zeros 2)) 1
  = MelSpectrogram.mel_band 8 (repeat 1 10) (AudioProcessor.zeros 2) [1; 2; 3; 4] 4 1.
Proof.
  assert (H1 : (0 <= 4 <= 8)%Z) by lia.
  assert (H2 : (0 <= 1 < 2)%Z) by lia.
  assert (H3 : (2 <= Z.of_nat (length (AudioProcessor.zeros (F:=R) 2)))%Z)
    by (unfold AudioProcessor.zeros; rewrite repeat_length; lia).
  split; [exact H1|]. split; [exact H2|]. split; [exact H3|].
  exact (proj1 (MelSpectrogramFacts.mel_spectrogram_band 8000 8 2 (repeat 1 10)
                  (AudioProcessor.zeros 2) [1; 2; 3; 4] 4
                  (AudioProcessor.zeros 2) 1 H1 H2 H3)).
Defined.

End ScenarioFacts.

(* ===================================================================== *)
(** * Alert Actuator: haptic sessions, expiry for good, the tone player *)
(* ===================================================================== *)

Section AlertOutputs.
Import Machine AlertManager.

Lemma digitalWrite_other p q v g : p <> q -> digitalWrite q v g p = g p.
Proof. intros H. unfold digitalWrite. apply Z.eqb_neq in H. now rewrite H. Qed.

Lemma update_pins now a g b v :
  pins b v a -> pins b v (fst (update now a g)).
Proof.
  unfold pins, update, stopAlert. intros (Hb & Hv).
  repeat match goal with |- context [if ?c then _ else _] => destruct c end;
    cbn; auto.
Qed.

(** One [update()] never drives the buzzer HIGH while [_hapticOnly] is set. *)
Lemma update_silent now a g :
  _buzzerPin a <> _vibrationPin a -> silent a g ->
  silent (fst (update now a g)) (snd (update now a g)).
Proof.
  unfold silent, update, stopAlert. intros Hne (Hh & Hb).
  destruct (negb (_alertActive a)); [auto|].
  destruct ((0 <? _alertDuration a)
            && (to_ulong (_alertDuration a) <=? usub now (_alertStartTime a))).
  { cbn. split; [exact Hh|].
    rewrite digitalWrite_other by exact Hne. apply digitalWrite_same. }
  destruct (to_ulong (if _pulseState a then _pulseOnTime a else _pulseOffTime a)
            <=? usub now (_lastPulseTime a)); [|auto].
  destruct (_pulseState a); cbn; rewrite ?Hh; cbn; (split; [reflexivity || exact Hh|]);
    rewrite digitalWrite_other by exact Hne; auto using digitalWrite_same.
Qed.

Lemma updates_silent nows : forall a g b v,
  b <> v -> pins b v a -> silent a g ->
  pins b v (fst (updates nows (a, g))) /\
  silent (fst (updates nows (a, g))) (snd (updates nows (a, g))).
Proof.
  induction nows as [|now nows IH]; intros a g b v Hne Hp Hs; [cbn; auto|].
  cbn [updates fold_left fst snd].
  destruct (update now a g) as [a1 g1] eqn:E.
  apply (IH a1 g1 b v Hne).
  - pose proof (update_pins now a g b v Hp) as H. now rewrite E in H.
  - pose proof (update_silent now a g) as H. rewrite E in H. apply H; [|exact Hs].
    destruct Hp as (-> & ->). exact Hne.
Qed.

(** One [update()] of a live session keeps the vibration output equal to the
    phase, in both kinds of session. *)
Lemma update_live_vibration haptic d t0 onMs offMs now a g :
  0 <= onMs < ULONG_MOD -> 0 <= offMs < ULONG_MOD ->
  session haptic d t0 onMs offMs a -> ~ expired d t0 now ->
  vibration_follows_phase a g ->
  vibration_follows_phase (fst (update now a g)) (snd (update now a g)).
Proof.
  intros Hon Hoff (Hact & Hh & Hst & Hd & Hpon & Hpoff) Hne Hv.
  unfold vibration_follows_phase in *. unfold update.
  rewrite Hact; cbn [negb]. rewrite Hst, Hd.
  destruct ((0 <? d) && (to_ulong d <=? usub now t0)) eqn:E.
  { apply expiry_test in E. contradiction. }
  destruct (to_ulong (if _pulseState a then _pulseOnTime a else _pulseOffTime a)
            <=? usub now (_lastPulseTime a)); [|exact Hv].
  destruct (_pulseState a); cbn; auto using digitalWrite_same.
Qed.

Lemma updates_live_vibration haptic d t0 onMs offMs nows :
  0 <= onMs < ULONG_MOD -> 0 <= offMs < ULONG_MOD ->
  Forall (fun now => ~ expired d t0 now) nows ->
  forall s, session haptic d t0 onMs offMs (fst s) ->
  vibration_follows_phase (fst s) (snd s) ->
  vibration_follows_phase (fst (updates nows s)) (snd (updates nows s)).
Proof.
  intros Hon Hoff HF. induction HF as [|now nows Hn _ IH]; intros s Hs Hv.
  - exact Hv.
  - cbn [updates fold_left]. apply IH.
    + now apply (update_live haptic d t0 onMs offMs now (fst s) (snd s)).
    + now apply (update_live_vibration haptic d t0 onMs offMs).
Qed.

(** With no alert active, [update()] does nothing. *)
Lemma updates_idle nows : forall a g,
  _alertActive a = false -> updates nows (a, g) = (a, g).
Proof.
  induction nows as [|now nows IH]; intros a g Ha; [reflexivity|].
  change (updates (now :: nows) (a, g)) with (updates nows (update now a g)).
  assert (E : update now a g = (a, g)) by (unfold update; now rewrite Ha).
  rewrite E. now apply IH.
Qed.

Lemma playPattern_pairs pattern length a s :
  playPattern pattern length a s = play_pairs pattern (Z.to_nat ((length + 1) / 2)) a s.
Proof.
  unfold playPattern, play_pairs, for_loop, zrange. now rewrite Z.sub_0_r.
Qed.

Lemma play_pairs_S pattern n a s :
  play_pairs pattern (S n) a s =
  match play_pairs pattern n a s with
  | None => None
  | Some s' =>
      match nth_error pattern (2 * n), nth_error pattern (2 * n + 1) with
      | Some freq, Some dur =>
          if 0 <? freq then Some (playTone freq dur a s')
          else Some (fst s' ++ [Pause (to_ulong dur)], snd s')
      | _, _ => None
      end
  end.
Proof.
  unfold play_pairs. rewrite seq_S, map_app, fold_left_app. cbn [map fold_left].
  replace (Z.to_nat (2 * (0 + Z.of_nat (0 + n)))) with (2 * n)%nat by lia.
  replace (Z.to_nat (2 * (0 + Z.of_nat (0 + n)) + 1)) with (2 * n + 1)%nat by lia.
  reflexivity.
Qed.

Lemma sounds_of_firstn_S pattern n freq dur :
  nth_error pattern (2 * n) = Some freq ->
  nth_error pattern (2 * n + 1) = Some dur ->
  sounds_of (firstn (2 * S n) pattern) =
  sounds_of (firstn (2 * n) pattern)
    ++ [if 0 <? freq then Tone freq (to_ulong dur) else Pause (to_ulong dur)].
Proof.
  revert pattern. induction n as [|n IH]; intros pattern Hf Hd.
  - destruct pattern as [|x [|y rest]]; cbn in Hf, Hd; try discriminate.
    injection Hf as ->. injection Hd as ->. reflexivity.
  - assert (E : forall k, (2 * S k = S (S (2 * k)))%nat) by (intros; lia).
    rewrite E in Hf, Hd.
    destruct pattern as [|x [|y rest]]; try discriminate.
    rewrite (E (S n)).
    change (firstn (S (S (2 * S n))) (x :: y :: rest))
      with (x :: y :: firstn (2 * S n) rest).
    replace (firstn (2 * S n) (x :: y :: rest))
      with (x :: y :: firstn (2 * n) rest) by (rewrite (E n); reflexivity).
    cbn [sounds_of]. rewrite (IH rest); [reflexivity|exact Hf|exact Hd].
Qed.

(** The first [n] pairs play when the array holds them; the sounds are then
    those of the pairs, and the buzzer is written LOW by every tone. *)
Lemma play_pairs_spec pattern a s : forall n,
  (2 * n <= List.length pattern)%nat ->
  exists g',
    play_pairs pattern n a s = Some (fst s ++ sounds_of (firstn (2 * n) pattern), g') /\
    forall p, g' p =
      if existsb is_tone (sounds_of (firstn (2 * n) pattern)) && (p =? _buzzerPin a)
      then LOW else snd s p.
Proof.
  induction n as [|n IH]; intros Hlen.
  - exists (snd s). cbn. rewrite app_nil_r. split; [now destruct s|reflexivity].
  - destruct IH as (g1 & E1 & Hg1); [lia|].
    rewrite play_pairs_S, E1.
    destruct (nth_error pattern (2 * n)) as [freq|] eqn:Ef.
    2:{ apply nth_error_None in Ef. lia. }
    destruct (nth_error pattern (2 * n + 1)) as [dur|] eqn:Ed.
    2:{ apply nth_error_None in Ed. lia. }
    rewrite (sounds_of_firstn_S pattern n freq dur Ef Ed).
    rewrite existsb_app. cbn [existsb]. rewrite orb_false_r.
    destruct (0 <? freq); unfold playTone; cbn [fst snd is_tone].
    + eexists. split; [rewrite app_assoc; reflexivity|].
      intros p. rewrite orb_true_r. cbn [andb]. unfold digitalWrite.
      destruct (p =? _buzzerPin a) eqn:Ep; [reflexivity|].
      rewrite Hg1, Ep. now rewrite andb_false_r.
    + exists g1. split; [rewrite app_assoc; reflexivity|].
      intros p. now rewrite orb_false_r, Hg1.
Qed.

(** A pair that the array does not hold stops the player. *)
Lemma play_pairs_fails pattern a s : forall n,
  (List.length pattern < 2 * n)%nat -> play_pairs pattern n a s = None.
Proof.
  intros [|n] Hlen; [lia|].
  rewrite play_pairs_S.
  destruct (play_pairs pattern n a s); [|reflexivity].
  destruct (nth_error pattern (2 * n)) as [freq|]; [|reflexivity].
  destruct (nth_error pattern (2 * n + 1)) as [dur|] eqn:Ed; [|reflexivity].
  assert (2 * n + 1 < List.length pattern)%nat; [|lia].
  apply nth_error_Some. congruence.
Qed.

(** X1. A haptic-only session never sounds the buzzer: when the buzzer output
    is LOW at [triggerHapticOnly] and the two outputs are different pins,
    it is LOW after every run of [update()] calls, whatever their clock
    readings, the expiring one included; the pins are not reassigned. *)
Theorem haptic_session_never_sounds :
  forall (a : AlertManager.t) (g : GPIO) (d t0 t0' : Z) (nows : list Z),
    _buzzerPin a <> _vibrationPin a ->
    g (_buzzerPin a) = LOW ->
    let s := updates nows (triggerHapticOnly d t0 t0' a g) in
    snd s (_buzzerPin a) = LOW /\
    _buzzerPin (fst s) = _buzzerPin a /\
    _vibrationPin (fst s) = _vibrationPin a.
Proof.
  intros a g d t0 t0' nows Hne Hlow s.
  destruct (updates_silent nows
              (fst (triggerHapticOnly d t0 t0' a g)) (snd (triggerHapticOnly d t0 t0' a g))
              (_buzzerPin a) (_vibrationPin a) Hne) as ((Hb & Hv) & (_ & Hs)).
  - split; reflexivity.
  - split; [reflexivity|]. cbn. rewrite digitalWrite_other by exact Hne. exact Hlow.
  - rewrite <- surjective_pairing in Hb, Hv, Hs. fold s in Hb, Hv, Hs.
    rewrite Hb in Hs. auto.
Qed.

Lemma haptic_session_never_sounds_witness :
  38 <> 39 /\
  snd (updates [100; 260; 380; 700; 900] (triggerHapticOnly 500 0 0
         (fst (begin 38 39 init (fun _ => HIGH)))
         (snd (begin 38 39 init (fun _ => HIGH))))) 38 = LOW.
Proof.
  assert (Hne : 38 <> 39) by lia.
  split; [exact Hne|].
  exact (proj1 (haptic_session_never_sounds
                  (fst (begin 38 39 init (fun _ => HIGH)))
                  (snd (begin 38 39 init (fun _ => HIGH)))
                  500 0 0 [100; 260; 380; 700; 900] Hne eq_refl)).
Defined.

(** X2. A session of positive duration [d], audible or haptic-only, runs its
    course and ends for good.  While the [update()] calls are made less than
    [d] ms after the start (by the unsigned difference of [millis()]
    readings) the session stays active and the vibration output is HIGH
    exactly in the on phase; the first [update()] at [d] ms or more clears
    the active flag and drives both outputs LOW; and no later [update()], at
    whatever clock reading, changes the manager or an output again. *)
Theorem session_ends_for_good :
  forall (haptic : bool) (a : AlertManager.t) (g : GPIO) (d t0 t0' : Z)
         (before : list Z) (now : Z) (after : list Z),
    0 < d ->
    Forall (fun t => usub t t0 < to_ulong d) before ->
    to_ulong d <= usub now t0 ->
    let s := updates before
               (if haptic then triggerHapticOnly d t0 t0' a g
                else triggerAlert d t0 t0' a g) in
    let s' := update now (fst s) (snd s) in
    _alertActive (fst s) = true /\
    snd s (_vibrationPin (fst s)) = _pulseState (fst s) /\
    _alertActive (fst s') = false /\
    snd s' (_buzzerPin (fst s')) = LOW /\
    snd s' (_vibrationPin (fst s')) = LOW /\
    updates after s' = s'.
Proof.
  intros haptic a g d t0 t0' before now after Hd HF Hnow s s'.
  set (onMs := if haptic then 150 else 100).
  set (offMs := if haptic then 100 else 50).
  assert (Hon : 0 <= onMs < ULONG_MOD) by (unfold ULONG_MOD, onMs; destruct haptic; lia).
  assert (Hoff : 0 <= offMs < ULONG_MOD) by (unfold ULONG_MOD, offMs; destruct haptic; lia).
  set (s0 := if haptic then triggerHapticOnly d t0 t0' a g else triggerAlert d t0 t0' a g).
  assert (Hs0 : session haptic d t0 onMs offMs (fst s0)).
  { unfold onMs, offMs, s0. destruct haptic.
    - apply triggerHapticOnly_session.
    - apply triggerAlert_session. }
  assert (Hv0 : vibration_follows_phase (fst s0) (snd s0)).
  { unfold vibration_follows_phase, s0.
    destruct haptic; cbn; auto using digitalWrite_same. }
  assert (HF' : Forall (fun now => ~ expired d t0 now) before).
  { eapply Forall_impl; [|exact HF]. intros t Ht. now apply not_expired_lt. }
  destruct (updates_live haptic d t0 onMs offMs before Hon Hoff HF' _ Hs0) as (Hs & _).
  pose proof (updates_live_vibration haptic d t0 onMs offMs before Hon Hoff HF' _ Hs0 Hv0)
    as Hv.
  fold s in Hs, Hv.
  split; [apply Hs|]. split; [exact Hv|].
  assert (E : s' = stopAlert (fst s) (snd s)).
  { unfold s'. apply (update_expired haptic d t0 onMs offMs); [exact Hs|].
    split; assumption. }
  destruct (stopAlert_off (fst s) (snd s)) as (Hoff1 & Hoff2 & Hoff3).
  rewrite <- E in Hoff1, Hoff2, Hoff3.
  repeat split; try assumption.
  rewrite (surjective_pairing s') at 1. rewrite updates_idle by exact Hoff1.
  symmetry. apply surjective_pairing.
Qed.

Lemma session_ends_for_good_witness :
  0 < 500 /\
  Forall (fun t => usub t 4294967000 < to_ulong 500) [4294967100; 4294967290; 100] /\
  to_ulong 500 <= usub 204 4294967000 /\
  _alertActive
    (fst (update 204
            (fst (updates [4294967100; 4294967290; 100]
                    (triggerHapticOnly 500 4294967000 4294967000 init (fun _ => LOW))))
            (snd (updates [4294967100; 4294967290; 100]
                    (triggerHapticOnly 500 4294967000 4294967000 init (fun _ => LOW))))))
  = false.
Proof.
  assert (Hd : 0 < 500) by lia.
  assert (HF : Forall (fun t => usub t 4294967000 < to_ulong 500)
                 [4294967100; 4294967290; 100]).
  { repeat constructor. }
  assert (Hn : to_ulong 500 <= usub 204 4294967000).
  { vm_compute. discriminate. }
  split; [exact Hd|]. split; [exact HF|]. split; [exact Hn|].
  pose proof (session_ends_for_good true init (fun _ => LOW) 500 4294967000 4294967000
                [4294967100; 4294967290; 100] 204 [] Hd HF Hn) as H.
  cbv zeta in H. destruct H as (_ & _ & H & _). exact H.
Defined.

(** X3. [playPattern(pattern, length)] reads the array two elements at a
    time: it reads outside the array exactly when [length] is positive and
    the array holds fewer than [2 * ceil(length / 2)] elements.  So an odd
    [length], even when it is the number of elements of the array, makes the
    last iteration read [pattern[length]], one element past the end. *)
Theorem playPattern_reads_pairs :
  forall (pattern : list Z) (length : Z) (a : AlertManager.t) (s : list Sound * GPIO),
    (playPattern pattern length a s = None <->
     0 < length /\ Z.of_nat (List.length pattern) < 2 * ((length + 1) / 2)) /\
    (0 < length -> Z.odd length = true ->
     length = Z.of_nat (List.length pattern) ->
     playPattern pattern length a s = None).
Proof.
  intros pattern length a s.
  assert (Hiff : playPattern pattern length a s = None <->
                 0 < length /\ Z.of_nat (List.length pattern) < 2 * ((length + 1) / 2)).
  { rewrite playPattern_pairs.
    destruct (Z_lt_le_dec 0 length) as [Hpos|Hnp].
    - assert (Hn : 0 < (length + 1) / 2) by (apply Z.div_str_pos; lia).
      destruct (Nat.le_gt_cases (2 * Z.to_nat ((length + 1) / 2)) (List.length pattern))
        as [Hle|Hgt].
      + destruct (play_pairs_spec pattern a s _ Hle) as (g' & E & _). rewrite E.
        split; [discriminate|]. intros (_ & H). lia.
      + rewrite (play_pairs_fails pattern a s _ Hgt). split; [|reflexivity].
        intros _. split; [exact Hpos|]. lia.
    - assert (Hn : (length + 1) / 2 < 1).
      { apply Z.div_lt_upper_bound; lia. }
      replace (Z.to_nat ((length + 1) / 2)) with 0%nat by lia.
      cbn. split; [discriminate|]. intros (H & _). lia. }
  split; [exact Hiff|].
  intros Hpos Hodd Hlen. apply Hiff. split; [exact Hpos|].
  rewrite <- Hlen.
  pose proof (Z.div_mod (length + 1) 2 ltac:(lia)) as Hdm.
  assert (Hm : (length + 1) mod 2 = 0).
  { rewrite Zmod_odd. replace (length + 1) with (Z.succ length) by lia.
    rewrite Z.odd_succ, <- Z.negb_odd, Hodd. reflexivity. }
  lia.
Qed.

(** X4. For an even [length] within the array, [playPattern] plays the pairs
    (frequency, duration) in order, a frequency that is not positive being a
    pause, with each duration converted to the unsigned argument of
    [delay()]; the buzzer output is written LOW if a tone was played and no
    other output changes. *)
Theorem playPattern_plays_pairs :
  forall (pattern : list Z) (length : Z) (a : AlertManager.t) (s : list Sound * GPIO),
    0 <= length ->
    Z.even length = true ->
    length <= Z.of_nat (List.length pattern) ->
    exists g',
      playPattern pattern length a s =
        Some (fst s ++ sounds_of (firstn (Z.to_nat length) pattern), g') /\
      forall p, g' p =
        if existsb is_tone (sounds_of (firstn (Z.to_nat length) pattern))
           && (p =? _buzzerPin a)
        then LOW else snd s p.
Proof.
  intros pattern length a s H0 Hev Hlen.
  rewrite playPattern_pairs.
  assert (E : (2 * Z.to_nat ((length + 1) / 2))%nat = Z.to_nat length).
  { pose proof (Z.div_mod (length + 1) 2 ltac:(lia)) as Hdm.
    assert (Hm : (length + 1) mod 2 = 1).
    { rewrite Zmod_odd. replace (length + 1) with (Z.succ length) by lia.
      rewrite Z.odd_succ, Hev. reflexivity. }
    assert (0 <= (length + 1) / 2) by (apply Z.div_pos; lia).
    lia. }
  rewrite <- E. apply play_pairs_spec. lia.
Qed.

Lemma playPattern_plays_pairs_witness :
  0 <= AlertPatterns.DETECTION_LEN /\
  Z.even AlertPatterns.DETECTION_LEN = true /\
  AlertPatterns.DETECTION_LEN <= Z.of_nat (List.length AlertPatterns.DETECTION) /\
  exists g',
    playPattern AlertPatterns.DETECTION AlertPatterns.DETECTION_LEN init ([], fun _ => HIGH)
    = Some ([Tone 2000 100; Pause 50; Tone 2000 100; Pause 50; Tone 2000 100], g') /\
    total_ms [Tone 2000 100; Pause 50; Tone 2000 100; Pause 50; Tone 2000 100] = 400.
Proof.
  assert (H0 : 0 <= AlertPatterns.DETECTION_LEN) by (vm_compute; discriminate).
  assert (Hev : Z.even AlertPatterns.DETECTION_LEN = true) by reflexivity.
  assert (Hlen : AlertPatterns.DETECTION_LEN <= Z.of_nat (List.length AlertPatterns.DETECTION))
    by (vm_compute; discriminate).
  split; [exact H0|]. split; [exact Hev|]. split; [exact Hlen|].
  destruct (playPattern_plays_pairs AlertPatterns.DETECTION AlertPatterns.DETECTION_LEN
              init ([], fun _ => HIGH) H0 Hev Hlen) as (g' & E & _).
  exists g'. split; [exact E|reflexivity].
Defined.

End AlertOutputs.

(* ===================================================================== *)
(** * Direction Estimator: the correlation search and the azimuth *)
(* ===================================================================== *)

Module CorrelationFacts.
Import Correlation.
Import DirectionEstimator Direction DirectionFacts.

(** ** The lag returned (any arithmetic) *)

Section WithFloat.
Context {F : Type} {FO : FloatOps F}.
Local Open Scope fl_scope.

(** X5. The lag [crossCorrelate] returns is an integer of the search window
    [-maxLag .. maxLag], where [maxLag] is at most a quarter of the frame;
    when the window is empty ([maxLag] negative) no correlation is computed:
    the lag is 0 and the confidence is the initial value [-1e10]. *)
Theorem crossCorrelate_lag_in_window :
  forall (d : DirectionEstimator.t F) (sig1 sig2 : list F) (numSamples : Z),
    let maxLag := maxLag_of d numSamples in
    exists bestLag : Z,
      fst (crossCorrelate d sig1 sig2 numSamples) = of_int bestLag /\
      (maxLag <= Z.quot numSamples 4)%Z /\
      (0 <= maxLag -> - maxLag <= bestLag <= maxLag)%Z /\
      ((maxLag < 0)%Z ->
       bestLag = 0%Z /\ snd (crossCorrelate d sig1 sig2 numSamples) = lit (-1e10)).
Proof.
  intros d sig1 sig2 numSamples maxLag.
  unfold crossCorrelate. cbn zeta. fold maxLag.
  set (body := fun (lag : Z) (st : F * Z) => _).
  set (st0 := (lit (-1e10), 0%Z)).
  assert (Hq : (maxLag <= Z.quot numSamples 4)%Z).
  { unfold maxLag, maxLag_of, zmin.
    destruct (Z.quot numSamples 4 <? ceil_int (_maxDelaySamples d) + 5)%Z eqn:E;
      [lia|apply Z.ltb_ge in E; lia]. }
  destruct (Z_lt_le_dec maxLag 0) as [Hneg|Hpos].
  - rewrite for_loop_nil by lia. exists 0%Z. cbn. repeat split; auto; lia.
  - assert (H : (fun k st => snd st = 0 \/ - maxLag <= snd st < k)%Z
                  (maxLag + 1)%Z (for_loop (- maxLag) (maxLag + 1) body st0)).
    { apply for_loop_inv; [lia|left; reflexivity|].
      intros k [mc bl] Hk Hst. unfold body.
      destruct (fgtb _ mc); cbn [snd] in *; lia. }
    cbn beta in H.
    destruct (for_loop (- maxLag) (maxLag + 1) body st0) as [mc bl].
    cbn [fst snd] in *. exists bl. repeat split; try lia; auto.
Qed.

End WithFloat.

(** ** The confidence in exact arithmetic *)

Section Exact.
Import Real.
Local Open Scope R_scope.

Lemma Rltb_true' x y : Rltb x y = true <-> x < y.
Proof. unfold Rltb. destruct (Rlt_dec x y); split; intros; try easy. Qed.

Lemma Rltb_false' x y : Rltb x y = false <-> y <= x.
Proof. unfold Rltb. destruct (Rlt_dec x y); split; intros; try easy; lra. Qed.

Lemma tiny_pos : 0 < Q2R 1e-10.
Proof. rewrite <- RMicromega.Q2R_0. now apply Qlt_Rlt. Qed.

Lemma huge_neg : Q2R (-1e10) < -1.
Proof.
  replace (-1)%R with (Q2R (-1)) by (unfold Q2R; cbn; lra).
  now apply Qlt_Rlt.
Qed.

(** The step of Cauchy and Schwarz. *)
Lemma cauchy_step c n1 n2 a b :
  0 <= n1 -> 0 <= n2 -> c * c <= n1 * n2 ->
  (c + a * b) * (c + a * b) <= (n1 + a * a) * (n2 + b * b).
Proof.
  intros H1 H2 Hc.
  assert (Hy : 0 <= n1 * (b * b) + n2 * (a * a)).
  { apply Rplus_le_le_0_compat; apply Rmult_le_pos; try assumption; apply Rle_0_sqr. }
  assert (Hx : 2 * c * a * b <= n1 * (b * b) + n2 * (a * a)).
  { apply Rsqr_incr_0_var; [|exact Hy]. unfold Rsqr.
    assert (E : (n1 * (b * b) + n2 * (a * a)) * (n1 * (b * b) + n2 * (a * a))
                - 2 * c * a * b * (2 * c * a * b)
                = (n1 * (b * b) - n2 * (a * a)) * (n1 * (b * b) - n2 * (a * a))
                  + 4 * ((a * b) * (a * b)) * (n1 * n2 - c * c)) by ring.
    assert (P1 : 0 <= (n1 * (b * b) - n2 * (a * a)) * (n1 * (b * b) - n2 * (a * a)))
      by apply Rle_0_sqr.
    assert (P2 : 0 <= 4 * ((a * b) * (a * b)) * (n1 * n2 - c * c)).
    { apply Rmult_le_pos; [|lra].
      apply Rmult_le_pos; [lra|apply Rle_0_sqr]. }
    lra. }
  replace ((c + a * b) * (c + a * b))
    with (c * c + 2 * c * a * b + (a * b) * (a * b)) by ring.
  replace ((n1 + a * a) * (n2 + b * b))
    with (n1 * n2 + (n1 * (b * b) + n2 * (a * a)) + (a * b) * (a * b)) by ring.
  lra.
Qed.

(** The accumulators of the inner loop: the energies are not negative and
    bound the correlation. *)
Lemma accumulators_bound (sig1 sig2 : list R) numSamples maxLag lag :
  let s :=
    for_loop maxLag (numSamples - maxLag)%Z
      (fun i s =>
         let j := (i + lag)%Z in
         if (0 <=? j)%Z && (j <? numSamples)%Z then
           mkacc (a_corr s + aget sig1 i * aget sig2 j)%fl
                 (a_norm1 s + aget sig1 i * aget sig1 i)%fl
                 (a_norm2 s + aget sig2 j * aget sig2 j)%fl
                 (a_count s + 1)%Z
         else s)
      (mkacc (lit 0) (lit 0) (lit 0) 0%Z) in
  0 <= a_norm1 s /\ 0 <= a_norm2 s /\ a_corr s * a_corr s <= a_norm1 s * a_norm2 s.
Proof.
  cbn zeta.
  set (body := fun (i : Z) (s : acc) => _).
  set (s0 := mkacc (lit 0) (lit 0) (lit 0) 0%Z).
  assert (H0 : 0 <= a_norm1 s0 /\ 0 <= a_norm2 s0 /\
               a_corr s0 * a_corr s0 <= a_norm1 s0 * a_norm2 s0).
  { cbn. rewrite RMicromega.Q2R_0. lra. }
  destruct (Z.le_gt_cases maxLag (numSamples - maxLag)) as [Hle|Hgt].
  - apply (for_loop_inv
             (fun _ s => 0 <= a_norm1 s /\ 0 <= a_norm2 s /\
                         a_corr s * a_corr s <= a_norm1 s * a_norm2 s)
             maxLag (numSamples - maxLag)%Z body s0 Hle H0).
    intros k s _ (H1 & H2 & Hc). unfold body. cbn zeta.
    destruct ((0 <=? k + lag)%Z && (k + lag <? numSamples)%Z); [|auto].
    cbn [a_corr a_norm1 a_norm2 fadd fmul real_ops].
    split; [pose proof (Rle_0_sqr (aget sig1 k)) as P; unfold Rsqr in P; lra|].
    split; [pose proof (Rle_0_sqr (aget sig2 (k + lag))) as P; unfold Rsqr in P; lra|].
    now apply cauchy_step.
  - rewrite for_loop_nil by lia. exact H0.
Qed.

(** The normalised correlation at a lag lies in [-1, 1]. *)
Lemma correlation_at_range (sig1 sig2 : list R) numSamples maxLag lag :
  -1 <= correlation_at sig1 sig2 numSamples maxLag lag <= 1.
Proof.
  unfold correlation_at.
  pose proof (accumulators_bound sig1 sig2 numSamples maxLag lag) as H.
  cbn zeta in H |- *.
  set (s := for_loop _ _ _ _) in *. destruct H as (H1 & H2 & Hc).
  unfold fgtb. cbn [fsqrt fmul fdiv fltb lit real_ops].
  set (norm := sqrt (a_norm1 s * a_norm2 s)).
  destruct (Rltb (Q2R 1e-10) norm) eqn:E.
  - apply Rltb_true' in E. pose proof tiny_pos as Ht.
    assert (Hn : 0 < norm) by lra.
    assert (Hsq : norm * norm = a_norm1 s * a_norm2 s).
    { unfold norm. apply sqrt_sqrt. now apply Rmult_le_pos. }
    assert (Hup : a_corr s <= norm).
    { apply Rsqr_incr_0_var; [unfold Rsqr; lra|lra]. }
    assert (Hlo : - a_corr s <= norm).
    { apply Rsqr_incr_0_var; [unfold Rsqr|lra].
      replace (- a_corr s * - a_corr s) with (a_corr s * a_corr s) by ring. lra. }
    assert (Hq : a_corr s / norm * norm = a_corr s) by (field; lra).
    split.
    + apply Rmult_le_reg_r with (r := norm); [exact Hn|]. rewrite Hq. lra.
    + apply Rmult_le_reg_r with (r := norm); [exact Hn|]. rewrite Hq. lra.
  - rewrite RMicromega.Q2R_0. lra.
Qed.

(** The search over the lags keeps the largest correlation, and the first
    lag that attains it. *)
Lemma lag_search (sig1 sig2 : list R) numSamples maxLag :
  (0 <= maxLag)%Z ->
  let C := correlation_at sig1 sig2 numSamples maxLag in
  let st :=
    for_loop (- maxLag)%Z (maxLag + 1)%Z
      (fun lag '(maxCorr, bestLag) =>
         let corr := correlation_at sig1 sig2 numSamples maxLag lag in
         if fgtb corr maxCorr then (corr, lag) else (maxCorr, bestLag))
      (lit (-1e10), 0%Z) in
  (- maxLag <= snd st <= maxLag)%Z /\
  fst st = C (snd st) /\
  (forall l, (- maxLag <= l <= maxLag)%Z -> C l <= fst st) /\
  (forall l, (- maxLag <= l < snd st)%Z -> C l < fst st).
Proof.
  intros Hpos C. cbn zeta.
  set (body := fun (lag : Z) (st : R * Z) => _).
  set (st0 := (lit (-1e10), 0%Z)).
  assert (H : (fun k st =>
                 (k = (- maxLag)%Z /\ st = st0) \/
                 ((- maxLag <= snd st < k)%Z /\ fst st = C (snd st) /\
                  (forall l, (- maxLag <= l < k)%Z -> C l <= fst st) /\
                  (forall l, (- maxLag <= l < snd st)%Z -> C l < fst st)))
                (maxLag + 1)%Z (for_loop (- maxLag) (maxLag + 1) body st0)).
  { apply for_loop_inv; [lia|left; split; reflexivity|].
    intros k st Hk Hst. right. unfold body.
    destruct st as [mc bl]. fold (C k).
    unfold fgtb. cbn [fltb real_ops].
    destruct Hst as [(Hk0 & E)|(Hr & He & Hmax & Hfirst)].
    - injection E as -> ->.
      pose proof (correlation_at_range sig1 sig2 numSamples maxLag k) as Hc.
      fold (C k) in Hc. pose proof huge_neg as Hh.
      assert (E : Rltb (Q2R (-1e10)) (C k) = true).
      { apply Rltb_true'. lra. }
      rewrite E. cbn [fst snd]. repeat split; try lia.
      intros l Hl. replace l with k by lia. lra.
    - cbn [fst snd] in *.
      destruct (Rltb mc (C k)) eqn:E; cbn [fst snd].
      + apply Rltb_true' in E. repeat split; try lia.
        * intros l Hl. destruct (Z.eq_dec l k) as [->|Hne]; [lra|].
          specialize (Hmax l ltac:(lia)). lra.
        * intros l Hl. specialize (Hmax l ltac:(lia)). lra.
      + apply Rltb_false' in E. repeat split; try lia; try assumption.
        intros l Hl. destruct (Z.eq_dec l k) as [->|Hne]; [lra|].
        apply Hmax. lia. }
  cbn beta in H. destruct H as [(Hk & _)|(Hr & He & Hmax & Hfirst)]; [lia|].
  repeat split; try lia; try assumption.
  intros l Hl. apply Hmax. lia.
Qed.

Lemma crossCorrelate_search (d : DirectionEstimator.t R) (sig1 sig2 : list R) numSamples :
  (0 <= maxLag_of d numSamples)%Z ->
  let maxLag := maxLag_of d numSamples in
  let C := correlation_at sig1 sig2 numSamples maxLag in
  exists bestLag : Z,
    (- maxLag <= bestLag <= maxLag)%Z /\
    crossCorrelate d sig1 sig2 numSamples = (IZR bestLag, C bestLag) /\
    (forall l, (- maxLag <= l <= maxLag)%Z -> C l <= C bestLag) /\
    (forall l, (- maxLag <= l < bestLag)%Z -> C l < C bestLag).
Proof.
  intros Hpos maxLag C.
  pose proof (lag_search sig1 sig2 numSamples maxLag Hpos) as H.
  cbn zeta in H. unfold crossCorrelate. cbn zeta. fold maxLag.
  destruct (for_loop (- maxLag) (maxLag + 1) _ _) as [mc bl].
  cbn [fst snd] in H. destruct H as (Hr & He & Hmax & Hfirst).
  exists bl. fold C in He, Hmax, Hfirst. rewrite <- He.
  repeat split; try lia; try assumption.
Qed.

(** X6. In exact arithmetic, [crossCorrelate] over a search window that is
    not empty returns the first lag of the window at which the normalised
    correlation is largest, and that largest correlation as the
    confidence. *)
Theorem crossCorrelate_first_maximum :
  forall (d : DirectionEstimator.t R) (sig1 sig2 : list R) (numSamples : Z),
    (0 <= maxLag_of d numSamples)%Z ->
    let maxLag := maxLag_of d numSamples in
    let C := correlation_at sig1 sig2 numSamples maxLag in
    exists bestLag : Z,
      (- maxLag <= bestLag <= maxLag)%Z /\
      fst (crossCorrelate d sig1 sig2 numSamples) = IZR bestLag /\
      snd (crossCorrelate d sig1 sig2 numSamples) = C bestLag /\
      (forall l, (- maxLag <= l <= maxLag)%Z -> C l <= C bestLag) /\
      (forall l, (- maxLag <= l < bestLag)%Z -> C l < C bestLag).
Proof.
  intros d sig1 sig2 numSamples Hpos maxLag C.
  destruct (crossCorrelate_search d sig1 sig2 numSamples Hpos)
    as (bl & Hr & E & Hmax & Hfirst).
  exists bl. rewrite E. repeat split; try lia; assumption.
Qed.

Lemma crossCorrelate_first_maximum_witness :
  (0 <= maxLag_of configured Config.FFT_SIZE)%Z /\
  exists bestLag : Z,
    (- maxLag_of configured Config.FFT_SIZE <= bestLag
     <= maxLag_of configured Config.FFT_SIZE)%Z /\
    fst (crossCorrelate configured silence silence Config.FFT_SIZE) = IZR bestLag.
Proof.
  split; [exact configured_maxLag|].
  destruct (crossCorrelate_first_maximum configured silence silence Config.FFT_SIZE
              configured_maxLag) as (bl & Hr & Hf & _).
  exists bl. split; [exact Hr|exact Hf].
Defined.

Lemma confidence_range (d : DirectionEstimator.t R) (sig1 sig2 : list R) numSamples :
  (0 <= maxLag_of d numSamples)%Z ->
  -1 <= snd (crossCorrelate d sig1 sig2 numSamples) <= 1.
Proof.
  intros Hpos.
  destruct (crossCorrelate_search d sig1 sig2 numSamples Hpos) as (bl & _ & E & _).
  rewrite E. cbn [snd]. apply correlation_at_range.
Qed.

(** X7. In exact arithmetic, over a search window that is not empty, the
    confidence of every microphone pair lies in [-1, 1], and so does the mean
    [estimateDirection] stores. *)
Theorem confidence_within_unit_interval :
  forall (d : DirectionEstimator.t R) (mic1 mic2 mic3 mic4 : list R) (numSamples : Z),
    (0 <= maxLag_of d numSamples)%Z ->
    -1 <= snd (crossCorrelate d mic1 mic2 numSamples) <= 1 /\
    -1 <= _lastConfidence (snd (estimateDirection d mic1 mic2 mic3 mic4 numSamples)) <= 1.
Proof.
  intros d mic1 mic2 mic3 mic4 numSamples Hpos.
  split; [now apply confidence_range|].
  destruct (estimateDirection_cases d mic1 mic2 mic3 mic4 numSamples) as (Hc & _).
  cbn zeta in Hc. rewrite Hc. unfold frame_confidence, mean_confidence.
  pose proof (confidence_range d mic1 mic2 numSamples Hpos) as H12.
  pose proof (confidence_range d mic1 mic4 numSamples Hpos) as H14.
  pose proof (confidence_range d mic3 mic2 numSamples Hpos) as H32.
  pose proof (confidence_range d mic3 mic4 numSamples Hpos) as H34.
  cbn [fadd fdiv lit real_ops].
  replace (Q2R 4) with 4 by (unfold Q2R; cbn; lra).
  lra.
Qed.

Lemma confidence_within_unit_interval_witness :
  (0 <= maxLag_of configured Config.FFT_SIZE)%Z /\
  -1 <= _lastConfidence
          (snd (estimateDirection configured silence silence silence silence
                  Config.FFT_SIZE)) <= 1.
Proof.
  split; [exact configured_maxLag|].
  exact (proj2 (confidence_within_unit_interval configured silence silence silence
                  silence Config.FFT_SIZE configured_maxLag)).
Defined.

(** The accumulators at lag 0 of a signal against itself. *)
Lemma self_accumulators (x : list R) numSamples (l : list Z) :
  (forall i, In i l -> (0 <= i < numSamples)%Z) ->
  forall s : acc,
    let s' :=
      fold_left
        (fun s i =>
           let j := (i + 0)%Z in
           if (0 <=? j)%Z && (j <? numSamples)%Z then
             mkacc (a_corr s + aget x i * aget x j)%fl
                   (a_norm1 s + aget x i * aget x i)%fl
                   (a_norm2 s + aget x j * aget x j)%fl
                   (a_count s + 1)%Z
           else s) l s in
    a_corr s' = a_corr s + sum_sq x l /\
    a_norm1 s' = a_norm1 s + sum_sq x l /\
    a_norm2 s' = a_norm2 s + sum_sq x l.
Proof.
  induction l as [|i l IH]; intros Hin s; cbn zeta.
  - cbn. repeat split; lra.
  - cbn [fold_left sum_sq].
    assert (Hi : (0 <= i < numSamples)%Z) by (apply Hin; now left).
    rewrite Z.add_0_r.
    assert (E : ((0 <=? i)%Z && (i <? numSamples)%Z) = true).
    { apply andb_true_iff. split; [apply Z.leb_le|apply Z.ltb_lt]; lia. }
    rewrite E.
    specialize (IH (fun k Hk => Hin k (or_intror Hk))
                  (mkacc (a_corr s + aget x i * aget x i)%fl
                         (a_norm1 s + aget x i * aget x i)%fl
                         (a_norm2 s + aget x i * aget x i)%fl
                         (a_count s + 1)%Z)).
    cbn zeta in IH.
    assert (Hext : forall l0 s0,
               fold_left
                 (fun s i =>
                    if (0 <=? i + 0)%Z && (i + 0 <? numSamples)%Z then
                      mkacc (a_corr s + aget x i * aget x (i + 0)%Z)%fl
                            (a_norm1 s + aget x i * aget x i)%fl
                            (a_norm2 s + aget x (i + 0)%Z * aget x (i + 0)%Z)%fl
                            (a_count s + 1)%Z
                    else s) l0 s0 =
               fold_left
                 (fun s i =>
                    let j := (i + 0)%Z in
                    if (0 <=? j)%Z && (j <? numSamples)%Z then
                      mkacc (a_corr s + aget x i * aget x j)%fl
                            (a_norm1 s + aget x i * aget x i)%fl
                            (a_norm2 s + aget x j * aget x j)%fl
                            (a_count s + 1)%Z
                    else s) l0 s0) by reflexivity.
    destruct IH as (H1 & H2 & H3).
    cbn [a_corr a_norm1 a_norm2 fadd fmul real_ops] in *.
    rewrite H1, H2, H3. repeat split; ring.
Qed.

Lemma sum_sq_nonneg x l : 0 <= sum_sq x l.
Proof.
  induction l as [|i l IH]; cbn; [lra|].
  pose proof (Rle_0_sqr (aget x i)) as P. unfold Rsqr in P. lra.
Qed.

(** A signal with energy correlates perfectly with itself at lag 0. *)
Lemma self_correlation (x : list R) numSamples maxLag :
  (0 <= maxLag)%Z ->
  Q2R 1e-10 < window_energy x numSamples maxLag ->
  correlation_at x x numSamples maxLag 0 = 1.
Proof.
  intros Hpos He. unfold correlation_at. cbn zeta. unfold for_loop.
  pose proof (self_accumulators x numSamples (zrange maxLag (numSamples - maxLag))) as H.
  cbn zeta in H.
  specialize (H (fun i Hi => ltac:(apply zrange_In in Hi; lia))
                (mkacc (lit 0) (lit 0) (lit 0) 0%Z)).
  set (s := fold_left _ _ _) in *.
  destruct H as (H1 & H2 & H3).
  cbn [a_corr a_norm1 a_norm2 lit real_ops] in H1, H2, H3.
  rewrite RMicromega.Q2R_0, Rplus_0_l in H1, H2, H3.
  fold (window_energy x numSamples maxLag) in H1, H2, H3.
  set (E := window_energy x numSamples maxLag) in *.
  unfold fgtb. cbn [fsqrt fmul fdiv fltb lit real_ops].
  rewrite H1, H2, H3.
  pose proof tiny_pos as Ht.
  assert (Hs : sqrt (E * E) = E) by (apply sqrt_square; lra).
  rewrite Hs.
  assert (Eb : Rltb (Q2R 1e-10) E = true) by (now apply Rltb_true').
  rewrite Eb. field. lra.
Qed.

(** X8. In exact arithmetic, a signal correlated with itself has confidence
    exactly 1 as soon as its energy over the correlated samples exceeds the
    threshold [1e-10] of the normalisation. *)
Theorem identical_signals_full_confidence :
  forall (d : DirectionEstimator.t R) (x : list R) (numSamples : Z),
    (0 <= maxLag_of d numSamples)%Z ->
    Q2R 1e-10 < window_energy x numSamples (maxLag_of d numSamples) ->
    snd (crossCorrelate d x x numSamples) = 1 /\
    frame_confidence d x x x x numSamples = 1.
Proof.
  intros d x numSamples Hpos He.
  assert (H1 : snd (crossCorrelate d x x numSamples) = 1).
  { destruct (crossCorrelate_search d x x numSamples Hpos) as (bl & _ & E & Hmax & _).
    rewrite E. cbn [snd].
    pose proof (correlation_at_range x x numSamples (maxLag_of d numSamples) bl) as Hr.
    specialize (Hmax 0%Z ltac:(lia)).
    rewrite (self_correlation x numSamples _ Hpos He) in Hmax. lra. }
  split; [exact H1|].
  unfold frame_confidence, mean_confidence. rewrite H1.
  cbn [fadd fdiv lit real_ops].
  replace (Q2R 4) with 4 by (unfold Q2R; cbn; lra). lra.
Qed.

Lemma identical_signals_full_confidence_witness :
  (0 <= maxLag_of (DirectionEstimator.init (F:=R)) 4)%Z /\
  Q2R 1e-10 < window_energy [1; 2; 3; 4] 4 (maxLag_of DirectionEstimator.init 4) /\
  snd (crossCorrelate DirectionEstimator.init [1; 2; 3; 4] [1; 2; 3; 4] 4) = 1.
Proof.
  assert (Hm : maxLag_of (DirectionEstimator.init (F:=R)) 4 = 1%Z).
  { unfold maxLag_of, DirectionEstimator.init. cbn [_maxDelaySamples].
    cbn [ceil_int of_int real_ops].
    pose proof (Rceil_nonneg (IZR 0) ltac:(lra)) as Hc.
    unfold zmin. change (Z.quot 4 4) with 1%Z.
    destruct (1 <? Rceil (IZR 0) + 5)%Z eqn:E; [reflexivity|].
    apply Z.ltb_ge in E. lia. }
  assert (Hpos : (0 <= maxLag_of (DirectionEstimator.init (F:=R)) 4)%Z)
    by (rewrite Hm; lia).
  assert (He : Q2R 1e-10 < window_energy [1; 2; 3; 4] 4 (maxLag_of DirectionEstimator.init 4)).
  { rewrite Hm. unfold window_energy.
    change (zrange 1 (4 - 1)) with [1; 2]%Z.
    change (sum_sq [1; 2; 3; 4] [1; 2]%Z) with (2 * 2 + (3 * 3 + 0)).
    pose proof tiny_pos as Ht.
    assert (Hlt : Q2R 1e-10 < Q2R 1) by (now apply Qlt_Rlt).
    replace (Q2R 1) with 1 in Hlt by (unfold Q2R; cbn; lra).
    lra. }
  split; [exact Hpos|]. split; [exact He|].
  exact (proj1 (identical_signals_full_confidence DirectionEstimator.init [1; 2; 3; 4] 4
                  Hpos He)).
Defined.

(** ** The azimuth *)

Lemma Q2R_Z (z : Z) : Q2R (inject_Z z) = IZR z.
Proof. unfold Q2R, inject_Z. cbn. lra. Qed.

(** [constrain] keeps the sign of a value. *)
Lemma constrain_sign v :
  (0 < v -> 0 < fconstrain v (lit (-1)) (lit 1) <= 1) /\
  (v < 0 -> -1 <= fconstrain v (lit (-1)) (lit 1) < 0).
Proof.
  unfold fconstrain, fgtb. cbn [fltb lit real_ops].
  replace (Q2R (-1)) with (-1) by (unfold Q2R; cbn; lra).
  replace (Q2R 1) with 1 by (unfold Q2R; cbn; lra).
  destruct (Rltb v (-1)) eqn:E1; [apply Rltb_true' in E1|apply Rltb_false' in E1];
    (destruct (Rltb 1 v) eqn:E2; [apply Rltb_true' in E2|apply Rltb_false' in E2]);
    split; intros; lra.
Qed.

Lemma atan_m1 : atan (-1) = - (PI / 4).
Proof. replace (-1) with (Ropp 1) by lra. rewrite atan_opp, atan_1. reflexivity. Qed.

(** X9. In exact arithmetic, when the four lags are the same number [L] (as
    they are when the four microphone signals are identical), the azimuth
    carries no information about the source: it is 135 degrees for every
    positive [L] and 315 degrees for every negative [L]. *)
Theorem equal_lags_fix_azimuth :
  forall (d : DirectionEstimator.t R) (L : R),
    0 < _speedOfSound d -> 0 < _micSpacingM d -> (0 < _sampleRate d)%Z ->
    (0 < L -> tdoaToAzimuth d L L L L = 135) /\
    (L < 0 -> tdoaToAzimuth d L L L L = 315).
Proof.
  intros d L Hc Hm Hsr.
  assert (Hsr' : 0 < IZR (_sampleRate d)) by (now apply IZR_lt).
  unfold tdoaToAzimuth. cbn zeta.
  cbn [fatan2 PI_const real_libm fmul fdiv fadd fneg fltb of_int lit real_ops].
  set (v := _speedOfSound d * ((L / IZR (_sampleRate d) + L / IZR (_sampleRate d)) / Q2R 2)
            / _micSpacingM d).
  assert (Hv : v = L * (_speedOfSound d / (IZR (_sampleRate d) * _micSpacingM d))).
  { unfold v. replace (Q2R 2) with 2 by (unfold Q2R; cbn; lra). field. lra. }
  assert (Hk : 0 < _speedOfSound d / (IZR (_sampleRate d) * _micSpacingM d)).
  { apply Rdiv_lt_0_compat; [exact Hc|]. now apply Rmult_lt_0_compat. }
  set (k := _speedOfSound d / (IZR (_sampleRate d) * _micSpacingM d)) in *.
  destruct (constrain_sign v) as (Hp & Hn).
  set (s := fconstrain v (lit (-1)) (lit 1)) in *.
  pose proof PI_RGT_0 as Hpi.
  replace (Q2R 180) with 180 by (unfold Q2R; cbn; lra).
  replace (Q2R 360) with 360 by (unfold Q2R; cbn; lra).
  change (fconstrain v (Q2R (-1)) (Q2R 1)) with s.
  split; intros HL.
  - assert (Hvp : 0 < v) by (rewrite Hv; now apply Rmult_lt_0_compat).
    specialize (Hp Hvp).
    assert (Ha : Ratan2 s (- s) = 3 * (PI / 4)).
    { unfold Ratan2.
      destruct (Rlt_dec 0 (- s)); [lra|].
      destruct (Rlt_dec (- s) 0); [|lra].
      destruct (Rle_dec 0 s); [|lra].
      replace (s / - s) with (-1) by (field; lra).
      rewrite atan_m1. lra. }
    rewrite Ha.
    replace (3 * (PI / 4) * 180 / PI) with 135 by (field; lra).
    assert (E : Rltb 135 0 = false) by (apply Rltb_false'; lra).
    rewrite E. reflexivity.
  - assert (Hvn : v < 0).
    { rewrite Hv. replace 0 with (0 * k) by ring.
      now apply Rmult_lt_compat_r. }
    specialize (Hn Hvn).
    assert (Ha : Ratan2 s (- s) = - (PI / 4)).
    { unfold Ratan2.
      destruct (Rlt_dec 0 (- s)); [|lra].
      replace (s / - s) with (-1) by (field; lra).
      apply atan_m1. }
    rewrite Ha.
    replace (- (PI / 4) * 180 / PI) with (-45) by (field; lra).
    assert (E : Rltb (-45) 0 = true) by (apply Rltb_true'; lra).
    rewrite E. lra.
Qed.

Lemma equal_lags_fix_azimuth_witness :
  0 < _speedOfSound configured /\ 0 < _micSpacingM configured /\
  (0 < _sampleRate configured)%Z /\
  tdoaToAzimuth configured 3 3 3 3 = 135 /\
  tdoaToAzimuth configured (-7) (-7) (-7) (-7) = 315.
Proof.
  assert (Hc : 0 < _speedOfSound configured).
  { cbn. unfold Config.SPEED_OF_SOUND, Q2R; cbn. lra. }
  assert (Hm : 0 < _micSpacingM configured).
  { cbn. unfold Config.MIC_SPACING_MM, Q2R; cbn. lra. }
  assert (Hsr : (0 < _sampleRate configured)%Z) by (cbn; reflexivity).
  split; [exact Hc|]. split; [exact Hm|]. split; [exact Hsr|].
  split.
  - apply (proj1 (equal_lags_fix_azimuth configured 3 Hc Hm Hsr)). lra.
  - apply (proj2 (equal_lags_fix_azimuth configured (-7) Hc Hm Hsr)). lra.
Defined.

End Exact.
End CorrelationFacts.

(* ===================================================================== *)
(** * Spectrogram Engine: level, peak, mel scale, window, noise floor *)
(* ===================================================================== *)

Module Features.
Import AudioProcessor MelSpectrogram MelSpectrogramFacts.

(** ** Any arithmetic *)

Section WithFloat.
Context {F : Type} {FO : FloatOps F} {LM : Libm F} {FFT : ArduinoFFT F}.
Local Open Scope fl_scope.

(** The search keeps an index that is 0 or a bin of [1 .. fftSize / 2 - 1]. *)
Lemma peak_search_index fftSize (vReal : list F) :
  (snd (peak_search fftSize vReal) = 0 \/
   1 <= snd (peak_search fftSize vReal) < Z.quot fftSize 2)%Z.
Proof.
  unfold peak_search.
  set (body := fun (i : Z) (st : F * Z) => _).
  destruct (Z.le_gt_cases 1 (Z.quot fftSize 2)) as [Hle|Hgt].
  - assert (H : (fun k st => snd st = 0 \/ 1 <= snd st < k)%Z
                  (Z.quot fftSize 2) (for_loop 1 (Z.quot fftSize 2) body (lit 0, 0%Z))).
    { apply for_loop_inv; [lia|left; reflexivity|].
      intros k [mm mi] Hk Hst. unfold body.
      destruct (fgtb _ mm); cbn [snd] in *; lia. }
    exact H.
  - rewrite for_loop_nil by lia. left. reflexivity.
Qed.

(** [computePeakFrequency] returns [maxIndex * sampleRate / fftSize] for
    an index that is a bin of [1 .. fftSize / 2 - 1], or 0 when no bin of
    that range has a magnitude above zero: the bin 0 and the bins from
    [fftSize / 2] on are never reported. *)
Lemma computePeakFrequency_bin :
  forall (a : AudioProcessor.t F) (samples : list F) (numSamples : Z),
    exists maxIndex : Z,
      computePeakFrequency a samples numSamples =
        of_int maxIndex * of_int (_sampleRate a) / of_int (_fftSize a) /\
      (maxIndex = 0 \/ 1 <= maxIndex < Z.quot (_fftSize a) 2)%Z.
Proof.
  intros a samples numSamples. unfold computePeakFrequency. cbn zeta.
  eexists. split; [reflexivity|]. apply peak_search_index.
Qed.

(** X10. The noise floor given to [setNoiseFloor] is the one
    [computeMelSpectrogram] then works with: band [m] of a later frame is the
    band's level in dB with [noiseFloor[m]] subtracted and the result
    floored at zero when [noiseFloor[m]] is not zero, and the level in dB
    itself when it is zero; nothing else of the processor changes. *)
Theorem setNoiseFloor_then_spectrogram :
  forall (a : AudioProcessor.t F) (noiseFloor audioSamples melOutput : list F)
         (numSamples m : Z),
    (0 <= _fftSize a)%Z ->
    (_melBins a <= Z.of_nat (length (_noiseFloor a)))%Z ->
    (_melBins a <= Z.of_nat (length melOutput))%Z ->
    (0 <= m < _melBins a)%Z ->
    let a' := setNoiseFloor noiseFloor a in
    aget (_noiseFloor a') m = aget noiseFloor m /\
    _melFilterbank a' = _melFilterbank a /\ _window a' = _window a /\
    aget (computeMelSpectrogram a' audioSamples numSamples melOutput) m =
      subtract_noise (aget noiseFloor m)
        (to_dB (weighted_sum (_melFilterbank a) (numFftBins (_fftSize a))
                  (fft_magnitude
                     (windowed_padded (_window a) (_fftSize a) audioSamples numSamples))
                  m)).
Proof.
  intros a noiseFloor audioSamples melOutput numSamples m Hn Hnf Hout Hm a'.
  assert (Hget : aget (_noiseFloor a') m = aget noiseFloor m).
  { unfold a', setNoiseFloor. cbn [_noiseFloor].
    destruct (memcpy_spec (_noiseFloor a) noiseFloor 0 (_melBins a)) as (_ & Hg);
      [lia|lia|lia|].
    rewrite Hg.
    replace ((0 <=? m) && (m <? 0 + _melBins a))%Z with true.
    - f_equal. lia.
    - symmetry. apply andb_true_iff. split; [apply Z.leb_le|apply Z.ltb_lt]; lia. }
  split; [exact Hget|]. split; [reflexivity|]. split; [reflexivity|].
  destruct (computeMelSpectrogram_spec a' audioSamples numSamples melOutput)
    as (_ & Hb); [exact Hn|exact Hout|].
  rewrite (Hb m Hm), Hget. reflexivity.
Qed.

End WithFloat.

(** ** IEEE single precision *)

Section Binary32Level.
Import Binary32.

(** X11. On IEEE single precision, [computeRMS] of no samples
    ([numSamples = 0]) divides zero by zero: whatever the array, the result
    is not a number. *)
Theorem computeRMS_of_nothing :
  forall samples : list binary32, computeRMS samples 0 = S754_nan.
Proof.
  intros samples. unfold computeRMS. cbn zeta.
  rewrite for_loop_nil by lia. vm_compute. reflexivity.
Qed.

End Binary32Level.

(** ** Exact arithmetic *)

Section Exact.
Import Real Direction Correlation DirectionFacts CorrelationFacts.
Local Open Scope R_scope.

Lemma setNoiseFloor_then_spectrogram_witness :
  (0 <= 8)%Z /\
  (2 <= Z.of_nat (length (zeros (F:=R) 2)))%Z /\
  (0 <= 1 < 2)%Z /\
  aget (_noiseFloor
          (setNoiseFloor [IZR 7; IZR 9]
             (AudioProcessor.mk 8000 8 2 (repeat (IZR 1) 10) (zeros 2)
                (createHannWindow 8 (zeros 8))))) 1
  = aget [IZR 7; IZR 9] 1.
Proof.
  assert (H1 : (0 <= 8)%Z) by lia.
  assert (H2 : (2 <= Z.of_nat (length (zeros (F:=R) 2)))%Z)
    by (unfold zeros; rewrite repeat_length; lia).
  assert (H3 : (0 <= 1 < 2)%Z) by lia.
  split; [exact H1|]. split; [exact H2|]. split; [exact H3|].
  exact (proj1 (setNoiseFloor_then_spectrogram
                  (AudioProcessor.mk 8000 8 2 (repeat (IZR 1) 10) (zeros 2)
                     (createHannWindow 8 (zeros 8)))
                  [IZR 7; IZR 9] [IZR 1; IZR 2; IZR 3; IZR 4] (zeros 2) 4 1
                  H1 H2 H2 H3)).
Defined.

Lemma sum_loop (x : list R) (l : list Z) : forall acc : R,
  fold_left (fun sum i => (sum + aget x i * aget x i)%fl) l acc = acc + sum_sq x l.
Proof.
  induction l as [|i l IH]; intros acc; cbn [fold_left sum_sq]; [lra|].
  rewrite IH. cbn [fadd fmul real_ops]. lra.
Qed.

Lemma sum_sq_bound (x : list R) A (l : list Z) :
  (forall i, In i l -> - A <= aget x i <= A) ->
  0 <= sum_sq x l <= INR (length l) * (A * A).
Proof.
  induction l as [|i l IH]; intros H.
  - cbn. lra.
  - cbn [sum_sq length]. rewrite S_INR.
    destruct IH as (IH0 & IH1); [intros k Hk; apply H; now right|].
    specialize (H i (or_introl eq_refl)).
    assert (P : 0 <= aget x i * aget x i <= A * A).
    { split; [apply Rle_0_sqr|].
      assert (Q : 0 <= (A - aget x i) * (A + aget x i))
        by (apply Rmult_le_pos; lra).
      lra. }
    lra.
Qed.

(** X12. In exact arithmetic, for a positive number of samples, [computeRMS]
    is the root of the mean of the squares: it is not negative, its square
    times [numSamples] is the sum of the squares of the samples, and it does
    not exceed a bound [A] on the magnitude of the samples. *)
Theorem computeRMS_root_mean_square :
  forall (samples : list R) (numSamples : Z) (A : R),
    (0 < numSamples)%Z ->
    (forall i, (0 <= i < numSamples)%Z -> - A <= aget samples i <= A) ->
    let rms := computeRMS samples numSamples in
    0 <= rms <= A /\
    rms * rms * IZR numSamples = sum_sq samples (zrange 0 numSamples).
Proof.
  intros samples numSamples A Hn Hb rms.
  assert (Hn' : 0 < IZR numSamples) by (now apply IZR_lt).
  assert (E : rms = sqrt (sum_sq samples (zrange 0 numSamples) / IZR numSamples)).
  { unfold rms, computeRMS, for_loop. cbn zeta. rewrite sum_loop.
    cbn [fsqrt fdiv of_int lit real_ops]. rewrite RMicromega.Q2R_0. f_equal. f_equal. lra. }
  destruct (sum_sq_bound samples A (zrange 0 numSamples)) as (H0 & H1).
  { intros i Hi. apply zrange_In in Hi. apply Hb. lia. }
  rewrite zrange_length, Z.sub_0_r, INR_IZR_INZ, Z2Nat.id in H1 by lia.
  set (S := sum_sq samples (zrange 0 numSamples)) in *.
  assert (HA : 0 <= A).
  { specialize (Hb 0%Z ltac:(lia)). lra. }
  assert (Hq : 0 <= S / IZR numSamples <= A * A).
  { split.
    - apply Rmult_le_pos; [exact H0|]. left. now apply Rinv_0_lt_compat.
    - apply Rmult_le_reg_r with (r := IZR numSamples); [exact Hn'|].
      unfold Rdiv. rewrite Rmult_assoc, Rinv_l by lra. lra. }
  rewrite E. split; [split|].
  - apply sqrt_pos.
  - rewrite <- (sqrt_square A HA). apply sqrt_le_1; lra.
  - rewrite sqrt_sqrt by lra. field. lra.
Qed.

Lemma computeRMS_root_mean_square_witness :
  (0 < 2)%Z /\
  (forall i, (0 <= i < 2)%Z -> - 4 <= aget [3; 4] i <= 4) /\
  0 <= computeRMS [3; 4] 2 <= 4.
Proof.
  assert (Hn : (0 < 2)%Z) by lia.
  assert (Hb : forall i, (0 <= i < 2)%Z -> - 4 <= aget [3; 4] i <= 4).
  { intros i Hi. assert (Hc : i = 0%Z \/ i = 1%Z) by lia.
    destruct Hc as [-> | ->].
    - change (aget [3; 4] 0%Z) with 3. lra.
    - change (aget [3; 4] 1%Z) with 4. lra. }
  split; [exact Hn|]. split; [exact Hb|].
  exact (proj1 (computeRMS_root_mean_square [3; 4] 2 4 Hn Hb)).
Defined.

(** The peak search in exact arithmetic: the first bin of largest magnitude
    among those above zero. *)
Lemma peak_search_first_maximum fftSize (v : list R) :
  let r := peak_search fftSize v in
  (snd r = 0%Z /\ forall i, (1 <= i < Z.quot fftSize 2)%Z -> aget v i <= 0) \/
  ((1 <= snd r < Z.quot fftSize 2)%Z /\ 0 < aget v (snd r) /\
   (forall i, (1 <= i < Z.quot fftSize 2)%Z -> aget v i <= aget v (snd r)) /\
   (forall i, (1 <= i < snd r)%Z -> aget v i < aget v (snd r))).
Proof.
  cbn zeta. unfold peak_search.
  set (body := fun (i : Z) (st : R * Z) => _).
  set (hi := Z.quot fftSize 2).
  destruct (Z.le_gt_cases 1 hi) as [Hle|Hgt].
  2:{ rewrite for_loop_nil by lia. left. split; [reflexivity|]. intros i Hi. lia. }
  assert (H : (fun k st =>
                 (st = (0, 0%Z) /\ forall i, (1 <= i < k)%Z -> aget v i <= 0) \/
                 ((1 <= snd st < k)%Z /\ fst st = aget v (snd st) /\ 0 < fst st /\
                  (forall i, (1 <= i < k)%Z -> aget v i <= fst st) /\
                  (forall i, (1 <= i < snd st)%Z -> aget v i < fst st)))
                hi (for_loop 1 hi body (lit 0, 0%Z))).
  { apply for_loop_inv; [exact Hle| |].
    - left. split; [cbn; now rewrite RMicromega.Q2R_0|]. intros i Hi. lia.
    - intros k [mm mi] Hk Hst. unfold body, fgtb. cbn [fltb real_ops].
      destruct Hst as [(E & Hz)|(Hr & He & Hp & Hmax & Hfirst)].
      + injection E as -> ->.
        destruct (Rltb 0 (aget v k)) eqn:Eb.
        * apply Rltb_true' in Eb. right. cbn [fst snd].
          repeat split; try lia; try assumption.
          -- intros i Hi. destruct (Z.eq_dec i k) as [->|Hne]; [lra|].
             specialize (Hz i ltac:(lia)). lra.
          -- intros i Hi. specialize (Hz i ltac:(lia)). lra.
        * apply Rltb_false' in Eb. left. split; [reflexivity|].
          intros i Hi. destruct (Z.eq_dec i k) as [->|Hne]; [lra|].
          apply Hz. lia.
      + cbn [fst snd] in *.
        destruct (Rltb mm (aget v k)) eqn:Eb.
        * apply Rltb_true' in Eb. right. cbn [fst snd].
          repeat split; try lia; try lra.
          -- intros i Hi. destruct (Z.eq_dec i k) as [->|Hne]; [lra|].
             specialize (Hmax i ltac:(lia)). lra.
          -- intros i Hi. specialize (Hmax i ltac:(lia)). lra.
        * apply Rltb_false' in Eb. right. cbn [fst snd].
          repeat split; try lia; try assumption.
          intros i Hi. destruct (Z.eq_dec i k) as [->|Hne]; [lra|].
          apply Hmax. lia. }
  cbn beta in H. destruct H as [(E & Hz)|(Hr & He & Hp & Hmax & Hfirst)].
  - left. rewrite E. split; [reflexivity|exact Hz].
  - right. rewrite <- He. repeat split; try lia; assumption.
Qed.

(** X13. In exact arithmetic, [computePeakFrequency] reports the frequency
    [maxIndex * sampleRate / fftSize] of the first bin, among the bins
    [1 .. fftSize / 2 - 1], whose magnitude is the largest, provided that
    magnitude is above zero; when no bin of the range is above zero it
    reports 0 Hz.  For a positive sample rate and transform size the
    frequency reported is below half the sample rate. *)
Theorem computePeakFrequency_first_peak :
  forall (a : AudioProcessor.t R) (samples : list R) (numSamples : Z),
    let v := fft_magnitude (fill_vReal a samples numSamples) in
    let hi := Z.quot (_fftSize a) 2 in
    exists maxIndex : Z,
      computePeakFrequency a samples numSamples =
        IZR maxIndex * IZR (_sampleRate a) / IZR (_fftSize a) /\
      ((maxIndex = 0%Z /\ forall i, (1 <= i < hi)%Z -> aget v i <= 0) \/
       ((1 <= maxIndex < hi)%Z /\ 0 < aget v maxIndex /\
        (forall i, (1 <= i < hi)%Z -> aget v i <= aget v maxIndex) /\
        (forall i, (1 <= i < maxIndex)%Z -> aget v i < aget v maxIndex))) /\
      ((0 < _fftSize a)%Z -> (0 < _sampleRate a)%Z ->
       0 <= computePeakFrequency a samples numSamples < IZR (_sampleRate a) / 2).
Proof.
  intros a samples numSamples v hi.
  pose proof (peak_search_first_maximum (_fftSize a) v) as H. cbn zeta in H.
  unfold computePeakFrequency. cbn zeta. fold v.
  set (idx := snd (peak_search (_fftSize a) v)) in *. fold hi in H.
  exists idx. split; [reflexivity|]. split; [exact H|].
  intros HN Hsr. cbn [fmul fdiv of_int real_ops].
  assert (HN' : 0 < IZR (_fftSize a)) by (now apply IZR_lt).
  assert (Hsr' : 0 < IZR (_sampleRate a)) by (now apply IZR_lt).
  assert (Hidx : (0 <= idx /\ 2 * idx < _fftSize a)%Z).
  { assert (Hq : (2 * hi <= _fftSize a)%Z).
    { unfold hi. pose proof (Z.quot_rem' (_fftSize a) 2) as Hqr.
      pose proof (Z.rem_bound_pos (_fftSize a) 2 ltac:(lia) ltac:(lia)). lia. }
    destruct H as [(-> & _)|(Hr & _)]; lia. }
  destruct Hidx as (Hi0 & Hi1).
  apply IZR_le in Hi0. apply IZR_lt in Hi1. rewrite mult_IZR in Hi1.
  split.
  - apply Rmult_le_pos; [|left; now apply Rinv_0_lt_compat].
    apply Rmult_le_pos; lra.
  - apply Rmult_lt_reg_r with (r := IZR (_fftSize a)); [exact HN'|].
    unfold Rdiv at 1. rewrite Rmult_assoc, Rinv_l by lra.
    rewrite Rmult_1_r.
    assert (Hm : IZR idx * IZR (_sampleRate a) * 2 < IZR (_fftSize a) * IZR (_sampleRate a)).
    { replace (IZR idx * IZR (_sampleRate a) * 2)
        with (2 * IZR idx * IZR (_sampleRate a)) by ring.
      apply Rmult_lt_compat_r; lra. }
    lra.
Qed.

(** X14. In exact arithmetic, the mel scale conversions are inverse to each
    other: [melToHz(hzToMel(hz)) = hz] for every frequency above -700 Hz,
    and [hzToMel(melToHz(mel)) = mel] for every mel value. *)
Theorem mel_scale_round_trip :
  (forall hz : R, -700 < hz -> melToHz (hzToMel hz) = hz) /\
  (forall mel : R, hzToMel (melToHz mel) = mel).
Proof.
  pose proof RealFilterbankFacts.ln_10_pos as H10.
  assert (E10 : Q2R 10 = 10) by (unfold Q2R; cbn; lra).
  assert (E1 : Q2R 1 = 1) by (unfold Q2R; cbn; lra).
  assert (E700 : Q2R 700 = 700) by (unfold Q2R; cbn; lra).
  assert (E2595 : Q2R 2595 = 2595) by (unfold Q2R; cbn; lra).
  split.
  - intros hz Hhz. unfold melToHz, hzToMel.
    cbn [lit fmul fsub fadd fdiv fpow flog10 real_ops real_libm].
    rewrite E10, E1, E700, E2595. unfold Rpower.
    replace (2595 * (ln (1 + hz / 700) / ln 10) / 2595 * ln 10)
      with (ln (1 + hz / 700)) by (field; lra).
    rewrite exp_ln by lra. field.
  - intros mel. unfold melToHz, hzToMel.
    cbn [lit fmul fsub fadd fdiv fpow flog10 real_ops real_libm].
    rewrite E10, E1, E700, E2595. unfold Rpower.
    replace (1 + 700 * (exp (mel / 2595 * ln 10) - 1) / 700)
      with (exp (mel / 2595 * ln 10)) by (field; lra).
    rewrite ln_exp. field. lra.
Qed.

(** The Hann coefficient of index [i]. *)
Lemma hann_value (N i : Z) :
  hann N i = / 2 * (1 - cos (2 * PI * IZR i / IZR (N - 1))).
Proof.
  unfold hann. cbn [lit fmul fsub fdiv fcos of_int PI_const real_ops real_libm].
  replace (Q2R 0.5) with (/ 2) by (unfold Q2R; cbn; lra).
  replace (Q2R 1) with 1 by (unfold Q2R; cbn; lra).
  replace (Q2R 2) with 2 by (unfold Q2R; cbn; lra).
  reflexivity.
Qed.

(** X15. In exact arithmetic, the window [createHannWindow] builds for a
    transform of two points or more has its coefficients in [0, 1], is
    symmetric about its middle, and is zero at both ends. *)
Theorem hann_window_shape :
  forall N : Z,
    (2 <= N)%Z ->
    let w := createHannWindow N (zeros N) in
    length w = Z.to_nat N /\
    (forall i, (0 <= i < N)%Z ->
       0 <= aget w i <= 1 /\ aget w i = aget w (N - 1 - i)%Z) /\
    aget w 0 = 0 /\ aget w (N - 1)%Z = 0.
Proof.
  intros N HN w.
  assert (Hw : w = hann_window N) by (apply createHannWindow_spec; lia).
  assert (Hget : forall i, (0 <= i < N)%Z -> aget w i = hann N i).
  { intros i Hi. rewrite Hw. unfold hann_window. now apply aget_map_zrange. }
  assert (HN1 : 0 < IZR (N - 1)) by (apply IZR_lt; lia).
  assert (Hsym : forall i, hann N (N - 1 - i) = hann N i).
  { intros i. rewrite !hann_value. f_equal. f_equal.
    replace (2 * PI * IZR (N - 1 - i) / IZR (N - 1))
      with (- (2 * PI * IZR i / IZR (N - 1)) + 2 * INR 1 * PI).
    - rewrite cos_period, cos_neg. reflexivity.
    - rewrite !minus_IZR. cbn [INR]. field.
      rewrite <- minus_IZR. lra. }
  split; [|split; [|split]].
  - rewrite Hw. unfold hann_window. rewrite length_map, zrange_length. f_equal. lia.
  - intros i Hi. rewrite !Hget by lia. rewrite Hsym. split; [|reflexivity].
    rewrite hann_value.
    pose proof (COS_bound (2 * PI * IZR i / IZR (N - 1))) as Hc. lra.
  - rewrite Hget by lia. rewrite hann_value.
    replace (2 * PI * IZR 0 / IZR (N - 1)) with 0 by (field; lra).
    rewrite cos_0. lra.
  - rewrite Hget by lia. rewrite <- (Hsym (N - 1)%Z).
    replace (N - 1 - (N - 1))%Z with 0%Z by lia. rewrite hann_value.
    replace (2 * PI * IZR 0 / IZR (N - 1)) with 0 by (field; lra).
    rewrite cos_0. lra.
Qed.

Lemma hann_window_shape_witness :
  (2 <= Config.FFT_SIZE)%Z /\
  aget (createHannWindow (F:=R) Config.FFT_SIZE (zeros Config.FFT_SIZE))
       (Config.FFT_SIZE - 1) = 0.
Proof.
  assert (H : (2 <= Config.FFT_SIZE)%Z) by (vm_compute; discriminate).
  split; [exact H|].
  pose proof (hann_window_shape Config.FFT_SIZE H) as Hs.
  cbv zeta in Hs. destruct Hs as (_ & _ & _ & Hs). exact Hs.
Defined.

Lemma log10_tiny : ln (Q2R 1e-10) / ln 10 = -10.
Proof.
  pose proof RealFilterbankFacts.ln_10_pos as H10.
  replace (Q2R 1e-10) with (/ (10 ^ 10)).
  - rewrite ln_Rinv by (apply pow_lt; lra).
    rewrite ln_pow by lra. cbn [INR]. field. lra.
  - unfold Q2R. cbn [Qnum Qden]. simpl. lra.
Qed.

Lemma to_dB_floor (s : R) : -200 <= to_dB s.
Proof.
  pose proof RealFilterbankFacts.ln_10_pos as H10. pose proof tiny_pos as Ht.
  unfold to_dB, fmax. cbn [lit fmul flog10 fltb real_ops real_libm].
  replace (Q2R 20) with 20 by (unfold Q2R; cbn; lra).
  assert (Hm : ln (Q2R 1e-10) / ln 10
               <= ln (if Rltb s (Q2R 1e-10) then Q2R 1e-10 else s) / ln 10).
  { unfold Rdiv. apply Rmult_le_compat_r; [left; now apply Rinv_0_lt_compat|].
    destruct (Rltb s (Q2R 1e-10)) eqn:E; [lra|].
    apply Rltb_false' in E. apply RealFilterbankFacts.ln_mono; lra. }
  rewrite log10_tiny in Hm. lra.
Qed.

(** X16. In exact arithmetic, a band of the mel spectrogram is never below
    -200 dB while its noise floor is zero; and a band whose noise floor is
    not zero is never negative, so that the remap of [runInference()] from
    dB to [0, 1], [(val + 80) / 80] clamped, sends it to exactly 1. *)
Theorem calibrated_band_saturates :
  forall (a : AudioProcessor.t R) (audioSamples melOutput : list R) (numSamples m : Z),
    (0 <= _fftSize a)%Z ->
    (_melBins a <= Z.of_nat (length melOutput))%Z ->
    (0 <= m < _melBins a)%Z ->
    let val := aget (computeMelSpectrogram a audioSamples numSamples melOutput) m in
    (aget (_noiseFloor a) m = 0 -> -200 <= val) /\
    (aget (_noiseFloor a) m <> 0 -> 0 <= val /\ RollingBuffer.normalize val = 1).
Proof.
  intros a audioSamples melOutput numSamples m Hn Hout Hm val.
  destruct (computeMelSpectrogram_spec a audioSamples numSamples melOutput)
    as (_ & Hb); [exact Hn|exact Hout|].
  unfold val. rewrite (Hb m Hm).
  set (dB := to_dB _). pose proof (to_dB_floor
    (weighted_sum (_melFilterbank a) (numFftBins (_fftSize a))
       (fft_magnitude (windowed_padded (_window a) (_fftSize a) audioSamples numSamples))
       m)) as Hfl.
  fold dB in Hfl.
  unfold subtract_noise, fneb. cbn [feqb lit real_ops]. rewrite RMicromega.Q2R_0.
  unfold Reqb. destruct (Req_dec_T (aget (_noiseFloor a) m) 0) as [E|E]; cbn [negb].
  - split; [intros _; exact Hfl|]. intros H. contradiction.
  - split; [intros H; contradiction|]. intros _.
    unfold fmax. cbn [fltb fsub real_ops].
    set (x := dB - aget (_noiseFloor a) m).
    assert (Hx : 0 <= (if Rltb x 0 then 0 else x)).
    { destruct (Rltb x 0) eqn:Eb; [lra|]. now apply Rltb_false' in Eb. }
    set (y := if Rltb x 0 then 0 else x) in *.
    split; [exact Hx|].
    unfold RollingBuffer.normalize, fconstrain, fgtb.
    cbn [fltb fadd fdiv lit real_ops].
    replace (Q2R 80) with 80 by (unfold Q2R; cbn; lra).
    replace (Q2R 1) with 1 by (unfold Q2R; cbn; lra).
    rewrite RMicromega.Q2R_0.
    assert (Hz : 1 <= (y + 80) / 80) by lra.
    assert (E1 : Rltb ((y + 80) / 80) 0 = false) by (apply Rltb_false'; lra).
    rewrite E1.
    destruct (Rltb 1 ((y + 80) / 80)) eqn:E2; [reflexivity|].
    apply Rltb_false' in E2. lra.
Qed.

Lemma calibrated_band_saturates_witness :
  (0 <= 8)%Z /\ (2 <= Z.of_nat (length (zeros (F:=R) 2)))%Z /\ (0 <= 1 < 2)%Z /\
  RollingBuffer.normalize
    (aget (computeMelSpectrogram
             (AudioProcessor.mk 8000 8 2 (repeat 1 10) [5; 5]
                (createHannWindow 8 (zeros 8)))
             [1; 2; 3; 4] 4 (zeros 2)) 1) = 1.
Proof.
  assert (H1 : (0 <= 8)%Z) by lia.
  assert (H2 : (2 <= Z.of_nat (length (zeros (F:=R) 2)))%Z)
    by (unfold zeros; rewrite repeat_length; lia).
  assert (H3 : (0 <= 1 < 2)%Z) by lia.
  split; [exact H1|]. split; [exact H2|]. split; [exact H3|].
  apply (proj2 (calibrated_band_saturates
                  (AudioProcessor.mk 8000 8 2 (repeat 1 10) [5; 5]
                     (createHannWindow 8 (zeros 8)))
                  [1; 2; 3; 4] (zeros 2) 4 1 H1 H2 H3)).
  change (5 <> 0). lra.
Defined.

End Exact.
End Features.

(* ===================================================================== *)
(** * Detection Orchestrator: modes, battery, model, pacing *)
(* ===================================================================== *)

Module OperationFacts.
Import Operation.
Import Machine Config Main Orchestrator Scenario OrchestratorFacts ScenarioFacts.

(** ** On the view *)

Lemma v_button_keeps b v :
  v_count (v_button b v) = v_count v /\
  v_lastDetection (v_button b v) = v_lastDetection v /\
  v_lastAlert (v_button b v) = v_lastAlert v /\
  v_lastProcess (v_button b v) = v_lastProcess v.
Proof.
  destruct b; cbn; try (repeat split; reflexivity).
  destruct (v_state v); repeat split; reflexivity.
Qed.

(** An iteration stamps [lastProcessTime] only when the hop interval has
    elapsed on the clock; a frame processed in SCAN or ALERT is stamped. *)
Lemma v_loop_process T b low q v :
  let r := v_loop T b low q v in
  (ev_processed (snd r) = true ->
   HOP_MS <= usub (millis T) (v_lastProcess v) /\ v_lastProcess (fst r) = millis T) /\
  (v_lastProcess (fst r) = v_lastProcess v \/ v_lastProcess (fst r) = millis T).
Proof.
  cbn zeta. unfold v_loop. cbn zeta.
  destruct (v_button_keeps b v) as (_ & _ & _ & Hp).
  set (v1 := v_button b v) in *.
  set (v2 := if low then _ else v1).
  assert (H2 : v_lastProcess v2 = v_lastProcess v).
  { unfold v2. destruct low; cbn; assumption. }
  clearbody v2. clear v1 Hp.
  destruct (v_state v2); cbn [fst snd ev_processed no_events];
    try (split; [discriminate|left; exact H2]).
  - destruct (HOP_MS <=? usub (millis T) (v_lastProcess v2)) eqn:E.
    + apply Z.leb_le in E. rewrite H2 in E. unfold v_cycle. cbn. auto.
    + cbn. split; [discriminate|left; exact H2].
  - destruct (HOP_MS <=? usub (millis T) (v_lastProcess v2)) eqn:E.
    + apply Z.leb_le in E. rewrite H2 in E. unfold v_cycle. cbn. auto.
    + cbn. split; [discriminate|left; exact H2].
  - split; [discriminate|].
    destruct (HOP_MS <=? usub (millis T) (v_lastProcess v2)); cbn; auto.
Qed.

Lemma usub_millis_ge T0 T d :
  T0 <= T -> d <= usub (millis T) (millis T0) -> d <= T - T0.
Proof.
  intros Hle Hd. pose proof (usub_millis_le T0 T Hle). lia.
Qed.

(** Along a run in time order, starting with the process stamp of true time
    [T0] not after the run, the frames processed are at least a hop after
    [T0] and a hop apart. *)
Lemma v_run_paced steps : forall v T0,
  time_ordered (map s_time steps) ->
  Forall (fun s => T0 <= s_time s) steps ->
  v_lastProcess v = millis T0 ->
  Forall (fun T => HOP_MS <= T - T0) (processed_times (snd (v_run v steps))) /\
  spaced HOP_MS (processed_times (snd (v_run v steps))).
Proof.
  induction steps as [|s steps IH]; intros v T0 Hord Hge Hst.
  - cbn. split; constructor.
  - cbn [v_run].
    destruct (v_loop_process (s_time s) (s_button s) (s_low s) (s_qualifies s) v)
      as (Hproc & Hstamp). cbn zeta in Hproc, Hstamp.
    destruct (v_loop (s_time s) (s_button s) (s_low s) (s_qualifies s) v) as [v1 ev].
    cbn [fst snd] in Hproc, Hstamp.
    cbn [map] in Hord. apply StronglySorted_inv in Hord. destruct Hord as (Hord & Hall).
    inversion Hge as [|? ? Hs0 Hge']; subst.
    assert (Hge1 : Forall (fun s' => s_time s <= s_time s') steps).
    { apply Forall_forall. intros s' Hin. rewrite Forall_forall in Hall.
      apply Hall. now apply in_map. }
    destruct (ev_processed ev) eqn:Eev.
    + destruct (Hproc eq_refl) as (Hhop & Hst1).
      destruct (IH v1 (s_time s) Hord Hge1 Hst1) as (IH1 & IH2).
      destruct (v_run v1 steps) as [v2 evs]. cbn [snd] in *.
      unfold processed_times in *. cbn [filter snd fst map]. rewrite Eev. cbn [map fst].
      rewrite Hst in Hhop. split.
      * constructor; [now apply usub_millis_ge|].
        eapply Forall_impl; [|exact IH1]. cbn. intros T HT. unfold HOP_MS in *.
        change (Z.quot (HOP_SIZE * 1000) SAMPLE_RATE) with 11 in *. lia.
      * apply spaced_cons; assumption.
    + assert (Hcase : exists T1, T0 <= T1 /\ v_lastProcess v1 = millis T1 /\
                                 Forall (fun s' => T1 <= s_time s') steps).
      { destruct Hstamp as [Hsame|Hnew].
        - exists T0. split; [lia|]. split; [congruence|exact Hge'].
        - exists (s_time s). split; [exact Hs0|]. split; [exact Hnew|exact Hge1]. }
      destruct Hcase as (T1 & HT1 & Hst1 & HgeT1).
      destruct (IH v1 T1 Hord HgeT1 Hst1) as (IH1 & IH2).
      destruct (v_run v1 steps) as [v2 evs]. cbn [snd] in *.
      unfold processed_times in *. cbn [filter snd fst map]. rewrite Eev.
      split; [|exact IH2].
      eapply Forall_impl; [|exact IH1]. cbn. intros T HT. lia.
Qed.

Lemma v_run_paced_any steps : forall v,
  time_ordered (map s_time steps) ->
  spaced HOP_MS (processed_times (snd (v_run v steps))).
Proof.
  induction steps as [|s steps IH]; intros v Hord; [exact I|].
  cbn [v_run].
  destruct (v_loop_process (s_time s) (s_button s) (s_low s) (s_qualifies s) v)
    as (Hproc & _). cbn zeta in Hproc.
  destruct (v_loop (s_time s) (s_button s) (s_low s) (s_qualifies s) v) as [v1 ev] eqn:Ev.
  cbn [fst snd] in Hproc.
  cbn [map] in Hord. apply StronglySorted_inv in Hord. destruct Hord as (Hord & Hall).
  destruct (ev_processed ev) eqn:Eev.
  - destruct (Hproc eq_refl) as (_ & Hst1).
    assert (Hge1 : Forall (fun s' => s_time s <= s_time s') steps).
    { apply Forall_forall. intros s' Hin. rewrite Forall_forall in Hall.
      apply Hall. now apply in_map. }
    destruct (v_run_paced steps v1 (s_time s) Hord Hge1 Hst1) as (H1 & H2).
    destruct (v_run v1 steps) as [v2 evs]. cbn [snd] in *.
    unfold processed_times in *. cbn [filter snd fst map]. rewrite Eev. cbn [map fst].
    apply spaced_cons; assumption.
  - specialize (IH v1 Hord).
    destruct (v_run v1 steps) as [v2 evs]. cbn [snd] in *.
    unfold processed_times in *. cbn [filter snd fst map]. now rewrite Eev.
Qed.

(** A cycle that does not qualify, with a count below the threshold, starts
    no alert and leaves the count below the threshold. *)
Lemma v_loop_quiet T b low v :
  v_count v < MIN_DETECTIONS_FOR_ALERT ->
  quiet (snd (v_loop T b low false v)) /\
  v_count (fst (v_loop T b low false v)) < MIN_DETECTIONS_FOR_ALERT.
Proof.
  intros Hc. unfold v_loop. cbn zeta.
  destruct (v_button_keeps b v) as (Hk & _).
  set (v1 := v_button b v) in *.
  set (v2 := if low then _ else v1).
  assert (H2 : v_count v2 = v_count v).
  { unfold v2. destruct low; cbn; assumption. }
  clearbody v2. clear v1 Hk. rewrite <- H2 in Hc.
  assert (Hcycle : quiet (snd (v_cycle (millis T) false v2)) /\
                   v_count (fst (v_cycle (millis T) false v2)) < MIN_DETECTIONS_FOR_ALERT).
  { unfold v_cycle, quiet. cbn zeta. cbn [fst snd ev_qualifying ev_alert v_count].
    assert (E : (MIN_DETECTIONS_FOR_ALERT <=? v_count v2) = false)
      by (apply Z.leb_gt; exact Hc).
    rewrite E. cbn [andb]. split; [split; reflexivity|].
    destruct (DETECTION_WINDOW_MS <? usub (millis T) (v_lastDetection v2));
      [reflexivity|exact Hc]. }
  unfold quiet in *.
  destruct (v_state v2); cbn [fst snd ev_qualifying ev_alert no_events v_count];
    try (split; [split; reflexivity|exact Hc]).
  - destruct (HOP_MS <=? usub (millis T) (v_lastProcess v2)); [exact Hcycle|].
    cbn. split; [split; reflexivity|exact Hc].
  - destruct (HOP_MS <=? usub (millis T) (v_lastProcess v2)); [exact Hcycle|].
    cbn. split; [split; reflexivity|exact Hc].
  - destruct (HOP_MS <=? usub (millis T) (v_lastProcess v2)); cbn;
      (split; [split; reflexivity|exact Hc]).
Qed.

(** ** On the globals (any arithmetic) *)

Section WithFloat.
Context {F : Type} {FO : FloatOps F} {LM : Libm F} {FFT : ArduinoFFT F}.
Local Open Scope fl_scope.

(** The alert manager's mode flag after the [update()] that ends an
    iteration. *)
Lemma update_hapticOnly now a p :
  AlertManager._hapticOnly (fst (AlertManager.update now a p)) = AlertManager._hapticOnly a.
Proof.
  unfold AlertManager.update, AlertManager.stopAlert.
  repeat match goal with |- context [if ?c then _ else _] => destruct c end;
    reflexivity.
Qed.

(** X17. An iteration of [loop()] whose battery reading is below the critical
    voltage puts the system in LOW_BATTERY and does nothing else for
    detection: no frame is read or processed, nothing is counted, no alert
    starts.  And once in LOW_BATTERY the system stays there on every
    iteration without a long press, whatever the battery then reads: a
    recovered voltage does not resume scanning. *)
Theorem low_battery_stops_detection :
  forall (g : Globals F) (inp : LoopInput F),
    battery_low inp = true \/
    (currentState g = STATE_LOW_BATTERY /\ in_button inp <> LongPress) ->
    let g' := fst (loop g inp) in
    currentState g' = STATE_LOW_BATTERY /\
    snd (loop g inp) = no_events /\
    detectionCount g' = detectionCount g /\
    lastAlertTime g' = lastAlertTime g /\
    audioBuffer g' = audioBuffer g /\
    melSpectrogram g' = melSpectrogram g /\
    spectrogramIndex g' = spectrogramIndex g.
Proof.
  intros g inp H g'. unfold g', loop. cbn zeta.
  change (readBatteryVoltage (in_adc inp) <? lit BATTERY_CRITICAL_VOLTAGE)
    with (battery_low inp).
  set (g1 := handleButton (in_button inp) g).
  assert (H1 : detectionCount g1 = detectionCount g /\
               lastAlertTime g1 = lastAlertTime g /\
               audioBuffer g1 = audioBuffer g /\
               melSpectrogram g1 = melSpectrogram g /\
               spectrogramIndex g1 = spectrogramIndex g).
  { unfold g1. destruct (in_button inp); cbn; try (repeat split; reflexivity).
    destruct (currentState g); repeat split; reflexivity. }
  set (g2 := if battery_low inp then set_currentState STATE_LOW_BATTERY g1 else g1).
  assert (H2 : currentState g2 = STATE_LOW_BATTERY /\
               detectionCount g2 = detectionCount g /\
               lastAlertTime g2 = lastAlertTime g /\
               audioBuffer g2 = audioBuffer g /\
               melSpectrogram g2 = melSpectrogram g /\
               spectrogramIndex g2 = spectrogramIndex g).
  { unfold g2. destruct H as [Hlow|(Hst & Hb)].
    - rewrite Hlow. cbn. exact (conj eq_refl H1).
    - assert (Hs1 : currentState g1 = STATE_LOW_BATTERY).
      { unfold g1. destruct (in_button inp); cbn; try assumption; try congruence.
        rewrite Hst. exact Hst. }
      destruct (battery_low inp); cbn; [exact (conj eq_refl H1)|exact (conj Hs1 H1)]. }
  clearbody g2. clear g1 H1. destruct H2 as (Hs & H2).
  rewrite Hs.
  destruct (AlertManager.update _ (alertManager g2) (gpio g2)) as [a p].
  cbn. split; [exact Hs|]. split; [reflexivity|exact H2].
Qed.

(** X18. In MONITOR mode, with a battery that reads well and no mode change
    from the button, an iteration detects nothing: it counts no detection,
    starts no alert and stays in MONITOR, while the spectrogram buffer is
    still fed at the hop rate. *)
Theorem monitor_mode_never_alerts :
  forall (g : Globals F) (inp : LoopInput F),
    currentState g = STATE_MONITOR ->
    battery_low inp = false ->
    in_button inp = NoAction \/ in_button inp = DoublePress ->
    let g' := fst (loop g inp) in
    currentState g' = STATE_MONITOR /\
    snd (loop g inp) = no_events /\
    detectionCount g' = detectionCount g /\
    lastDetectionTime g' = lastDetectionTime g /\
    lastAlertTime g' = lastAlertTime g /\
    spectrogramIndex g' =
      (if HOP_MS <=? usub (millis (in_time inp)) (lastProcessTime g)
       then Z.rem (spectrogramIndex g + 1) SPEC_TIME_FRAMES
       else spectrogramIndex g)%Z.
Proof.
  intros g inp Hst Hbat Hb g'.
  destruct (loop_view g inp) as (Hv & He). cbn zeta in Hv, He.
  assert (Hvl : v_loop (in_time inp) (in_button inp) (battery_low inp) (qualifies g inp)
                  (view g)
                = (mkView STATE_MONITOR (detectionCount g) (lastDetectionTime g)
                     (lastAlertTime g)
                     (match in_button inp with
                      | DoublePress => negb (audioMuted g) | _ => audioMuted g end)
                     (if (HOP_MS <=? usub (millis (in_time inp)) (lastProcessTime g))%Z
                      then millis (in_time inp) else lastProcessTime g),
                   no_events)).
  { unfold v_loop. cbn zeta. rewrite Hbat.
    destruct Hb as [-> | ->]; unfold view; cbn -[HOP_MS]; rewrite Hst; cbn -[HOP_MS];
      destruct (HOP_MS <=? usub (millis (in_time inp)) (lastProcessTime g))%Z;
      reflexivity. }
  rewrite Hvl in Hv, He. cbn [fst snd] in Hv, He.
  fold g' in Hv.
  assert (Hf : forall (p : View -> Z), p (view g') = p (mkView STATE_MONITOR
               (detectionCount g) (lastDetectionTime g) (lastAlertTime g)
               (match in_button inp with
                | DoublePress => negb (audioMuted g) | _ => audioMuted g end)
               (if (HOP_MS <=? usub (millis (in_time inp)) (lastProcessTime g))%Z
                then millis (in_time inp) else lastProcessTime g)))
    by (intros p; now rewrite Hv).
  split; [change (v_state (view g') = STATE_MONITOR); now rewrite Hv|].
  split; [exact He|].
  split; [exact (Hf v_count)|].
  split; [exact (Hf v_lastDetection)|].
  split; [exact (Hf v_lastAlert)|].
  (* the buffer cursor *)
  unfold g', loop. cbn zeta.
  change (readBatteryVoltage (in_adc inp) <? lit BATTERY_CRITICAL_VOLTAGE)
    with (battery_low inp).
  rewrite Hbat.
  set (g1 := handleButton (in_button inp) g).
  assert (H1 : currentState g1 = STATE_MONITOR /\
               spectrogramIndex g1 = spectrogramIndex g /\
               lastProcessTime g1 = lastProcessTime g).
  { unfold g1. destruct Hb as [-> | ->]; cbn; auto. }
  clearbody g1. destruct H1 as (Hs1 & Hi1 & Hp1). rewrite Hs1.
  destruct (AlertManager.update _ _ _) as [a p] eqn:Eu.
  unfold monitor_case in *. rewrite Hp1 in *.
  destruct (HOP_MS <=? usub (millis (in_time inp)) (lastProcessTime g))%Z.
  - destruct (in_i2s inp) as [[n l]|];
      [unfold readAudioSamples; destruct (0 <? n)%Z|];
      cbn; rewrite <- Hi1; reflexivity.
  - cbn. exact Hi1.
Qed.

(** Without a model the confidence is 0. *)
Lemma qualifies_without_model (g : Globals F) inp :
  fgeb (lit 0) (lit CONFIDENCE_THRESHOLD) = false ->
  modelLoaded g = false -> qualifies g inp = false.
Proof.
  intros Hz Hm. unfold qualifies, at_confidence_test. cbn zeta.
  set (g1 := handleButton (in_button inp) g).
  set (g2 := if battery_low inp then set_currentState STATE_LOW_BATTERY g1 else g1).
  set (g3 := readAudioSamples (in_i2s inp) (set_lastProcessTime (millis (in_time inp)) g2)).
  assert (H3 : modelLoaded (processAudio g3) = false).
  { change (modelLoaded g3 = false). unfold g3.
    rewrite modelLoaded_readAudioSamples.
    change (modelLoaded g2 = false). unfold g2.
    destruct (battery_low inp); cbn; unfold g1;
      now rewrite modelLoaded_handleButton. }
  change (fgeb (runInference (in_invoke inp) (processAudio g3)) (lit CONFIDENCE_THRESHOLD)
          = false).
  unfold runInference. rewrite H3. exact Hz.
Qed.

Lemma run_without_model ins : forall g : Globals F,
  fgeb (lit 0) (lit CONFIDENCE_THRESHOLD) = false ->
  modelLoaded g = false ->
  (detectionCount g < MIN_DETECTIONS_FOR_ALERT)%Z ->
  Forall (fun te => quiet (snd te)) (snd (run g ins)) /\
  (detectionCount (fst (run g ins)) < MIN_DETECTIONS_FOR_ALERT)%Z.
Proof.
  induction ins as [|inp ins IH]; intros g Hz Hm Hc.
  - cbn. split; [constructor|exact Hc].
  - cbn [run].
    destruct (loop_view g inp) as (Hv & He). cbn zeta in Hv, He.
    rewrite (qualifies_without_model g inp Hz Hm) in Hv, He.
    destruct (v_loop_quiet (in_time inp) (in_button inp) (battery_low inp) (view g) Hc)
      as (Hq & Hc1).
    rewrite <- He in Hq. rewrite <- Hv in Hc1.
    pose proof (modelLoaded_loop g inp) as Hm1.
    destruct (loop g inp) as [g1 ev]. cbn [fst snd] in *.
    destruct (IH g1 Hz ltac:(congruence) Hc1) as (IH1 & IH2).
    destruct (run g1 ins) as [g2 evs]. cbn [fst snd] in *.
    split; [constructor; assumption|exact IH2].
Qed.

(** X19. When the model could not be loaded ([interpreter], [input] or
    [output] is null), [setup()] still enters SCAN and [loop()] runs, but
    [runInference()] returns 0 on every cycle: along every run no cycle
    qualifies, no alert ever starts, and the detection count stays below the
    threshold.  (0 is below the confidence threshold in the arithmetic.) *)
Theorem missing_model_never_alerts :
  forall (g : Globals F) (ins : list (LoopInput F)),
    fgeb (lit 0) (lit CONFIDENCE_THRESHOLD) = false ->
    modelLoaded g = false ->
    (detectionCount g < MIN_DETECTIONS_FOR_ALERT)%Z ->
    Forall (fun te => ev_qualifying (snd te) = false /\ ev_alert (snd te) = None)
           (snd (run g ins)) /\
    alert_times (snd (run g ins)) = [] /\
    (detectionCount (fst (run g ins)) < MIN_DETECTIONS_FOR_ALERT)%Z.
Proof.
  intros g ins Hz Hm Hc.
  destruct (run_without_model ins g Hz Hm Hc) as (Hq & Hc').
  split; [exact Hq|]. split; [|exact Hc'].
  unfold alert_times.
  induction Hq as [|te evs (_ & Ha) _ IH]; [reflexivity|].
  cbn [filter]. rewrite Ha. exact IH.
Qed.

(** X20. An alert that [loop()] starts is haptic-only exactly when the audio
    is muted, and audible otherwise; the alert manager is then in the
    corresponding mode at the end of the iteration. *)
Theorem muted_alert_is_haptic :
  forall (g : Globals F) (inp : LoopInput F) (kind : AlertKind),
    ev_alert (snd (loop g inp)) = Some kind ->
    let g' := fst (loop g inp) in
    kind = (if audioMuted g' then HapticOnly else Audible) /\
    AlertManager._hapticOnly (alertManager g') = audioMuted g' /\
    AlertManager._alertDuration (alertManager g') = ALERT_DURATION_MS.
Proof.
  intros g inp kind Hev g'. unfold g' in *. clear g'.
  unfold loop in *. cbn zeta in *.
  set (g2 := if _ <? _ then _ else _) in *. clearbody g2.
  assert (Htail : forall (g3 : Globals F) (ev : Events),
            ev_alert ev = Some kind ->
            (kind = (if audioMuted g3 then HapticOnly else Audible) /\
             AlertManager._hapticOnly (alertManager g3) = audioMuted g3 /\
             AlertManager._alertDuration (alertManager g3) = ALERT_DURATION_MS) ->
            let r := (let '(a, p) := AlertManager.update (millis (in_update_time inp))
                                       (alertManager g3) (gpio g3) in
                      (set_gpio p (set_alertManager a g3), ev)) in
            kind = (if audioMuted (fst r) then HapticOnly else Audible) /\
            AlertManager._hapticOnly (alertManager (fst r)) = audioMuted (fst r) /\
            AlertManager._alertDuration (alertManager (fst r)) = ALERT_DURATION_MS).
  { intros g3 ev _ (Hk & Hh & Hd). cbn zeta.
    pose proof (update_hapticOnly (millis (in_update_time inp)) (alertManager g3) (gpio g3))
      as Hu.
    assert (Hud : AlertManager._alertDuration
                    (fst (AlertManager.update (millis (in_update_time inp))
                            (alertManager g3) (gpio g3)))
                  = AlertManager._alertDuration (alertManager g3)).
    { unfold AlertManager.update, AlertManager.stopAlert.
      repeat match goal with |- context [if ?c then _ else _] => destruct c end;
        reflexivity. }
    destruct (AlertManager.update _ (alertManager g3) (gpio g3)) as [a p].
    cbn in *. split; [exact Hk|]. split; congruence. }
  assert (Hscan : forall ev g3,
            scan_case (millis (in_time inp)) inp g2 = (g3, ev) ->
            ev_alert ev = Some kind ->
            kind = (if audioMuted g3 then HapticOnly else Audible) /\
            AlertManager._hapticOnly (alertManager g3) = audioMuted g3 /\
            AlertManager._alertDuration (alertManager g3) = ALERT_DURATION_MS).
  { intros ev g3 Hsc Ha. unfold scan_case in Hsc.
    destruct (HOP_MS <=? usub (millis (in_time inp)) (lastProcessTime g2))%Z;
      [|injection Hsc as <- <-; discriminate].
    fold (confidence_point (millis (in_time inp)) inp g2) in Hsc.
    set (gc := confidence_point (millis (in_time inp)) inp g2) in *. clearbody gc.
    set (gd := detect (millis (in_time inp)) gc) in *. clearbody gd.
    unfold check_alert in Hsc.
    destruct ((MIN_DETECTIONS_FOR_ALERT <=? detectionCount gd)
              && (ALERT_HOLDOFF_MS <=? usub (millis (in_time inp)) (lastAlertTime gd)))%Z.
    - cbn [audioMuted set_lastAlertTime set_currentState] in Hsc.
      destruct (audioMuted gd) eqn:Em; cbn [negb] in Hsc.
      + unfold AlertManager.triggerHapticOnly, decay in Hsc. cbn in Hsc.
        destruct (DETECTION_WINDOW_MS <? usub (millis (in_time inp)) (lastDetectionTime gd))%Z;
          injection Hsc as <- <-; cbn in Ha |- *; rewrite ?Em;
          injection Ha as <-; auto.
      + unfold AlertManager.triggerAlert, decay in Hsc. cbn in Hsc.
        destruct (DETECTION_WINDOW_MS <? usub (millis (in_time inp)) (lastDetectionTime gd))%Z;
          injection Hsc as <- <-; cbn in Ha |- *; rewrite ?Em;
          injection Ha as <-; auto.
    - unfold decay in Hsc.
      destruct (DETECTION_WINDOW_MS <? usub (millis (in_time inp)) (lastDetectionTime gd))%Z;
        cbn in Hsc.
      + destruct (currentState gd); injection Hsc as <- <-; discriminate.
      + injection Hsc as <- <-. discriminate. }
  destruct (currentState g2).
  - destruct (AlertManager.update _ _ _); discriminate.
  - destruct (scan_case (millis (in_time inp)) inp g2) as [g3 ev] eqn:Esc.
    assert (Ha : ev_alert ev = Some kind).
    { destruct (AlertManager.update _ (alertManager g3) (gpio g3)). exact Hev. }
    exact (Htail g3 ev Ha (Hscan ev g3 eq_refl Ha)).
  - destruct (scan_case (millis (in_time inp)) inp g2) as [g3 ev] eqn:Esc.
    assert (Ha : ev_alert ev = Some kind).
    { destruct (AlertManager.update _ (alertManager g3) (gpio g3)). exact Hev. }
    exact (Htail g3 ev Ha (Hscan ev g3 eq_refl Ha)).
  - destruct (AlertManager.update _ _ _); discriminate.
  - destruct (AlertManager.update _ _ _); discriminate.
  - destruct (AlertManager.update _ _ _); discriminate.
  - destruct (AlertManager.update _ _ _); discriminate.
Qed.

(** X21. After boot the hold-off also applies to the first alert:
    [lastAlertTime] starts at 0, so along a run in time order no alert
    starts before ALERT_HOLDOFF_MS (2000 ms) of uptime, however many
    qualifying cycles come earlier. *)
Theorem no_alert_before_holdoff_after_boot :
  forall (g : Globals F) (ins : list (LoopInput F)),
    lastAlertTime g = 0%Z ->
    time_ordered (map in_time ins) ->
    Forall (fun inp => (0 <= in_time inp)%Z) ins ->
    Forall (fun T => (ALERT_HOLDOFF_MS <= T)%Z) (alert_times (snd (run g ins))).
Proof.
  intros g ins Hst Hord Hge.
  destruct (run_view ins g) as (_ & He). rewrite He.
  destruct (v_run_holdoff (steps_of g ins) (view g) 0%Z) as (H & _).
  - now rewrite steps_of_times.
  - clear Hord He Hst. revert g. induction Hge as [|inp ins H0 _ IH]; intros g.
    + constructor.
    + cbn [steps_of]. constructor; [exact H0|apply IH].
  - exact Hst.
  - eapply Forall_impl; [|exact H]. cbn. intros T HT. lia.
Qed.

(** X22. Along a run of [loop()] in time order, two frames processed in SCAN
    or ALERT are at least the hop interval HOP_SIZE * 1000 / SAMPLE_RATE
    (11 ms in [int] arithmetic) apart. *)
Theorem frames_are_a_hop_apart :
  forall (g : Globals F) (ins : list (LoopInput F)),
    time_ordered (map in_time ins) ->
    spaced HOP_MS (processed_times (snd (run g ins))) /\ HOP_MS = 11%Z.
Proof.
  intros g ins Hord. split; [|reflexivity].
  destruct (run_view ins g) as (_ & He). rewrite He.
  apply v_run_paced_any. now rewrite steps_of_times.
Qed.

End WithFloat.

(** ** Instances in exact arithmetic, on runs from [setup()] *)

Section Exact.
Import Real.
Local Open Scope R_scope.

Lemma flat_battery_low T : battery_low (flat_battery T) = true.
Proof.
  unfold battery_low, readBatteryVoltage. cbn [in_adc flat_battery].
  cbn [fltb fmul fdiv of_int lit real_ops]. apply DirectionFacts.Rltb_true.
  unfold BATTERY_CRITICAL_VOLTAGE, BATTERY_DIVIDER, Q2R; cbn [Qnum Qden]. lra.
Qed.

Lemma zero_below_threshold :
  fgeb (F:=R) (lit 0) (lit CONFIDENCE_THRESHOLD) = false.
Proof.
  unfold fgeb. cbn [fleb lit real_ops]. apply DirectionFacts.Rleb_false.
  unfold CONFIDENCE_THRESHOLD, Q2R; cbn [Qnum Qden]. lra.
Qed.

Lemma modelLoaded_run ins : forall g : Globals R,
  modelLoaded (fst (run g ins)) = modelLoaded g.
Proof.
  induction ins as [|inp ins IH]; intros g; [reflexivity|].
  cbn [run]. pose proof (modelLoaded_loop g inp) as H1.
  destruct (loop g inp) as [g1 ev]. specialize (IH g1).
  destruct (run g1 ins) as [g2 evs]. cbn [fst] in *. congruence.
Qed.

(** The fifth cycle of [steady_hits], at 2000 ms, starts an audible alert. *)
Lemma warmed_up_alerts (g0 : Globals R) :
  view g0 = mkView STATE_SCAN 0 0 0 false 0 ->
  modelLoaded g0 = true ->
  ev_alert (snd (loop (warmed_up g0) (cycle_input (2000%Z, true)))) = Some Audible.
Proof.
  intros Hv Hm.
  assert (Hm' : modelLoaded (warmed_up g0) = true).
  { unfold warmed_up. now rewrite modelLoaded_run. }
  destruct (loop_view (warmed_up g0) (cycle_input (2000%Z, true))) as (_ & He).
  cbn zeta in He. rewrite He.
  rewrite cycle_battery, cycle_qualifies by exact Hm'.
  unfold warmed_up.
  destruct (run_script (firstn 4 steady_hits) g0 Hm) as (Hrv & _).
  rewrite Hrv, Hv. vm_compute. reflexivity.
Qed.

Lemma steady_hits_from_boot :
  Forall (fun inp : LoopInput R => (0 <= in_time inp)%Z) (map cycle_input steady_hits).
Proof.
  unfold steady_hits. cbn [seq map].
  repeat first [apply Forall_nil | apply Forall_cons]; cbn; lia.
Defined.

Lemma low_battery_stops_detection_witness :
  exists g0 : Globals R,
    setup true (fun _ => LOW) = Some g0 /\
    battery_low (flat_battery 100) = true /\
    currentState (fst (loop g0 (flat_battery 100))) = STATE_LOW_BATTERY /\
    snd (loop g0 (flat_battery 100)) = no_events.
Proof.
  destruct (setup_state (F:=R) true (fun _ => LOW)) as (g0 & Hs & _).
  exists g0. split; [exact Hs|]. split; [exact (flat_battery_low 100)|].
  pose proof (low_battery_stops_detection g0 (flat_battery 100)
                (or_introl (flat_battery_low 100))) as H.
  cbn zeta in H. split; [exact (proj1 H)|exact (proj1 (proj2 H))].
Defined.

Lemma monitor_mode_never_alerts_witness :
  exists g0 : Globals R,
    setup true (fun _ => LOW) = Some g0 /\
    currentState (set_currentState STATE_MONITOR g0) = STATE_MONITOR /\
    battery_low (cycle_input (100%Z, true)) = false /\
    currentState (fst (loop (set_currentState STATE_MONITOR g0) (cycle_input (100%Z, true))))
      = STATE_MONITOR /\
    snd (loop (set_currentState STATE_MONITOR g0) (cycle_input (100%Z, true))) = no_events.
Proof.
  destruct (setup_state (F:=R) true (fun _ => LOW)) as (g0 & Hs & _).
  exists g0. split; [exact Hs|]. split; [reflexivity|].
  split; [exact (cycle_battery (100%Z, true))|].
  pose proof (monitor_mode_never_alerts (set_currentState STATE_MONITOR g0)
                (cycle_input (100%Z, true)) eq_refl (cycle_battery (100%Z, true))
                (or_introl eq_refl)) as H.
  cbn zeta in H. split; [exact (proj1 H)|exact (proj1 (proj2 H))].
Defined.

Lemma missing_model_never_alerts_witness :
  exists g0 : Globals R,
    setup false (fun _ => LOW) = Some g0 /\
    modelLoaded g0 = false /\
    (detectionCount g0 < MIN_DETECTIONS_FOR_ALERT)%Z /\
    alert_times (snd (run g0 (map cycle_input steady_hits))) = [] /\
    (detectionCount (fst (run g0 (map cycle_input steady_hits)))
       < MIN_DETECTIONS_FOR_ALERT)%Z.
Proof.
  destruct (setup_state (F:=R) false (fun _ => LOW)) as (g0 & Hs & Hv & Hm & _).
  assert (Hc : (detectionCount g0 < MIN_DETECTIONS_FOR_ALERT)%Z).
  { change (v_count (view g0) < MIN_DETECTIONS_FOR_ALERT)%Z. rewrite Hv. reflexivity. }
  exists g0. split; [exact Hs|]. split; [exact Hm|]. split; [exact Hc|].
  exact (proj2 (missing_model_never_alerts g0 (map cycle_input steady_hits)
                  zero_below_threshold Hm Hc)).
Defined.

Lemma muted_alert_is_haptic_witness :
  exists g0 : Globals R,
    setup true (fun _ => LOW) = Some g0 /\
    ev_alert (snd (loop (warmed_up g0) (cycle_input (2000%Z, true)))) = Some Audible /\
    Audible = (if audioMuted (fst (loop (warmed_up g0) (cycle_input (2000%Z, true))))
               then HapticOnly else Audible) /\
    AlertManager._alertDuration
      (alertManager (fst (loop (warmed_up g0) (cycle_input (2000%Z, true)))))
      = ALERT_DURATION_MS.
Proof.
  destruct (setup_state (F:=R) true (fun _ => LOW)) as (g0 & Hs & Hv & Hm & _).
  exists g0. split; [exact Hs|].
  split; [exact (warmed_up_alerts g0 Hv Hm)|].
  pose proof (muted_alert_is_haptic (warmed_up g0) (cycle_input (2000%Z, true)) Audible
                (warmed_up_alerts g0 Hv Hm)) as H.
  cbn zeta in H. split; [exact (proj1 H)|exact (proj2 (proj2 H))].
Defined.

Lemma no_alert_before_holdoff_after_boot_witness :
  exists g0 : Globals R,
    setup true (fun _ => LOW) = Some g0 /\
    lastAlertTime g0 = 0%Z /\
    time_ordered (map in_time (map cycle_input steady_hits)) /\
    Forall (fun T => (ALERT_HOLDOFF_MS <= T)%Z)
           (alert_times (snd (run g0 (map cycle_input steady_hits)))).
Proof.
  destruct (setup_state (F:=R) true (fun _ => LOW)) as (g0 & Hs & Hv & _).
  assert (H0 : lastAlertTime g0 = 0%Z).
  { change (v_lastAlert (view g0) = 0%Z). rewrite Hv. reflexivity. }
  exists g0. split; [exact Hs|]. split; [exact H0|].
  split; [exact steady_hits_ordered|].
  exact (no_alert_before_holdoff_after_boot g0 (map cycle_input steady_hits) H0
           steady_hits_ordered steady_hits_from_boot).
Defined.

Lemma frames_are_a_hop_apart_witness :
  exists g0 : Globals R,
    setup true (fun _ => LOW) = Some g0 /\
    time_ordered (map in_time (map cycle_input steady_hits)) /\
    spaced HOP_MS (processed_times (snd (run g0 (map cycle_input steady_hits)))).
Proof.
  destruct (setup_state (F:=R) true (fun _ => LOW)) as (g0 & Hs & _).
  exists g0. split; [exact Hs|]. split; [exact steady_hits_ordered|].
  exact (proj1 (frames_are_a_hop_apart g0 (map cycle_input steady_hits)
                  steady_hits_ordered)).
Defined.

End Exact.
End OperationFacts.

(* ===================================================================== *)
(** * Acquisition: battery, samples, input tensor, calibration *)
(* ===================================================================== *)

Module AcquisitionFacts.
Import Acquisition.
Import Machine Config Main Orchestrator Scenario OrchestratorFacts ScenarioFacts.

(** ** Any arithmetic *)

Section WithFloat.
Context {F : Type} {FO : FloatOps F} {LM : Libm F} {FFT : ArduinoFFT F}.
Local Open Scope fl_scope.

Lemma memcpy_whole (dst src : list F) n :
  (0 <= n)%Z -> length dst = Z.to_nat n -> length src = Z.to_nat n ->
  memcpy dst 0 src n = src.
Proof.
  intros Hn Hd Hs.
  destruct (memcpy_spec dst src 0 n) as (Hl & Hg); [lia|lia|lia|].
  apply array_ext; [congruence|].
  intros i Hi. rewrite Hl, Hd in Hi. rewrite Hg.
  replace ((0 <=? i) && (i <? 0 + n))%Z with true.
  - f_equal. lia.
  - symmetry. apply andb_true_iff. split; [apply Z.leb_le|apply Z.ltb_lt]; lia.
Qed.

(** X23. A successful [i2s_read] that reports a positive number of bytes
    stores the converted words at the head of the first microphone buffer
    ([bytesRead / 4] of them, at most FFT_SIZE, the rest of the buffer being
    kept) and copies that buffer over the three others: after it the four
    buffers are equal, whatever the three others held.  A failed read, or
    one that reports no byte, changes nothing. *)
Theorem readAudioSamples_fills_all_buffers :
  forall (g : Globals F) (bytesRead : Z) (rawSamples : list Z),
    (0 < bytesRead)%Z ->
    sized (audioBuffer g) ->
    let g' := readAudioSamples (Some (bytesRead, rawSamples)) g in
    let n := Z.min (Z.quot bytesRead 4) FFT_SIZE in
    sized (audioBuffer g') /\
    (forall i, (0 <= i < n)%Z ->
       aget (mic0 (audioBuffer g')) i = sample_of (nth (Z.to_nat i) rawSamples 0%Z)) /\
    (forall i, (n <= i)%Z -> aget (mic0 (audioBuffer g')) i = aget (mic0 (audioBuffer g)) i) /\
    mic1 (audioBuffer g') = mic0 (audioBuffer g') /\
    mic2 (audioBuffer g') = mic0 (audioBuffer g') /\
    mic3 (audioBuffer g') = mic0 (audioBuffer g') /\
    readAudioSamples None g = g /\
    readAudioSamples (Some (0%Z, rawSamples)) g = g.
Proof.
  intros g bytesRead rawSamples Hne (H0 & H1 & H2 & H3) g' n.
  assert (Hpos : (0 <? bytesRead)%Z = true) by (apply Z.ltb_lt; exact Hne).
  unfold g', readAudioSamples. cbn zeta. rewrite Hpos.
  cbn [audioBuffer set_audioBuffer mic0 mic1 mic2 mic3].
  fold n.
  assert (HF : (0 <= FFT_SIZE)%Z) by (vm_compute; discriminate).
  assert (Hq : (0 <= Z.quot bytesRead 4)%Z) by (apply Z.quot_pos; lia).
  set (f := fun (i : Z) (_ : list F) =>
              of_int (Z.shiftr (nth (Z.to_nat i) rawSamples 0%Z) 8) / lit 8388608).
  destruct (fill_loop f 0 n (mic0 (audioBuffer g))) as (Hl & Hg).
  - lia.
  - unfold n. lia.
  - rewrite H0. unfold n. lia.
  - reflexivity.
  - cbn zeta in Hl, Hg. unfold f in Hl, Hg.
    set (m0 := for_loop 0 n _ (mic0 (audioBuffer g))) in *.
    assert (Hm0 : length m0 = Z.to_nat FFT_SIZE) by congruence.
    rewrite !memcpy_whole by assumption.
    repeat split; try assumption; try reflexivity.
    + intros i Hi. rewrite Hg.
      replace ((0 <=? i) && (i <? n))%Z with true; [reflexivity|].
      symmetry. apply andb_true_iff. split; [apply Z.leb_le|apply Z.ltb_lt]; lia.
    + intros i Hi. rewrite Hg.
      replace ((0 <=? i) && (i <? n))%Z with false; [reflexivity|].
      symmetry. apply andb_false_iff. right. apply Z.ltb_ge. lia.
Qed.

End WithFloat.

(** ** IEEE single precision *)

Section Binary32Battery.
Import Binary32.

Lemma forallb_zrange (p : Z -> bool) lo hi :
  forallb p (zrange lo hi) = true -> forall k, lo <= k < hi -> p k = true.
Proof.
  intros H k Hk. rewrite forallb_forall in H. apply H. now apply zrange_In.
Qed.

(** X24. On IEEE single precision, for every reading of the 12-bit converter
    the battery test [readBatteryVoltage() < BATTERY_CRITICAL_VOLTAGE] of
    [loop()] holds exactly when the reading is 3970 or less: the system
    enters LOW_BATTERY at readings 0 .. 3970 and not at 3971 .. 4095. *)
Theorem low_battery_threshold :
  forall adcValue : Z,
    0 <= adcValue <= 4095 ->
    low32 adcValue = (adcValue <=? 3970).
Proof.
  intros adc Hadc.
  assert (H : forallb (fun a => Bool.eqb (low32 a) (a <=? 3970)) (zrange 0 4096) = true)
    by (vm_compute; reflexivity).
  apply eqb_prop. apply (forallb_zrange _ 0 4096 H). lia.
Qed.

Lemma low_battery_threshold_witness :
  0 <= 3970 <= 4095 /\ low32 3970 = true.
Proof.
  assert (H : 0 <= 3970 <= 4095) by lia.
  split; [exact H|]. exact (low_battery_threshold 3970 H).
Defined.

End Binary32Battery.

(** ** Exact arithmetic *)

Section Exact.
Import Real Direction DirectionFacts.
Local Open Scope R_scope.

Lemma band_sum_app fs gs i : band_sum (fs ++ gs) i = band_sum fs i + band_sum gs i.
Proof.
  unfold band_sum. induction fs as [|f fs IH]; cbn [app fold_right]; [lra|].
  rewrite IH. lra.
Qed.

Lemma normalize_range (v : R) : 0 <= RollingBuffer.normalize v <= 1.
Proof.
  unfold RollingBuffer.normalize, fconstrain, fgtb.
  cbn [fltb fadd fdiv lit real_ops].
  replace (Q2R 1) with 1 by (unfold Q2R; cbn; lra).
  rewrite RMicromega.Q2R_0.
  destruct (Rltb ((v + Q2R 80) / Q2R 80) 0) eqn:E1; [lra|].
  apply Rltb_false in E1.
  destruct (Rltb 1 ((v + Q2R 80) / Q2R 80)) eqn:E2; [lra|].
  apply Rltb_false in E2. lra.
Qed.

(** X25. In exact arithmetic, every element of the tensor [runInference()]
    fills for the interpreter lies in [0, 1]; with the model loaded, that
    tensor is what [Invoke()] runs on, and a failed invocation gives the
    confidence 0. *)
Theorem input_tensor_in_unit_interval :
  forall (g : Globals R) (invoke : list R -> option (list R)) (t f : Z),
    (0 <= spectrogramIndex g)%Z ->
    (0 <= t < SPEC_TIME_FRAMES)%Z -> (0 <= f < MEL_BINS)%Z ->
    0 <= aget (RollingBuffer.inference_tensor g) (t * MEL_BINS + f)%Z <= 1 /\
    (modelLoaded g = true ->
     runInference invoke g =
       match invoke (RollingBuffer.inference_tensor g) with
       | None => 0
       | Some outputData => aget outputData DRONE_CLASS_INDEX
       end).
Proof.
  intros g invoke t f Hidx Ht Hf. split.
  - unfold RollingBuffer.inference_tensor.
    rewrite RollingBufferFacts.fill_input_spec by (try assumption; apply length_zeros).
    apply normalize_range.
  - intros Hm. rewrite RollingBufferFacts.runInference_tensor by exact Hm.
    destruct (invoke _); [reflexivity|]. cbn. apply RMicromega.Q2R_0.
Qed.

(** X26. In exact arithmetic, a 32-bit word read from the microphone is
    converted to a sample of [-1, 1): the arithmetic shift by 8 leaves a
    24-bit signed number, divided by 2^23. *)
Theorem sample_in_unit_range :
  forall raw : Z,
    (- 2 ^ 31 <= raw < 2 ^ 31)%Z ->
    -1 <= sample_of (F:=R) raw < 1.
Proof.
  intros raw Hraw. unfold sample_of. cbn [fdiv of_int lit real_ops].
  replace (Q2R 8388608) with 8388608 by (unfold Q2R; cbn; lra).
  rewrite Z.shiftr_div_pow2 by lia.
  assert (Hq : (- 8388608 <= raw / 2 ^ 8 < 8388608)%Z).
  { split.
    - apply Z.div_le_lower_bound; lia.
    - apply Z.div_lt_upper_bound; lia. }
  destruct Hq as (Hq1 & Hq2). apply IZR_le in Hq1. apply IZR_lt in Hq2.
  split.
  - apply Rmult_le_reg_r with (r := 8388608); [lra|].
    unfold Rdiv. rewrite Rmult_assoc, Rinv_l by lra. lra.
  - apply Rmult_lt_reg_r with (r := 8388608); [lra|].
    unfold Rdiv. rewrite Rmult_assoc, Rinv_l by lra. lra.
Qed.

Lemma sample_in_unit_range_witness :
  (- 2 ^ 31 <= -2147483648 < 2 ^ 31)%Z /\ -1 <= sample_of (F:=R) (-2147483648) < 1.
Proof.
  assert (H : (- 2 ^ 31 <= -2147483648 < 2 ^ 31)%Z) by lia.
  split; [exact H|]. exact (sample_in_unit_range (-2147483648) H).
Defined.

Lemma calibration_step_averaged r s fs :
  averaged fs s ->
  averaged (fs ++ [RollingBuffer.mel_frame (readAudioSamples r (fst s))])
           (calibration_step r s) /\
  fst (calibration_step r s) = readAudioSamples r (fst s).
Proof.
  destruct s as [g [nf c]]. intros (Hc & Hl & Hs).
  unfold calibration_step. cbn [fst].
  set (g1 := readAudioSamples r g).
  change (AudioProcessor.computeMelSpectrogram (audioProcessor g1)
            (mic0 (audioBuffer g1)) FFT_SIZE (AudioProcessor.zeros MEL_BINS))
    with (RollingBuffer.mel_frame g1).
  set (fr := RollingBuffer.mel_frame g1).
  set (f := fun (i : Z) (a : list R) =>
              ((aget a i * of_int c + aget fr i) / of_int (c + 1)%Z)%fl).
  destruct (fill_loop f 0 MEL_BINS nf) as (Hl' & Hg').
  - lia.
  - vm_compute; discriminate.
  - rewrite Hl. lia.
  - intros i a a' _ _ Ha. unfold f. rewrite (Ha i) by lia. reflexivity.
  - cbn zeta in Hl', Hg'. split; [|reflexivity].
    unfold averaged. split; [rewrite length_app; cbn; lia|].
    unfold f in Hl', Hg'. cbn beta in Hl', Hg'.
    set (L := for_loop 0 MEL_BINS _ nf) in *.
    split; [congruence|].
    intros i Hi. rewrite Hg'.
    replace ((0 <=? i) && (i <? MEL_BINS))%Z with true
      by (symmetry; apply andb_true_iff; split; [apply Z.leb_le|apply Z.ltb_lt]; lia).
    rewrite band_sum_app. cbn [band_sum fold_right]. fold (band_sum fs i).
    rewrite <- (Hs i Hi). cbn [fadd fmul fdiv of_int real_ops].
    assert (Hc1 : 0 < IZR (c + 1)) by (apply IZR_lt; lia).
    field. lra.
Qed.

Lemma calibration_run reads : forall s fs,
  averaged fs s ->
  averaged (fs ++ calibration_frames reads (fst s))
           (fold_left (fun s r => calibration_step r s) reads s) /\
  audioProcessor (fst (fold_left (fun s r => calibration_step r s) reads s))
  = audioProcessor (fst s).
Proof.
  induction reads as [|r reads IH]; intros s fs Hs.
  - cbn. rewrite app_nil_r. auto.
  - cbn [fold_left calibration_frames].
    destruct (calibration_step_averaged r s fs Hs) as (H1 & E1).
    destruct (IH _ _ H1) as (H2 & E2).
    rewrite E1 in H2, E2. rewrite <- app_assoc in H2. cbn [app] in H2.
    split; [exact H2|]. rewrite E2.
    destruct r as [[n l]|]; [unfold readAudioSamples; destruct (0 <? n)%Z|];
      reflexivity.
Qed.

(** X27. In exact arithmetic, the noise floor [enterCalibrationMode()] stores
    is, band by band, the arithmetic mean of the Feature Rows computed from
    its reads: the running average [(noiseFloor * count + frame) /
    (count + 1)] over [n] frames leaves their sum divided by [n]. *)
Theorem calibration_stores_mean :
  forall (g : Globals R) (reads : list (option (Z * list Z))) (i : Z),
    reads <> [] ->
    AudioProcessor._melBins (audioProcessor g) = MEL_BINS ->
    (MEL_BINS <= Z.of_nat (length (AudioProcessor._noiseFloor (audioProcessor g))))%Z ->
    (0 <= i < MEL_BINS)%Z ->
    aget (AudioProcessor._noiseFloor (audioProcessor (enterCalibrationMode reads g))) i
    = band_sum (calibration_frames reads g) i / INR (length reads).
Proof.
  intros g reads i Hne Hmb Hnf Hi.
  unfold enterCalibrationMode.
  set (s0 := (g, (AudioProcessor.zeros (F:=R) MEL_BINS, 0%Z))).
  assert (H0 : averaged [] s0).
  { unfold averaged, s0. split; [reflexivity|]. split; [apply length_zeros|].
    intros k Hk. cbn. lra. }
  destruct (calibration_run reads s0 [] H0) as (Hav & Hap).
  cbn [app fst s0] in Hav, Hap. fold s0 in Hav, Hap.
  destruct (fold_left _ reads s0) as [g1 [nf c]]. cbn [fst] in Hap.
  destruct Hav as (Hc & Hl & Hs).
  cbn [audioProcessor set_audioProcessor]. rewrite Hap.
  unfold AudioProcessor.setNoiseFloor. cbn [AudioProcessor._noiseFloor]. rewrite Hmb.
  destruct (memcpy_spec (AudioProcessor._noiseFloor (audioProcessor g)) nf 0 MEL_BINS)
    as (_ & Hg); [lia|vm_compute; discriminate|lia|].
  rewrite Hg.
  replace ((0 <=? i) && (i <? 0 + MEL_BINS))%Z with true
    by (symmetry; apply andb_true_iff; split; [apply Z.leb_le|apply Z.ltb_lt]; lia).
  rewrite Z.sub_0_r.
  assert (Hlen : length (calibration_frames reads g) = length reads).
  { clear. revert g. induction reads as [|r reads IH]; intros g; [reflexivity|].
    cbn. now rewrite IH. }
  rewrite Hlen in Hc.
  assert (Hn : 0 < INR (length reads)).
  { apply lt_0_INR. destruct reads; [contradiction|cbn; lia]. }
  specialize (Hs i Hi). rewrite Hc, <- INR_IZR_INZ in Hs.
  rewrite <- Hs. field. lra.
Qed.

(** What [setup()] leaves in the processor and the buffers. *)
Lemma setup_processor modelOk (p : GPIO) (g0 : Globals R) :
  setup modelOk p = Some g0 ->
  AudioProcessor._melBins (audioProcessor g0) = MEL_BINS /\
  AudioProcessor._fftSize (audioProcessor g0) = FFT_SIZE /\
  AudioProcessor._noiseFloor (audioProcessor g0) = AudioProcessor.zeros MEL_BINS /\
  sized (audioBuffer g0).
Proof.
  unfold setup, AudioProcessor.begin.
  destruct (AudioProcessor.createMelFilterbank SAMPLE_RATE FFT_SIZE MEL_BINS);
    [|discriminate].
  destruct (AlertManager.begin BUZZER_PIN VIBRATION_PIN AlertManager.init p) as [am p'].
  intros E. injection E as <-. cbn. repeat split; apply repeat_length.
Qed.

Lemma calibration_stores_mean_witness :
  exists g0 : Globals R,
    setup true (fun _ => LOW) = Some g0 /\
    [Some (8%Z, [256%Z; 512%Z]); None] <> [] /\
    AudioProcessor._melBins (audioProcessor g0) = MEL_BINS /\
    (MEL_BINS <= Z.of_nat (length (AudioProcessor._noiseFloor (audioProcessor g0))))%Z /\
    (0 <= 5 < MEL_BINS)%Z /\
    aget (AudioProcessor._noiseFloor
            (audioProcessor (enterCalibrationMode [Some (8%Z, [256%Z; 512%Z]); None] g0))) 5
    = band_sum (calibration_frames [Some (8%Z, [256%Z; 512%Z]); None] g0) 5 / 2.
Proof.
  destruct (setup_state (F:=R) true (fun _ => LOW)) as (g0 & Hs & _).
  destruct (setup_processor true (fun _ => LOW) g0 Hs) as (Hmb & _ & Hnf & _).
  assert (H1 : [Some (8%Z, [256%Z; 512%Z]); None] <> ([] : list (option (Z * list Z))))
    by discriminate.
  assert (H2 : (MEL_BINS <= Z.of_nat (length (AudioProcessor._noiseFloor (audioProcessor g0))))%Z).
  { rewrite Hnf. unfold AudioProcessor.zeros. rewrite repeat_length. vm_compute. discriminate. }
  assert (H3 : (0 <= 5 < MEL_BINS)%Z) by (split; [lia|reflexivity]).
  exists g0. split; [exact Hs|]. split; [exact H1|]. split; [exact Hmb|].
  split; [exact H2|]. split; [exact H3|].
  exact (calibration_stores_mean g0 [Some (8%Z, [256%Z; 512%Z]); None] 5 H1 Hmb H2 H3).
Defined.

Lemma readAudioSamples_fills_all_buffers_witness :
  exists g0 : Globals R,
    setup true (fun _ => LOW) = Some g0 /\
    (0 < 8)%Z /\
    sized (audioBuffer g0) /\
    mic3 (audioBuffer (readAudioSamples (Some (8%Z, [256%Z; 512%Z])) g0))
    = mic0 (audioBuffer (readAudioSamples (Some (8%Z, [256%Z; 512%Z])) g0)).
Proof.
  destruct (setup_state (F:=R) true (fun _ => LOW)) as (g0 & Hs & _).
  destruct (setup_processor true (fun _ => LOW) g0 Hs) as (_ & _ & _ & Hsz).
  assert (H1 : (0 < 8)%Z) by lia.
  exists g0. split; [exact Hs|]. split; [exact H1|]. split; [exact Hsz|].
  pose proof (readAudioSamples_fills_all_buffers g0 8 [256%Z; 512%Z] H1 Hsz) as H.
  cbv zeta in H. destruct H as (_ & _ & _ & _ & _ & H & _). exact H.
Defined.

Lemma input_tensor_in_unit_interval_witness :
  exists g0 : Globals R,
    setup true (fun _ => LOW) = Some g0 /\
    (0 <= spectrogramIndex g0)%Z /\ (0 <= 3 < SPEC_TIME_FRAMES)%Z /\
    (0 <= 7 < MEL_BINS)%Z /\
    0 <= aget (RollingBuffer.inference_tensor g0) (3 * MEL_BINS + 7)%Z <= 1.
Proof.
  destruct (setup_state (F:=R) true (fun _ => LOW)) as (g0 & Hs & _ & _ & _ & Hi).
  assert (H0 : (0 <= spectrogramIndex g0)%Z) by (rewrite Hi; lia).
  assert (H1 : (0 <= 3 < SPEC_TIME_FRAMES)%Z) by (split; [lia|reflexivity]).
  assert (H2 : (0 <= 7 < MEL_BINS)%Z) by (split; [lia|reflexivity]).
  exists g0. split; [exact Hs|]. split; [exact H0|]. split; [exact H1|].
  split; [exact H2|].
  exact (proj1 (input_tensor_in_unit_interval g0 (fun _ => None) 3 7 H0 H1 H2)).
Defined.

End Exact.
End AcquisitionFacts.

(* ===================================================================== *)
(** * The button and the LED ring *)
(* ===================================================================== *)

Module ControlsFacts.
Import Controls.
Import Machine Config Main.

Section WithFloat.
Context {F : Type} {FO : FloatOps F} {LM : Libm F} {FFT : ArduinoFFT F}.
Local Open Scope fl_scope.

(** X28. Whatever the button pin and the clock read, one call of
    [handleButton()] changes the globals as one of the four button actions
    does: nothing, the single press (SCAN and MONITOR exchanged), the
    double press (mute toggled) or the long press.  While the pin is low
    only a pending single press can act; a release after 3000 ms or more
    sets CALIBRATE from any state, LOW_BATTERY and ERROR included; a second
    release of 50 ms or more within 500 ms of the first toggles the mute and
    clears the count; and the count of quick presses stays 0 or 1 between
    calls. *)
Theorem handleButton_acts_as_one_action :
  forall (r : Panel.ButtonRead) (s : Panel.ButtonStatics) (g : Globals F),
    let s' := fst (Panel.handleButton r s g) in
    let g' := snd (Panel.handleButton r s g) in
    let held := usub (Panel.at_release r) (Panel.buttonPressTime s) in
    (exists b : ButtonAction, g' = Main.handleButton b g) /\
    (Panel.pin_low r = true -> g' = g \/ g' = Main.handleButton SinglePress g) /\
    (Panel.pin_low r = false -> Panel.buttonWasPressed s = true -> (3000 <= held)%Z ->
     g' = set_currentState STATE_CALIBRATE g) /\
    (Panel.pin_low r = false -> Panel.buttonWasPressed s = true ->
     (50 <= held < 3000)%Z -> Panel.quickPressCount s = 1%Z ->
     (usub (Panel.at_quick r) (Panel.lastQuickPress s) < 500)%Z ->
     g' = set_audioMuted (negb (audioMuted g)) g /\ Panel.quickPressCount s' = 0%Z) /\
    ((0 <= Panel.quickPressCount s <= 1)%Z -> (0 <= Panel.quickPressCount s' <= 1)%Z).
Proof.
  intros r s g s' g' held. unfold s', g', held. clear s' g' held.
  destruct r as [low t1 t2 t3 t4 t5]. destruct s as [bt was q lq].
  unfold Panel.handleButton.
  cbn [Panel.pin_low Panel.at_press Panel.at_release Panel.at_quick Panel.at_stamp
       Panel.at_single Panel.buttonPressTime Panel.buttonWasPressed
       Panel.quickPressCount Panel.lastQuickPress].
  assert (T2 : to_int 2 = 2%Z) by reflexivity.
  assert (T1 : to_int 1 = 1%Z) by reflexivity.
  destruct low, was; cbn [andb negb].
  all: repeat match goal with
       | |- context [if (?a <=? ?b)%Z then _ else _] =>
           let E := fresh "E" in destruct (Z.leb_spec a b) as [E|E]
       | |- context [if (?a <? ?b)%Z then _ else _] =>
           let E := fresh "E" in destruct (Z.ltb_spec a b) as [E|E]
       | |- context [if (?a =? ?b)%Z && _ then _ else _] =>
           let E := fresh "E" in destruct (Z.eqb_spec a b) as [E|E]; cbn [andb]
       | |- context [(0 =? 1)%Z] => change (0 =? 1)%Z with false; cbn [andb]
       end;
     cbn [fst snd Panel.quickPressCount Panel.lastQuickPress Panel.buttonWasPressed
          Panel.buttonPressTime currentState set_currentState audioMuted set_audioMuted].
  all: repeat split; intros;
       try discriminate; try lia; try reflexivity; try congruence;
       try (left; reflexivity); try (right; reflexivity);
       try (first [ exists NoAction; reflexivity | exists LongPress; reflexivity
                  | exists DoublePress; reflexivity | exists SinglePress; reflexivity ]).
  all: assert (Hq : to_int (q + 1) = (q + 1)%Z)
         by (assert (Hq : (q = 0 \/ q = 1)%Z) by lia; destruct Hq as [-> | ->]; reflexivity);
       rewrite Hq in *; cbn in *; lia.
Qed.

Lemma ring_of_eight (ring : list Panel.Pixel) :
  length ring = 8%nat ->
  exists p0 p1 p2 p3 p4 p5 p6 p7, ring = [p0; p1; p2; p3; p4; p5; p6; p7].
Proof.
  intros H.
  do 8 (destruct ring as [|? ring]; [discriminate|]).
  destruct ring; [|discriminate]. repeat eexists.
Qed.

Lemma length_setPixelColor n c (ring : list Panel.Pixel) :
  length (Panel.setPixelColor n c ring) = length ring.
Proof.
  unfold Panel.setPixelColor.
  destruct ((0 <=? n) && (n <? Z.of_nat (length ring)))%Z; [|reflexivity].
  apply length_list_set.
Qed.

Lemma length_updateLEDs direction confidence (g : Globals F) s ring :
  length ring = 8%nat ->
  length (snd (Panel.updateLEDs direction confidence g s ring)) = 8%nat.
Proof.
  intros H. unfold Panel.updateLEDs. cbn zeta.
  destruct (currentState g); cbn [snd];
    rewrite ?length_setPixelColor; unfold Panel.clear; rewrite ?length_map; try exact H.
  destruct (ring_of_eight ring H) as (p0 & p1 & p2 & p3 & p4 & p5 & p6 & p7 & ->).
  reflexivity.
Qed.

(** One call in SCAN. *)
Lemma updateLEDs_scan direction confidence (g : Globals F) s ring :
  currentState g = STATE_SCAN -> steady s -> length ring = 8%nat ->
  let r := Panel.updateLEDs direction confidence g s ring in
  steady (fst r) /\
  snd r = repeat (0, 0, Panel.breathe (fst r))%Z 8.
Proof.
  intros Hst (Hb & Hev & Hd) Hlen. cbn zeta.
  destruct (ring_of_eight ring Hlen) as (p0 & p1 & p2 & p3 & p4 & p5 & p6 & p7 & ->).
  unfold Panel.updateLEDs. cbn zeta. rewrite Hst. cbn [fst snd Panel.breathe Panel.breatheDir].
  destruct s as [b d]. cbn [Panel.breathe Panel.breatheDir] in *.
  assert (Heven : exists h, b = (2 * h)%Z).
  { exists (Z.div2 b). rewrite (Z.div2_odd b) at 1.
    rewrite <- Z.negb_even, Hev. cbn. lia. }
  destruct Heven as (h & ->).
  set (b' := ((2 * h + d * 2) mod 256)%Z).
  assert (Hb' : (b' = 2 * h + d * 2)%Z).
  { unfold b'. apply Z.mod_small. lia. }
  split.
  - unfold steady. cbn [Panel.breathe Panel.breatheDir].
    destruct (Z.leb_spec 30 b') as [E1|E1]; cbn [orb].
    + destruct Hd as [(-> & Hd)|(-> & Hd)]; [|lia].
      assert (b' = 30)%Z by lia.
      repeat split; try lia; [rewrite H; reflexivity|right; split; [reflexivity|lia]].
    + destruct (Z.leb_spec b' 0) as [E2|E2].
      * destruct Hd as [(-> & Hd)|(-> & Hd)]; [lia|].
        assert (b' = 0)%Z by lia.
        repeat split; try lia; [rewrite H; reflexivity|left; split; [reflexivity|lia]].
      * repeat split; try lia.
        rewrite Hb'. replace (2 * h + d * 2)%Z with (2 * (h + d))%Z by lia.
        rewrite Z.even_mul. reflexivity.
  - unfold Panel.Color. rewrite Z.mod_0_l by lia.
    assert (Hm : (b' mod 256 = b')%Z) by (apply Z.mod_small; lia).
    rewrite Hm. reflexivity.
Qed.

Lemma updateLEDs_statics direction confidence (g : Globals F) s ring :
  currentState g <> STATE_SCAN ->
  fst (Panel.updateLEDs direction confidence g s ring) = s.
Proof.
  intros H. unfold Panel.updateLEDs. cbn zeta.
  destruct (currentState g); try reflexivity. contradiction.
Qed.

(** X29. The breathing light of SCAN stays dim: along any sequence of calls
    of [updateLEDs()] that starts with the level at an even value of
    0 .. 30 moving away from the end it last touched (as the initial 0 and
    +1 are), every call in SCAN shows the same colour on all eight pixels,
    blue at a level of 0 .. 30, whatever calls in other states come in
    between; the [uint8_t] level never wraps around. *)
Theorem led_breathing_stays_dim :
  forall (calls : list (F * F * Globals F)) (s : Panel.LedStatics)
         (ring : list Panel.Pixel),
    steady s -> length ring = 8%nat ->
    steady (fst (led_run calls s ring)) /\
    Forall (fun sr => fst sr = STATE_SCAN ->
              exists b : Z, (0 <= b <= 30)%Z /\ snd sr = repeat (0, 0, b)%Z 8)
           (snd (led_run calls s ring)).
Proof.
  induction calls as [|[[direction confidence] g] calls IH]; intros s ring Hs Hlen.
  - cbn. split; [exact Hs|constructor].
  - cbn [led_run].
    pose proof (length_updateLEDs direction confidence g s ring Hlen) as Hlen1.
    assert (H1 : steady (fst (Panel.updateLEDs direction confidence g s ring)) /\
                 (currentState g = STATE_SCAN ->
                  snd (Panel.updateLEDs direction confidence g s ring)
                  = repeat (0, 0, Panel.breathe
                                    (fst (Panel.updateLEDs direction confidence g s ring)))%Z
                           8)).
    { assert (Hdec : currentState g = STATE_SCAN \/ currentState g <> STATE_SCAN)
        by (destruct (currentState g); auto; right; discriminate).
      destruct Hdec as [E|E].
      - destruct (updateLEDs_scan direction confidence g s ring E Hs Hlen) as (A & B).
        split; [exact A|intros _; exact B].
      - rewrite (updateLEDs_statics direction confidence g s ring E).
        split; [exact Hs|intros E'; contradiction]. }
    destruct (Panel.updateLEDs direction confidence g s ring) as [s1 ring1].
    cbn [fst snd] in *. destruct H1 as (Hs1 & Hshow).
    destruct (IH s1 ring1 Hs1 Hlen1) as (IH1 & IH2).
    destruct (led_run calls s1 ring1) as [s2 shown]. cbn [fst snd] in *.
    split; [exact IH1|]. constructor; [|exact IH2].
    cbn [fst snd]. intros E. exists (Panel.breathe s1).
    split; [destruct Hs1 as (Hb & _); exact Hb|exact (Hshow E)].
Qed.

End WithFloat.

(** ** Exact arithmetic *)

Section Exact.
Import Real.
Local Open Scope R_scope.

(** The sector of a direction of [0, 360): the whole part of
    [(direction + 22.5) / 45], between 0 and 8. *)
Lemma sector_bounds (direction : R) :
  0 <= direction < 360 ->
  let n := trunc_int ((direction + lit 22.5) / lit 45)%fl in
  (0 <= n <= 8)%Z /\
  45 * IZR n - 22.5 <= direction < 45 * IZR n + 22.5.
Proof.
  intros Hd. cbn zeta. cbn [trunc_int fadd fdiv lit real_ops].
  assert (H1 : Q2R 22.5 = 45 / 2) by (unfold Q2R; cbn [Qnum Qden]; lra).
  assert (H2 : Q2R 45 = 45) by (unfold Q2R; cbn [Qnum Qden]; lra).
  rewrite H1, H2.
  set (x := (direction + 45 / 2) / 45).
  assert (Hx45 : x * 45 = direction + 45 / 2) by (unfold x; field).
  assert (Hx : 1 / 2 <= x < 17 / 2) by lra.
  unfold Rtrunc. destruct (Rle_dec 0 x) as [_|Hn]; [|lra].
  destruct (base_Int_part x) as (Hlo & Hhi).
  set (n := Int_part x) in *. clearbody n.
  assert (Hn : (0 <= n <= 8)%Z).
  { split.
    - assert (H : (-1 < n)%Z) by (apply lt_IZR; lra). lia.
    - assert (H : (n < 9)%Z) by (apply lt_IZR; lra). lia. }
  split; [exact Hn|].
  lra.
Qed.

(** X30. In ALERT, for a direction of [0, 360) (as [tdoaToAzimuth] returns),
    [updateLEDs()] lights the pixel of the 45-degree sector the direction
    falls in, sector 0 being centred on 0 degrees and holding 337.5 .. 360
    as well, at the red level [(int)(confidence * 255)] taken modulo 256,
    and its two neighbours on the ring at a third of that number; the five
    other pixels are dark, and the breathing level is left alone. *)
Theorem alert_lights_the_sector :
  forall (direction confidence : R) (g : Globals R) (s : Panel.LedStatics)
         (ring : list Panel.Pixel),
    currentState g = STATE_ALERT ->
    length ring = 8%nat ->
    0 <= direction < 360 ->
    let k := ledIndex_of direction in
    let intensity := intensity_of confidence in
    let r := Panel.updateLEDs direction confidence g s ring in
    (0 <= k < 8)%Z /\
    (45 * IZR k - 22.5 <= direction < 45 * IZR k + 22.5 \/
     (k = 0%Z /\ 337.5 <= direction)) /\
    fst r = s /\
    forall i : Z, (0 <= i < 8)%Z ->
      nth (Z.to_nat i) (snd r) (0, 0, 0)%Z =
        if (i =? k)%Z then Panel.Color intensity 0 0
        else if (i =? (k + 7) mod 8)%Z || (i =? (k + 1) mod 8)%Z
             then Panel.Color (Z.quot intensity 3) 0 0
             else (0, 0, 0)%Z.
Proof.
  intros direction confidence g s ring Hst Hlen Hd k intensity r.
  destruct (sector_bounds direction Hd) as (Hn & Hsec). cbn zeta in Hn, Hsec.
  unfold r, Panel.updateLEDs. cbn zeta. rewrite Hst.
  unfold k, intensity, ledIndex_of, intensity_of in *. clear k r intensity.
  set (intensity := trunc_int (confidence * of_int 255)%fl).
  set (n := trunc_int ((direction + lit 22.5) / lit 45)%fl) in *. clearbody n.
  clearbody intensity.
  destruct (ring_of_eight ring Hlen) as (p0 & p1 & p2 & p3 & p4 & p5 & p6 & p7 & ->).
  assert (Hcase : (n = 0 \/ n = 1 \/ n = 2 \/ n = 3 \/ n = 4 \/ n = 5 \/ n = 6 \/ n = 7
                   \/ n = 8)%Z) by lia.
  set (c1 := Panel.Color intensity 0 0).
  set (c3 := Panel.Color (Z.quot intensity 3) 0 0).
  clearbody c1 c3.
  destruct Hcase as [->|[->|[->|[->|[->|[->|[->|[->| ->]]]]]]]];
    (split; [cbn; lia|]);
    (split; [first [left; cbn; lra | right; split; [reflexivity|cbn in Hsec; lra]]|]);
    (split; [reflexivity|]);
    intros i Hi;
    assert (Hi' : (i = 0 \/ i = 1 \/ i = 2 \/ i = 3 \/ i = 4 \/ i = 5 \/ i = 6 \/ i = 7)%Z)
      by lia;
    destruct Hi' as [->|[->|[->|[->|[->|[->|[->| ->]]]]]]]; reflexivity.
Qed.

Lemma eight_dark : length (repeat (0, 0, 0)%Z 8 : list Panel.Pixel) = 8%nat.
Proof. reflexivity. Defined.

Lemma led_init_steady : steady Panel.led_init.
Proof.
  unfold steady, Panel.led_init. cbn.
  split; [lia|]. split; [reflexivity|]. left. split; [reflexivity|lia].
Defined.

Lemma alert_lights_the_sector_witness :
  exists g0 : Globals R,
    setup true (fun _ => LOW) = Some g0 /\
    currentState (set_currentState STATE_ALERT g0) = STATE_ALERT /\
    0 <= 100 < 360 /\
    (0 <= ledIndex_of 100 < 8)%Z /\
    fst (Panel.updateLEDs 100 1 (set_currentState STATE_ALERT g0) Panel.led_init
           (repeat (0, 0, 0)%Z 8)) = Panel.led_init.
Proof.
  destruct (ScenarioFacts.setup_state (F:=R) true (fun _ => LOW)) as (g0 & Hs & _).
  assert (Hd : 0 <= 100 < 360) by lra.
  exists g0. split; [exact Hs|]. split; [reflexivity|]. split; [exact Hd|].
  pose proof (alert_lights_the_sector 100 1 (set_currentState STATE_ALERT g0)
                Panel.led_init (repeat (0, 0, 0)%Z 8) eq_refl eight_dark Hd) as H.
  cbv zeta in H. destruct H as (H1 & _ & H2 & _).
  split; [exact H1|exact H2].
Defined.

Lemma led_breathing_stays_dim_witness :
  exists g0 : Globals R,
    setup true (fun _ => LOW) = Some g0 /\
    steady Panel.led_init /\
    length (repeat (0, 0, 0)%Z 8 : list Panel.Pixel) = 8%nat /\
    steady (fst (led_run [(0, 0, g0); (0, 0, g0); (0, 0, g0)] Panel.led_init
                   (repeat (0, 0, 0)%Z 8))).
Proof.
  destruct (ScenarioFacts.setup_state (F:=R) true (fun _ => LOW)) as (g0 & Hs & _).
  exists g0. split; [exact Hs|]. split; [exact led_init_steady|].
  split; [exact eight_dark|].
  exact (proj1 (led_breathing_stays_dim [(0, 0, g0); (0, 0, g0); (0, 0, g0)]
                  Panel.led_init (repeat (0, 0, 0)%Z 8) led_init_steady eight_dark)).
Defined.

End Exact.
End ControlsFacts.

